(** * griptape: TextManagerRamp and FileManager

    A shallow embedding of [griptape/ramps/text_manager_ramp.py] and
    [griptape/tools/file_manager/tool.py], together with the part of
    Python's run time the two adapters lean on: [str], its UTF-8 encoder
    and [repr], [dict] lookup, [posixpath], [pathlib], exceptions and
    their messages, and the file tree as Linux presents it through
    [os.stat], [os.mkdir] and [open]: directories and regular files, with
    the limits on the length of a name and of a path.  Symbolic links,
    permissions, quotas and the recursion limit of the interpreter are
    outside the model.  A method that touches the disk is a computation
    over the file tree that returns an artifact or raises; a method of the
    ramp is one over the store of its driver. *)

From Stdlib Require Import NArith List String Ascii Bool Lia.
From stdpp Require Import base option list gmap.
Import ListNotations.

Local Open Scope N_scope.

(** ** Python [str] and [bytes] *)

(** A Python [str] is a sequence of code points; [bytes] is a sequence of
    octets. *)
Abbreviation pystr := (list N).
Abbreviation pybytes := (list Byte.byte).

(** A literal of the source text. *)
Definition lit (s : string) : pystr :=
  List.map N_of_ascii (list_ascii_of_string s).

Definition sep : N := 47.      (* "/" *)
Definition curdir : pystr := [46].       (* "." *)
Definition pardir : pystr := [46; 46].   (* ".." *)

Definition is_sep (c : N) : bool := c =? sep.
Definition not_sep (c : N) : bool := negb (c =? sep).

Definition octet (n : N) : Byte.byte :=
  match Byte.of_N (n mod 256) with
  | Some b => b
  | None => Byte.x00
  end.

(** [str.encode()]: the strict UTF-8 codec.  Lone surrogates (and values
    that are no code point) are refused, which Python reports with
    [UnicodeEncodeError]. *)
Definition utf8_char (c : N) : option pybytes :=
  if c <? 0x80 then Some [octet c]
  else if c <? 0x800 then
    Some [octet (N.lor 0xC0 (N.shiftr c 6));
          octet (N.lor 0x80 (N.land c 0x3F))]
  else if c <? 0x10000 then
    if (0xD800 <=? c) && (c <=? 0xDFFF) then None
    else
      Some [octet (N.lor 0xE0 (N.shiftr c 12));
            octet (N.lor 0x80 (N.land (N.shiftr c 6) 0x3F));
            octet (N.lor 0x80 (N.land c 0x3F))]
  else if c <? 0x110000 then
    Some [octet (N.lor 0xF0 (N.shiftr c 18));
          octet (N.lor 0x80 (N.land (N.shiftr c 12) 0x3F));
          octet (N.lor 0x80 (N.land (N.shiftr c 6) 0x3F));
          octet (N.lor 0x80 (N.land c 0x3F))]
  else None.

Fixpoint utf8_encode (s : pystr) : option pybytes :=
  match s with
  | [] => Some []
  | c :: r =>
      match utf8_char c, utf8_encode r with
      | Some b, Some bs => Some (b ++ bs)
      | _, _ => None
      end
  end.

(** [os.fsencode] on Linux: UTF-8 with the [surrogateescape] handler,
    which turns the surrogates U+DC80 to U+DCFF back into the bytes 0x80
    to 0xFF and refuses every other surrogate. *)
Definition fs_char (c : N) : option pybytes :=
  if (0xDC80 <=? c) && (c <=? 0xDCFF) then Some [octet (c - 0xDC00)]
  else utf8_char c.

(** The number of bytes of the encoded name. *)
Definition fs_len (s : pystr) : N :=
  fold_right
    (fun c n => match fs_char c with
                | Some b => N.of_nat (length b) + n
                | None => n
                end) 0 s.

(** *** Numbers in messages *)

Fixpoint uint_str (u : Decimal.uint) : pystr :=
  match u with
  | Decimal.Nil => []
  | Decimal.D0 r => 48 :: uint_str r
  | Decimal.D1 r => 49 :: uint_str r
  | Decimal.D2 r => 50 :: uint_str r
  | Decimal.D3 r => 51 :: uint_str r
  | Decimal.D4 r => 52 :: uint_str r
  | Decimal.D5 r => 53 :: uint_str r
  | Decimal.D6 r => 54 :: uint_str r
  | Decimal.D7 r => 55 :: uint_str r
  | Decimal.D8 r => 56 :: uint_str r
  | Decimal.D9 r => 57 :: uint_str r
  end.

(** [str(n)] of a natural number *)
Definition dec (n : N) : pystr := uint_str (N.to_uint n).

Definition hex_digit (d : N) : N := if d <? 10 then 48 + d else 87 + d.

(** The format [%0<width>x] *)
Fixpoint hex_fixed (width : nat) (n : N) : pystr :=
  match width with
  | O => []
  | S w => hex_digit ((n / 16 ^ N.of_nat w) mod 16) :: hex_fixed w n
  end.

(** A code point as an escape: [\xNN], [\uNNNN] or [\UNNNNNNNN]. *)
Definition escape (c : N) : pystr :=
  if c <=? 0xFF then lit "\x" ++ hex_fixed 2 c
  else if c <=? 0xFFFF then lit "\u" ++ hex_fixed 4 c
  else lit "\U" ++ hex_fixed 8 c.

(** *** The error of a codec *)

Definition is_surrogate (c : N) : bool := (0xD800 <=? c) && (c <=? 0xDFFF).

(** Where the run of surrogates that begins before [s] ends, [i] being
    the position of the head of [s]. *)
Fixpoint run_end (s : pystr) (i : N) : N :=
  match s with
  | c :: r => if is_surrogate c then run_end r (i + 1) else i
  | [] => i
  end.

(** The first code point the codec refuses: its position, the end of the
    run of surrogates it belongs to, and the code point. *)
Fixpoint first_bad (ok : N -> bool) (s : pystr) (i : N)
  : option (N * N * N) :=
  match s with
  | [] => None
  | c :: r =>
      if ok c then first_bad ok r (i + 1)
      else Some (i, run_end r (i + 1), c)
  end.

(** [str(e)] of the [UnicodeEncodeError] of the UTF-8 codec, for the code
    points from [start] up to [stop]. *)
Definition codec_error (start stop bad : N) : pystr :=
  lit "'utf-8' codec can't encode "
  ++ (if stop =? start + 1
      then lit "character '" ++ escape bad ++ lit "' in position " ++ dec start
      else lit "characters in position " ++ dec start
           ++ lit "-" ++ dec (stop - 1))
  ++ lit ": surrogates not allowed".

(** The message of [s.encode()] when it raises, [None] when it
    returns. *)
Definition encode_error (s : pystr) : option pystr :=
  match first_bad (fun c => bool_decide (utf8_char c <> None)) s 0 with
  | Some (start, stop, bad) => Some (codec_error start stop bad)
  | None => None
  end.

(** The same for [os.fsencode(s)]. *)
Definition fsencode_error (s : pystr) : option pystr :=
  match first_bad (fun c => bool_decide (fs_char c <> None)) s 0 with
  | Some (start, stop, bad) => Some (codec_error start stop bad)
  | None => None
  end.

(** *** [repr] of a [str] *)

(** The code points from U+0080 on for which [str.isprintable] is false,
    as ranges: the categories Cc, Cf, Cs, Co, Cn, Zl, Zp and Zs of
    Unicode 14.0.0, the database of CPython 3.11. *)
Definition unprintable : list (N * N) :=
  [(128, 160); (173, 173); (888, 889); (896, 899); (907, 907); (909, 909);
   (930, 930); (1328, 1328); (1367, 1368); (1419, 1420); (1424, 1424);
   (1480, 1487); (1515, 1518); (1525, 1541); (1564, 1564); (1757, 1757);
   (1806, 1807); (1867, 1868); (1970, 1983); (2043, 2044); (2094, 2095);
   (2111, 2111); (2140, 2141); (2143, 2143); (2155, 2159); (2191, 2199);
   (2274, 2274); (2436, 2436); (2445, 2446); (2449, 2450); (2473, 2473);
   (2481, 2481); (2483, 2485); (2490, 2491); (2501, 2502); (2505, 2506);
   (2511, 2518); (2520, 2523); (2526, 2526); (2532, 2533); (2559, 2560);
   (2564, 2564); (2571, 2574); (2577, 2578); (2601, 2601); (2609, 2609);
   (2612, 2612); (2615, 2615); (2618, 2619); (2621, 2621); (2627, 2630);
   (2633, 2634); (2638, 2640); (2642, 2648); (2653, 2653); (2655, 2661);
   (2679, 2688); (2692, 2692); (2702, 2702); (2706, 2706); (2729, 2729);
   (2737, 2737); (2740, 2740); (2746, 2747); (2758, 2758); (2762, 2762);
   (2766, 2767); (2769, 2783); (2788, 2789); (2802, 2808); (2816, 2816);
   (2820, 2820); (2829, 2830); (2833, 2834); (2857, 2857); (2865, 2865);
   (2868, 2868); (2874, 2875); (2885, 2886); (2889, 2890); (2894, 2900);
   (2904, 2907); (2910, 2910); (2916, 2917); (2936, 2945); (2948, 2948);
   (2955, 2957); (2961, 2961); (2966, 2968); (2971, 2971); (2973, 2973);
   (2976, 2978); (2981, 2983); (2987, 2989); (3002, 3005); (3011, 3013);
   (3017, 3017); (3022, 3023); (3025, 3030); (3032, 3045); (3067, 3071);
   (3085, 3085); (3089, 3089); (3113, 3113); (3130, 3131); (3141, 3141);
   (3145, 3145); (3150, 3156); (3159, 3159); (3163, 3164); (3166, 3167);
   (3172, 3173); (3184, 3190); (3213, 3213); (3217, 3217); (3241, 3241);
   (3252, 3252); (3258, 3259); (3269, 3269); (3273, 3273); (3278, 3284);
   (3287, 3292); (3295, 3295); (3300, 3301); (3312, 3312); (3315, 3327);
   (3341, 3341); (3345, 3345); (3397, 3397); (3401, 3401); (3408, 3411);
   (3428, 3429); (3456, 3456); (3460, 3460); (3479, 3481); (3506, 3506);
   (3516, 3516); (3518, 3519); (3527, 3529); (3531, 3534); (3541, 3541);
   (3543, 3543); (3552, 3557); (3568, 3569); (3573, 3584); (3643, 3646);
   (3676, 3712); (3715, 3715); (3717, 3717); (3723, 3723); (3748, 3748);
   (3750, 3750); (3774, 3775); (3781, 3781); (3783, 3783); (3790, 3791);
   (3802, 3803); (3808, 3839); (3912, 3912); (3949, 3952); (3992, 3992);
   (4029, 4029); (4045, 4045); (4059, 4095); (4294, 4294); (4296, 4300);
   (4302, 4303); (4681, 4681); (4686, 4687); (4695, 4695); (4697, 4697);
   (4702, 4703); (4745, 4745); (4750, 4751); (4785, 4785); (4790, 4791);
   (4799, 4799); (4801, 4801); (4806, 4807); (4823, 4823); (4881, 4881);
   (4886, 4887); (4955, 4956); (4989, 4991); (5018, 5023); (5110, 5111);
   (5118, 5119); (5760, 5760); (5789, 5791); (5881, 5887); (5910, 5918);
   (5943, 5951); (5972, 5983); (5997, 5997); (6001, 6001); (6004, 6015);
   (6110, 6111); (6122, 6127); (6138, 6143); (6158, 6158); (6170, 6175);
   (6265, 6271); (6315, 6319); (6390, 6399); (6431, 6431); (6444, 6447);
   (6460, 6463); (6465, 6467); (6510, 6511); (6517, 6527); (6572, 6575);
   (6602, 6607); (6619, 6621); (6684, 6685); (6751, 6751); (6781, 6782);
   (6794, 6799); (6810, 6815); (6830, 6831); (6863, 6911); (6989, 6991);
   (7039, 7039); (7156, 7163); (7224, 7226); (7242, 7244); (7305, 7311);
   (7355, 7356); (7368, 7375); (7419, 7423); (7958, 7959); (7966, 7967);
   (8006, 8007); (8014, 8015); (8024, 8024); (8026, 8026); (8028, 8028);
   (8030, 8030); (8062, 8063); (8117, 8117); (8133, 8133); (8148, 8149);
   (8156, 8156); (8176, 8177); (8181, 8181); (8191, 8207); (8232, 8239);
   (8287, 8303); (8306, 8307); (8335, 8335); (8349, 8351); (8385, 8399);
   (8433, 8447); (8588, 8591); (9255, 9279); (9291, 9311); (11124, 11125);
   (11158, 11158); (11508, 11512); (11558, 11558); (11560, 11564);
   (11566, 11567); (11624, 11630); (11633, 11646); (11671, 11679);
   (11687, 11687); (11695, 11695); (11703, 11703); (11711, 11711);
   (11719, 11719); (11727, 11727); (11735, 11735); (11743, 11743);
   (11870, 11903); (11930, 11930); (12020, 12031); (12246, 12271);
   (12284, 12288); (12352, 12352); (12439, 12440); (12544, 12548);
   (12592, 12592); (12687, 12687); (12772, 12783); (12831, 12831);
   (42125, 42127); (42183, 42191); (42540, 42559); (42744, 42751);
   (42955, 42959); (42962, 42962); (42964, 42964); (42970, 42993);
   (43053, 43055); (43066, 43071); (43128, 43135); (43206, 43213);
   (43226, 43231); (43348, 43358); (43389, 43391); (43470, 43470);
   (43482, 43485); (43519, 43519); (43575, 43583); (43598, 43599);
   (43610, 43611); (43715, 43738); (43767, 43776); (43783, 43784);
   (43791, 43792); (43799, 43807); (43815, 43815); (43823, 43823);
   (43884, 43887); (44014, 44015); (44026, 44031); (55204, 55215);
   (55239, 55242); (55292, 63743); (64110, 64111); (64218, 64255);
   (64263, 64274); (64280, 64284); (64311, 64311); (64317, 64317);
   (64319, 64319); (64322, 64322); (64325, 64325); (64451, 64466);
   (64912, 64913); (64968, 64974); (64976, 65007); (65050, 65055);
   (65107, 65107); (65127, 65127); (65132, 65135); (65141, 65141);
   (65277, 65280); (65471, 65473); (65480, 65481); (65488, 65489);
   (65496, 65497); (65501, 65503); (65511, 65511); (65519, 65531);
   (65534, 65535); (65548, 65548); (65575, 65575); (65595, 65595);
   (65598, 65598); (65614, 65615); (65630, 65663); (65787, 65791);
   (65795, 65798); (65844, 65846); (65935, 65935); (65949, 65951);
   (65953, 65999); (66046, 66175); (66205, 66207); (66257, 66271);
   (66300, 66303); (66340, 66348); (66379, 66383); (66427, 66431);
   (66462, 66462); (66500, 66503); (66518, 66559); (66718, 66719);
   (66730, 66735); (66772, 66775); (66812, 66815); (66856, 66863);
   (66916, 66926); (66939, 66939); (66955, 66955); (66963, 66963);
   (66966, 66966); (66978, 66978); (66994, 66994); (67002, 67002);
   (67005, 67071); (67383, 67391); (67414, 67423); (67432, 67455);
   (67462, 67462); (67505, 67505); (67515, 67583); (67590, 67591);
   (67593, 67593); (67638, 67638); (67641, 67643); (67645, 67646);
   (67670, 67670); (67743, 67750); (67760, 67807); (67827, 67827);
   (67830, 67834); (67868, 67870); (67898, 67902); (67904, 67967);
   (68024, 68027); (68048, 68049); (68100, 68100); (68103, 68107);
   (68116, 68116); (68120, 68120); (68150, 68151); (68155, 68158);
   (68169, 68175); (68185, 68191); (68256, 68287); (68327, 68330);
   (68343, 68351); (68406, 68408); (68438, 68439); (68467, 68471);
   (68498, 68504); (68509, 68520); (68528, 68607); (68681, 68735);
   (68787, 68799); (68851, 68857); (68904, 68911); (68922, 69215);
   (69247, 69247); (69290, 69290); (69294, 69295); (69298, 69375);
   (69416, 69423); (69466, 69487); (69514, 69551); (69580, 69599);
   (69623, 69631); (69710, 69713); (69750, 69758); (69821, 69821);
   (69827, 69839); (69865, 69871); (69882, 69887); (69941, 69941);
   (69960, 69967); (70007, 70015); (70112, 70112); (70133, 70143);
   (70162, 70162); (70207, 70271); (70279, 70279); (70281, 70281);
   (70286, 70286); (70302, 70302); (70314, 70319); (70379, 70383);
   (70394, 70399); (70404, 70404); (70413, 70414); (70417, 70418);
   (70441, 70441); (70449, 70449); (70452, 70452); (70458, 70458);
   (70469, 70470); (70473, 70474); (70478, 70479); (70481, 70486);
   (70488, 70492); (70500, 70501); (70509, 70511); (70517, 70655);
   (70748, 70748); (70754, 70783); (70856, 70863); (70874, 71039);
   (71094, 71095); (71134, 71167); (71237, 71247); (71258, 71263);
   (71277, 71295); (71354, 71359); (71370, 71423); (71451, 71452);
   (71468, 71471); (71495, 71679); (71740, 71839); (71923, 71934);
   (71943, 71944); (71946, 71947); (71956, 71956); (71959, 71959);
   (71990, 71990); (71993, 71994); (72007, 72015); (72026, 72095);
   (72104, 72105); (72152, 72153); (72165, 72191); (72264, 72271);
   (72355, 72367); (72441, 72703); (72713, 72713); (72759, 72759);
   (72774, 72783); (72813, 72815); (72848, 72849); (72872, 72872);
   (72887, 72959); (72967, 72967); (72970, 72970); (73015, 73017);
   (73019, 73019); (73022, 73022); (73032, 73039); (73050, 73055);
   (73062, 73062); (73065, 73065); (73103, 73103); (73106, 73106);
   (73113, 73119); (73130, 73439); (73465, 73647); (73649, 73663);
   (73714, 73726); (74650, 74751); (74863, 74863); (74869, 74879);
   (75076, 77711); (77811, 77823); (78895, 82943); (83527, 92159);
   (92729, 92735); (92767, 92767); (92778, 92781); (92863, 92863);
   (92874, 92879); (92910, 92911); (92918, 92927); (92998, 93007);
   (93018, 93018); (93026, 93026); (93048, 93052); (93072, 93759);
   (93851, 93951); (94027, 94030); (94088, 94094); (94112, 94175);
   (94181, 94191); (94194, 94207); (100344, 100351); (101590, 101631);
   (101641, 110575); (110580, 110580); (110588, 110588); (110591, 110591);
   (110883, 110927); (110931, 110947); (110952, 110959); (111356, 113663);
   (113771, 113775); (113789, 113791); (113801, 113807); (113818, 113819);
   (113824, 118527); (118574, 118575); (118599, 118607); (118724, 118783);
   (119030, 119039); (119079, 119080); (119155, 119162); (119275, 119295);
   (119366, 119519); (119540, 119551); (119639, 119647); (119673, 119807);
   (119893, 119893); (119965, 119965); (119968, 119969); (119971, 119972);
   (119975, 119976); (119981, 119981); (119994, 119994); (119996, 119996);
   (120004, 120004); (120070, 120070); (120075, 120076); (120085, 120085);
   (120093, 120093); (120122, 120122); (120127, 120127); (120133, 120133);
   (120135, 120137); (120145, 120145); (120486, 120487); (120780, 120781);
   (121484, 121498); (121504, 121504); (121520, 122623); (122655, 122879);
   (122887, 122887); (122905, 122906); (122914, 122914); (122917, 122917);
   (122923, 123135); (123181, 123183); (123198, 123199); (123210, 123213);
   (123216, 123535); (123567, 123583); (123642, 123646); (123648, 124895);
   (124903, 124903); (124908, 124908); (124911, 124911); (124927, 124927);
   (125125, 125126); (125143, 125183); (125260, 125263); (125274, 125277);
   (125280, 126064); (126133, 126208); (126270, 126463); (126468, 126468);
   (126496, 126496); (126499, 126499); (126501, 126502); (126504, 126504);
   (126515, 126515); (126520, 126520); (126522, 126522); (126524, 126529);
   (126531, 126534); (126536, 126536); (126538, 126538); (126540, 126540);
   (126544, 126544); (126547, 126547); (126549, 126550); (126552, 126552);
   (126554, 126554); (126556, 126556); (126558, 126558); (126560, 126560);
   (126563, 126563); (126565, 126566); (126571, 126571); (126579, 126579);
   (126584, 126584); (126589, 126589); (126591, 126591); (126602, 126602);
   (126620, 126624); (126628, 126628); (126634, 126634); (126652, 126703);
   (126706, 126975); (127020, 127023); (127124, 127135); (127151, 127152);
   (127168, 127168); (127184, 127184); (127222, 127231); (127406, 127461);
   (127491, 127503); (127548, 127551); (127561, 127567); (127570, 127583);
   (127590, 127743); (128728, 128732); (128749, 128751); (128765, 128767);
   (128884, 128895); (128985, 128991); (129004, 129007); (129009, 129023);
   (129036, 129039); (129096, 129103); (129114, 129119); (129160, 129167);
   (129198, 129199); (129202, 129279); (129620, 129631); (129646, 129647);
   (129653, 129655); (129661, 129663); (129671, 129679); (129709, 129711);
   (129723, 129727); (129734, 129743); (129754, 129759); (129768, 129775);
   (129783, 129791); (129939, 129939); (129995, 130031); (130042, 131071);
   (173792, 173823); (177977, 177983); (178206, 178207); (183970, 183983);
   (191457, 194559); (195102, 196607); (201547, 917759); (918000, 1114111)].

Definition is_printable (c : N) : bool :=
  if c <? 0x80 then (0x20 <=? c) && (c <? 0x7F)
  else negb (existsb (fun r => (fst r <=? c) && (c <=? snd r)) unprintable).

(** One code point of [repr(s)], between quotes [quote]. *)
Definition repr_char (quote c : N) : pystr :=
  if (c =? quote) || (c =? 92) then [92; c]
  else if c =? 9 then lit "\t"
  else if c =? 10 then lit "\n"
  else if c =? 13 then lit "\r"
  else if is_printable c then [c]
  else escape c.

(** [repr(s)]: between single quotes, or double quotes when [s] has a
    single quote and no double quote. *)
Definition py_repr (s : pystr) : pystr :=
  let quote := if existsb (N.eqb 39) s && negb (existsb (N.eqb 34) s)
               then 34 else 39 in
  quote :: flat_map (repr_char quote) s ++ [quote].

(** ** Exceptions and results *)

Inductive errno := ENOENT | EEXIST | ENOTDIR | EISDIR | ENAMETOOLONG.

(** [OSError e f] stands for the subclass Python picks from the error
    number: [FileNotFoundError] (ENOENT), [FileExistsError] (EEXIST),
    [NotADirectoryError] (ENOTDIR), [IsADirectoryError] (EISDIR), and
    [OSError] itself (ENAMETOOLONG).  [UnicodeEncodeError] is a
    [ValueError]; no handler of the sources tells them apart. *)
Inductive exn :=
| OSError (e : errno) (filename : pystr)
| ValueError (msg : pystr)
| TypeError (msg : pystr)
| KeyError (key : pystr)
| UnicodeEncodeError (msg : pystr)
| Exception (msg : pystr).

Definition errno_num (e : errno) : N :=
  match e with
  | ENOENT => 2
  | EEXIST => 17
  | ENOTDIR => 20
  | EISDIR => 21
  | ENAMETOOLONG => 36
  end.

Definition strerror (e : errno) : pystr :=
  match e with
  | ENOENT => lit "No such file or directory"
  | EEXIST => lit "File exists"
  | ENOTDIR => lit "Not a directory"
  | EISDIR => lit "Is a directory"
  | ENAMETOOLONG => lit "File name too long"
  end.

(** [str(e)], as the f-strings of the source format it: for an [OSError]
    with a file name, [[Errno n] text: repr(filename)]; for a [KeyError],
    the [repr] of the key. *)
Definition exn_str (e : exn) : pystr :=
  match e with
  | OSError n f =>
      lit "[Errno " ++ dec (errno_num n) ++ lit "] " ++ strerror n
      ++ lit ": " ++ py_repr f
  | ValueError m | TypeError m | UnicodeEncodeError m | Exception m => m
  | KeyError k => py_repr k
  end.

Inductive result (A : Type) :=
| Return (a : A)
| Raise (e : exn).
Arguments Return {A} a.
Arguments Raise {A} e.

(** A computation over a store [S] that returns or raises; the store
    survives a raise, as the file system does. *)
Definition M (S A : Type) : Type := S -> S * result A.

Definition ret {S A} (a : A) : M S A := fun s => (s, Return a).
Definition raise {S A} (e : exn) : M S A := fun s => (s, Raise e).
Definition bind {S A B} (m : M S A) (k : A -> M S B) : M S B :=
  fun s =>
    match m s with
    | (s', Return a) => k a s'
    | (s', Raise e) => (s', Raise e)
    end.
(** [try: m except e: h e] *)
Definition try_except {S A} (m : M S A) (h : exn -> M S A) : M S A :=
  fun s =>
    match m s with
    | (s', Return a) => (s', Return a)
    | (s', Raise e) => h e s'
    end.
Definition gets {S A} (f : S -> A) : M S A := fun s => (s, Return (f s)).
Definition lift {S A} (f : S -> result A) : M S A := fun s => (s, f s).

Declare Scope py_scope.
Delimit Scope py_scope with py.
Notation "x <- m ;; k" := (bind m (fun x => k))
  (at level 100, m at next level, right associativity) : py_scope.
Notation "m ;;; k" := (bind m (fun _ => k))
  (at level 100, right associativity) : py_scope.

(** [d[k]] on a [dict] with [str] keys *)
Definition dict_getitem {S V : Type} (d : gmap pystr V) (k : pystr) : M S V :=
  match d !! k with
  | Some v => ret v
  | None => raise (KeyError k)
  end.
(** ** posixpath and pathlib *)

Definition startswith_sep (s : pystr) : bool :=
  match s with
  | c :: _ => is_sep c
  | [] => false
  end.

Definition endswith_sep (s : pystr) : bool :=
  match rev s with
  | c :: _ => is_sep c
  | [] => false
  end.

Definition is_nil {A} (l : list A) : bool :=
  match l with
  | [] => true
  | _ => false
  end.

(** One round of the loop of [posixpath.join]. *)
Definition join2 (path b : pystr) : pystr :=
  if startswith_sep b then b
  else if is_nil path || endswith_sep path then path ++ b
  else path ++ sep :: b.

(** [os.path.join(a, *p)] *)
Definition os_path_join (a : pystr) (p : list pystr) : pystr :=
  fold_left join2 p a.

Fixpoint take_while (f : N -> bool) (l : pystr) : pystr :=
  match l with
  | [] => []
  | c :: r => if f c then c :: take_while f r else []
  end.

Fixpoint drop_while (f : N -> bool) (l : pystr) : pystr :=
  match l with
  | [] => []
  | c :: r => if f c then drop_while f r else l
  end.

(** [s.rstrip("/")] *)
Definition rstrip_sep (s : pystr) : pystr :=
  rev (drop_while is_sep (rev s)).

(** [posixpath.split]: [i = p.rfind("/") + 1], [head, tail = p[:i], p[i:]],
    and the head loses its trailing slashes unless it is all slashes. *)
Definition posix_split (p : pystr) : pystr * pystr :=
  let head := rev (drop_while not_sep (rev p)) in
  let tail := rev (take_while not_sep (rev p)) in
  (if negb (is_nil head) && negb (forallb is_sep head)
   then rstrip_sep head else head,
   tail).

(** [os.path.dirname] *)
Definition dirname (p : pystr) : pystr := fst (posix_split p).

(** [s.split("/")] *)
Fixpoint split_sep (s : pystr) : list pystr :=
  match s with
  | [] => [[]]
  | c :: r =>
      if is_sep c then [] :: split_sep r
      else
        match split_sep r with
        | w :: ws => (c :: w) :: ws
        | [] => [[c]]
        end
  end.

(** ["/".join(parts)] *)
Fixpoint sep_join (parts : list pystr) : pystr :=
  match parts with
  | [] => []
  | [a] => a
  | a :: rest => a ++ sep :: sep_join rest
  end.

Definition pystr_eqb (a b : pystr) : bool := bool_decide (a = b).

(** A component that names nothing new: empty (from a doubled or trailing
    slash) or ["."]. *)
Definition is_dot (c : pystr) : bool := is_nil c || pystr_eqb c curdir.

(** A parsed [pathlib.PurePosixPath]: its root and its parts after it. *)
Record PurePath := mkPath { root : pystr; parts : list pystr }.

(** [Path(s)] on POSIX: exactly two leading slashes are kept as the root
    ["//"], any other number collapses to ["/"]; empty and ["."]
    components are dropped, [".."] is kept. *)
Definition Path (s : pystr) : PurePath :=
  {| root :=
       match s with
       | 47 :: 47 :: 47 :: _ => [sep]
       | 47 :: 47 :: _ => [sep; sep]
       | 47 :: _ => [sep]
       | _ => []
       end;
     parts := List.filter (fun c => negb (is_dot c)) (split_sep s) |}.

(** [Path.is_absolute] *)
Definition is_absolute (p : PurePath) : bool := negb (is_nil (root p)).

(** [str(path)], which is also [os.fspath(path)] *)
Definition fspath (p : PurePath) : pystr :=
  if is_nil (root p) && is_nil (parts p) then curdir
  else root p ++ sep_join (parts p).

Example join_rel : os_path_join (lit "/work") [lit "foo/bar.txt"] = lit "/work/foo/bar.txt".
Proof. reflexivity. Qed.

Example join_abs : os_path_join (lit "/work") [lit "/etc/passwd"] = lit "/etc/passwd".
Proof. reflexivity. Qed.

Example dirname_ex : dirname (lit "/work/foo//bar.txt") = lit "/work/foo".
Proof. reflexivity. Qed.

Example dirname_root : dirname (lit "/bar.txt") = lit "/".
Proof. reflexivity. Qed.

Example path_ex : fspath (Path (lit "a//b/./c/")) = lit "a/b/c".
Proof. reflexivity. Qed.

Example utf8_ex : utf8_encode [0x68; 0xE9; 0x20AC; 0x1F600] =
  Some (List.map octet [0x68; 0xC3; 0xA9; 0xE2; 0x82; 0xAC; 0xF0; 0x9F; 0x98; 0x80]).
Proof. reflexivity. Qed.

(** ** The file tree *)

Inductive node :=
| Dir
| File (data : pybytes).

(** A location is the list of names from the root.  The root is always a
    directory; every other node is an entry of [tree]. *)
Record fsys := mkFs { cwd : list pystr; tree : gmap (list pystr) node }.

Definition node_at (fs : fsys) (loc : list pystr) : option node :=
  match loc with
  | [] => Some Dir
  | _ => tree fs !! loc
  end.

Definition set_node (fs : fsys) (loc : list pystr) (n : node) : fsys :=
  {| cwd := cwd fs; tree := <[loc := n]> (tree fs) |}.

(** The limits of Linux on the bytes of a name and of a path. *)
Definition NAME_MAX : N := 255.
Definition PATH_MAX : N := 4096.

(** Path resolution, one component at a time: a component is looked up in
    a directory that exists; empty components and ["."] stay, [".."] goes
    to the parent (the root is its own parent), and a name longer than
    [NAME_MAX] is refused.  The location returned may be vacant when the
    last component is a name. *)
Fixpoint namei (fs : fsys) (cur : list pystr) (cs : list pystr)
  : errno + list pystr :=
  match cs with
  | [] => inr cur
  | c :: rest =>
      match node_at fs cur with
      | None => inl ENOENT
      | Some (File _) => inl ENOTDIR
      | Some Dir =>
          if is_dot c then namei fs cur rest
          else if pystr_eqb c pardir then namei fs (removelast cur) rest
          else if NAME_MAX <? fs_len c then inl ENAMETOOLONG
          else namei fs (cur ++ [c]) rest
      end
  end.

Definition has_nul (s : pystr) : bool := existsb (N.eqb 0) s.

(** What Python does with a path before the system call: [os.fsencode],
    and then the check for a NUL. *)
Definition fs_check (s : pystr) : option exn :=
  match fsencode_error s with
  | Some msg => Some (UnicodeEncodeError msg)
  | None =>
      if has_nul s then Some (ValueError (lit "embedded null byte"))
      else None
  end.

(** The walk of a system call along the components [cs] of the path [s]:
    the empty path and a path of [PATH_MAX] bytes or more are refused
    before the walk, which starts at the root or at the current
    directory. *)
Definition lookup (fs : fsys) (s : pystr) (cs : list pystr)
  : result (list pystr) :=
  match fs_check s with
  | Some e => Raise e
  | None =>
      if is_nil s then Raise (OSError ENOENT s)
      else if PATH_MAX <=? fs_len s then Raise (OSError ENAMETOOLONG s)
      else
        match namei fs (if startswith_sep s then [] else cwd fs) cs with
        | inl e => Raise (OSError e s)
        | inr loc => Return loc
        end
  end.

(** The walk along every component: after a trailing slash the last
    component is empty, and what is before it has to be a directory. *)
Definition resolve (fs : fsys) (s : pystr) : result (list pystr) :=
  lookup fs s (split_sep s).

(** A component that can name a new entry. *)
Definition is_name (c : pystr) : bool :=
  negb (is_dot c) && negb (pystr_eqb c pardir).

(** Whether the last component of [s] can name a new entry. *)
Definition names_entry (s : pystr) : bool :=
  is_name (List.last (split_sep s) []).

(** The components without the empty ones that trailing slashes leave. *)
Fixpoint strip_empties (cs : list pystr) : list pystr :=
  match cs with
  | [] => []
  | c :: rest =>
      match strip_empties rest with
      | [] => if is_nil c then [] else [c]
      | rest' => c :: rest'
      end
  end.

(** [os.stat] *)
Definition os_stat (s : pystr) (fs : fsys) : result node :=
  match resolve fs s with
  | Raise e => Raise e
  | Return loc =>
      match node_at fs loc with
      | Some n => Return n
      | None => Raise (OSError ENOENT s)
      end
  end.

(** [os.path.exists] and [os.path.isdir]: a failing [stat] is [False]. *)
Definition path_exists (s : pystr) : M fsys bool :=
  gets (fun fs => match os_stat s fs with Return _ => true | Raise _ => false end).

Definition path_isdir (s : pystr) : M fsys bool :=
  gets (fun fs => match os_stat s fs with Return Dir => true | _ => false end).

(** [os.mkdir]: slashes after the last component do not count; the last
    component has to be a name that is not taken. *)
Definition os_mkdir (s : pystr) : M fsys unit :=
  fun fs =>
    let cs := strip_empties (split_sep s) in
    match lookup fs s cs with
    | Raise e => (fs, Raise e)
    | Return loc =>
        match node_at fs loc with
        | Some _ => (fs, Raise (OSError EEXIST s))
        | None =>
            if is_name (List.last cs []) then (set_node fs loc Dir, Return tt)
            else (fs, Raise (OSError ENOENT s))
        end
    end.

(** The tail of [os.makedirs]:
    [try: mkdir(name) except OSError: if not exist_ok or not isdir(name): raise]
    with [exist_ok=True]. *)
Definition mkdir_exist_ok (name : pystr) : M fsys unit :=
  try_except (os_mkdir name)
    (fun e =>
       match e with
       | OSError _ _ =>
           (d <- path_isdir name ;; if d : bool then ret tt else raise e)%py
       | _ => raise e
       end).

(** [os.makedirs(name, exist_ok=True)].  The recursion is on the head of
    [posixpath.split], which is shorter than [name]; [fuel] bounds it. *)
Fixpoint makedirs (fuel : nat) (name : pystr) : M fsys unit :=
  match fuel with
  | O => raise (Exception (lit "maximum recursion depth exceeded"))
  | S n =>
      let (head0, tail0) := posix_split name in
      let (head, tail) :=
        if is_nil tail0 then posix_split head0 else (head0, tail0) in
      (missing <- (if negb (is_nil head) && negb (is_nil tail)
                   then (b <- path_exists head ;; ret (negb b))
                   else ret false) ;;
       done <- (if missing : bool
                then (try_except (makedirs n head)
                        (fun e =>
                           match e with
                           | OSError EEXIST _ => ret tt
                           | _ => raise e
                           end) ;;;
                      ret (pystr_eqb tail curdir))
                else ret false) ;;
       if done : bool then ret tt else mkdir_exist_ok name)%py
  end.

(** The bound is never reached: the model has no recursion limit. *)
Definition os_makedirs (name : pystr) : M fsys unit :=
  makedirs (S (length name)) name.

(** [open(path, "wb")]: the file is created or truncated; the file object
    is modelled by the location it writes to.  With a slash after a last
    component that is a name, the call looks up the directory before that
    name and fails with EISDIR, whatever the name leads to. *)
Definition open_wb (s : pystr) : M fsys (list pystr) :=
  fun fs =>
    let cs := strip_empties (split_sep s) in
    if endswith_sep s && is_name (List.last cs [])
    then
      match lookup fs s (removelast cs ++ [[]]) with
      | Raise e => (fs, Raise e)
      | Return _ => (fs, Raise (OSError EISDIR s))
      end
    else
      match resolve fs s with
      | Raise e => (fs, Raise e)
      | Return loc =>
          match node_at fs loc with
          | Some Dir => (fs, Raise (OSError EISDIR s))
          | Some (File _) => (set_node fs loc (File []), Return loc)
          | None =>
              if names_entry s then (set_node fs loc (File []), Return loc)
              else (fs, Raise (OSError EISDIR s))
          end
      end.

(** [file.write(data)] on a file opened for writing: the bytes go after
    what was written since the file was opened. *)
Definition file_write (file : list pystr) (data : pybytes) : M fsys unit :=
  fun fs =>
    match node_at fs file with
    | Some (File old) => (set_node fs file (File (old ++ data)), Return tt)
    | _ => (fs, Raise (ValueError (lit "I/O operation on closed file")))
    end.

(** [open(path, "rb").read()] *)
Definition read_file (s : pystr) (fs : fsys) : result pybytes :=
  match resolve fs s with
  | Raise e => Raise e
  | Return loc =>
      match node_at fs loc with
      | Some (File d) => Return d
      | Some Dir => Raise (OSError EISDIR s)
      | None => Raise (OSError ENOENT s)
      end
  end.
(** ** The walk of a save *)

(** Every name among [cs] fits into [NAME_MAX] bytes. *)
Definition names_fit (cs : list pystr) : bool :=
  forallb (fun c => fs_len c <=? NAME_MAX) cs.

(** [fs] with a directory at [loc] when nothing is there; [None] when a
    regular file is. *)
Definition ensure_dir (fs : fsys) (loc : list pystr) : option fsys :=
  match node_at fs loc with
  | Some Dir => Some fs
  | Some (File _) => None
  | None => Some (set_node fs loc Dir)
  end.

(** The walk along [cs] that makes every directory it does not find:
    the tree it leaves and the location it ends at, or [None] when it
    comes upon a regular file. *)
Fixpoint mkwalk (fs : fsys) (cur : list pystr) (cs : list pystr)
  : option (fsys * list pystr) :=
  match ensure_dir fs cur with
  | None => None
  | Some fs1 =>
      match cs with
      | [] => Some (fs1, cur)
      | c :: rest =>
          if is_dot c then mkwalk fs1 cur rest
          else if pystr_eqb c pardir then mkwalk fs1 (removelast cur) rest
          else mkwalk fs1 (cur ++ [c]) rest
      end
  end.

(** A code point that [os.fsencode] takes and that is no NUL. *)
Definition fs_ok (c : N) : bool :=
  bool_decide (fs_char c <> None) && negb (c =? 0).

(** A path that the system call takes to the walk: [os.fsencode] and
    the check for a NUL pass, and the path is not empty and shorter than
    [PATH_MAX]. *)
Definition admits (s : pystr) : bool :=
  bool_decide (fs_check s = None) && negb (is_nil s)
  && (fs_len s <? PATH_MAX).

(** The tree after a file with [data] was saved under the absolute path
    [f]: the walk along the components before the last makes the
    directories, and the last component names the file.  [None] when the
    path is refused before the walk or for the length of a name, when
    the last component is not a name, when the walk comes upon a regular
    file, and when the target is a directory. *)
Definition save_walk (fs : fsys) (f : pystr) (data : pybytes)
  : option fsys :=
  let cs := removelast (split_sep f) in
  let name := List.last (split_sep f) [] in
  if admits f && names_fit (split_sep f) && is_name name
  then
    match mkwalk fs [] cs with
    | Some (fs1, loc) =>
        match node_at fs1 (loc ++ [name]) with
        | Some Dir => None
        | _ => Some (set_node fs1 (loc ++ [name]) (File data))
        end
    | None => None
    end
  else None.

(** The same after several files were saved, one after the other. *)
Fixpoint save_walks (fs : fsys) (l : list (pystr * pybytes))
  : option fsys :=
  match l with
  | [] => Some fs
  | (f, data) :: rest =>
      match save_walk fs f data with
      | Some fs1 => save_walks fs1 rest
      | None => None
      end
  end.

(** Directories are all that resolution looks at: a tree that keeps the
    directories of another resolves what the other resolves. *)
Definition keeps_dirs (fs fs' : fsys) : Prop :=
  cwd fs' = cwd fs /\
  forall l, node_at fs l = Some Dir -> node_at fs' l = Some Dir.

(** ** Confinement *)





(** [fs'] has the directories of [fs], and no regular file but those of
    [fs]. *)
Definition same_files (fs fs' : fsys) : Prop :=
  keeps_dirs fs fs' /\
  forall loc d, node_at fs' loc = Some (File d) -> node_at fs loc = Some (File d).


(** A computation that at most makes directories. *)
Definition makes_dirs_only {A} (m : M fsys A) : Prop :=
  forall fs fs' r, m fs = (fs', r) -> same_files fs fs'.

(** ** Artifacts *)

(** Modelled from the spec: the classes of [griptape.artifacts] are not
    among the sources.  An artifact is a tagged value of kind text, error,
    info or list, with its payload; a loaded file carries [bytes], for
    which there is [BlobArtifact].  Artifacts are compared by value. *)
#[warnings="-register-all"]
Inductive artifact :=
| TextArtifact (value : pystr)
| BlobArtifact (value : pybytes)
| ErrorArtifact (value : pystr)
| InfoArtifact (value : pystr)
| ListArtifact (value : list artifact).

(** Modelled from the spec: [TextArtifact.to_text], the text of a text
    artifact. *)
Definition to_text (value : pystr) : pystr := value.

(** What an artifact held by a memory has in [.value], as far as
    [_save_to_disk] tells apart: a [str]; [bytes]; another object with
    the buffer protocol ([bytearray], [memoryview]), which [file.write]
    takes for its bytes; or an object of some other type, of which the
    name of the type shows in the message of [file.write]. *)
Inductive pyvalue :=
| VStr (s : pystr)
| VBytes (b : pybytes)
| VBuffer (b : pybytes)
| VObject (type_name : pystr).

(** The attributes [name] and [value] of an artifact held by a memory. *)
Record MemoryArtifact := { a_name : pystr; a_value : pyvalue }.

(** Modelled from the spec: the memory stores are not among the sources.
    A memory hands over the artifacts of a namespace, or raises. *)
Record Memory := { load_artifacts : pystr -> result (list MemoryArtifact) }.

(** The bytes that [_save_to_disk] hands to [file.write]:
    [value.encode() if isinstance(value, str) else value]; [None] where
    the call raises. *)
Definition value_bytes (v : pyvalue) : option pybytes :=
  match v with
  | VStr s => utf8_encode s
  | VBytes b => Some b
  | VBuffer b => Some b
  | VObject _ => None
  end.

(** [s.encode()] *)
Definition str_encode (s : pystr) : result pybytes :=
  match encode_error s with
  | Some msg => Raise (UnicodeEncodeError msg)
  | None => Return (default [] (utf8_encode s))
  end.

(** ** griptape/tools/file_manager/tool.py *)

Module FileManager.

(** The values of the parameters, with the types the schema of each
    activity declares. *)
Record LoadParams := { paths : list pystr }.
Record SaveMemoryParams :=
  { dir_name : pystr; file_name : pystr;
    memory_name : pystr; artifact_namespace : pystr }.
Record SaveContentParams := { path : pystr; content : pystr }.

(** [params]: a [dict] whose entry ["values"] is the [dict] of the
    values.  Nothing in the sources makes sure that a key is there: the
    decorator [activity], which knows the schema, is not among them. *)
Definition params_of (V : Type) : Type := gmap pystr (gmap pystr V).

(** [params["values"][k]] *)
Definition values_item {V : Type} (params : params_of V) (k : pystr)
  : M fsys V :=
  (values <- dict_getitem params (lit "values") ;;
   dict_getitem values k)%py.

(** The value that [params] holds under [k], if it holds one. *)
Definition values_get {V : Type} (params : params_of V) (k : pystr)
  : option V :=
  match params !! lit "values" with
  | Some values => values !! k
  | None => None
  end.

(** The [params] that hold exactly the values of a record. *)
Definition load_params (p : LoadParams) : params_of (list pystr) :=
  {[ lit "values" := {[ lit "paths" := paths p ]} ]}.

Definition save_memory_params (p : SaveMemoryParams) : params_of pystr :=
  {[ lit "values" :=
       <[lit "dir_name" := dir_name p]>
         (<[lit "file_name" := file_name p]>
            (<[lit "memory_name" := memory_name p]>
               {[ lit "artifact_namespace" := artifact_namespace p ]})) ]}.

Definition save_content_params (p : SaveContentParams) : params_of pystr :=
  {[ lit "values" :=
       <[lit "path" := path p]> {[ lit "content" := content p ]} ]}.

(** The attributes the methods read: [workdir] and, from [BaseTool]
    (not among the sources), the lookup of an input memory by name, which
    answers [None] for a name it does not know. *)
Record t := mk
  { workdir : pystr;
    find_input_memory : pystr -> option Memory }.



(** The loader the tool delegates to, [FileLoader(workdir=w).load(p)]. *)
Class FileLoader := { load : pystr -> PurePath -> fsys -> result artifact }.

(** The two [except] clauses of [load_files_from_disk]. *)
Definition load_error (path : pystr) (e : exn) : artifact :=
  match e with
  | OSError ENOENT _ =>
      ErrorArtifact (lit "file in path `" ++ path ++ lit "` not found")
  | _ => ErrorArtifact (lit "error loading file: " ++ exn_str e)
  end.

Section Load.
Context `{FileLoader}.

(** The body of the [for] loop of [load_files_from_disk]: [inl] carries
    on with the list, [inr] is the [return] out of the loop. *)
Definition load_one (self : t) (list_artifact : list artifact) (path : pystr)
  : M fsys (list artifact + artifact) :=
  try_except
    (a <- lift (load (workdir self) (Path path)) ;;
     ret (inl (list_artifact ++ [a])))%py
    (fun e => ret (inr (load_error path e))).

Fixpoint load_loop (self : t) (list_artifact : list artifact)
  (paths : list pystr) : M fsys artifact :=
  match paths with
  | [] => ret (ListArtifact list_artifact)
  | path :: rest =>
      (r <- load_one self list_artifact path ;;
       match r with
       | inl l => load_loop self l rest
       | inr err => ret err
       end)%py
  end.

Definition load_files_from_disk (self : t) (params : params_of (list pystr))
  : M fsys artifact :=
  (paths <- values_item params (lit "paths") ;;
   load_loop self [] paths)%py.
End Load.

(** The argument of [file.write]:
    [value.encode() if isinstance(value, str) else value], which the
    write refuses when it has no buffer. *)
Definition write_arg (value : pyvalue) : M fsys pybytes :=
  match value with
  | VStr s => lift (fun _ => str_encode s)
  | VBytes b => ret b
  | VBuffer b => ret b
  | VObject type_name =>
      raise (TypeError (lit "a bytes-like object is required, not '"
                        ++ type_name ++ lit "'"))
  end.

(** [_save_to_disk] *)
Definition _save_to_disk (path : pystr) (value : pyvalue) : M fsys unit :=
  (os_makedirs (dirname path) ;;;
   file <- open_wb path ;;
   data <- write_arg value ;;
   file_write file data)%py.

Definition write_error (e : exn) : artifact :=
  ErrorArtifact (lit "error writing file to disk: " ++ exn_str e).

(** The [for a in artifacts] loop of the last branch. *)
Fixpoint save_each (self : t) (dir_name file_name : pystr)
  (artifacts : list MemoryArtifact) : M fsys unit :=
  match artifacts with
  | [] => ret tt
  | a :: rest =>
      (_save_to_disk
         (os_path_join (workdir self)
            [dir_name; a_name a ++ lit "-" ++ file_name])
         (a_value a) ;;;
       save_each self dir_name file_name rest)%py
  end.

Definition save_memory_artifacts_to_disk (self : t)
  (params : params_of pystr) : M fsys artifact :=
  (memory_name <- values_item params (lit "memory_name") ;;
   let memory := find_input_memory self memory_name in
   artifact_namespace <- values_item params (lit "artifact_namespace") ;;
   dir_name <- values_item params (lit "dir_name") ;;
   file_name <- values_item params (lit "file_name") ;;
   match memory with
   | Some memory =>
       (artifacts <- lift (fun _ => load_artifacts memory artifact_namespace) ;;
        match artifacts with
        | [] => ret (ErrorArtifact (lit "no artifacts found"))
        | [a] =>
            try_except
              (_save_to_disk
                 (os_path_join (workdir self) [dir_name; file_name])
                 (a_value a) ;;;
               ret (InfoArtifact (lit "saved successfully")))
              (fun e => ret (write_error e))
        | _ =>
            try_except
              (save_each self dir_name file_name artifacts ;;;
               ret (InfoArtifact (lit "saved successfully")))
              (fun e => ret (write_error e))
        end)
   | None => ret (ErrorArtifact (lit "memory not found"))
   end)%py.

Definition save_content_to_file (self : t) (params : params_of pystr)
  : M fsys artifact :=
  (content <- values_item params (lit "content") ;;
   new_path <- values_item params (lit "path") ;;
   let full_path := os_path_join (workdir self) [new_path] in
   try_except
     (_save_to_disk full_path (VStr content) ;;;
      ret (InfoArtifact (lit "saved successfully")))
     (fun e => ret (write_error e)))%py.

(** Modelled from the spec: [FileLoader.load], of [griptape.loaders], is
    not among the sources.  The spec has loading read the file found by
    resolving the path against the work directory, hand back its bytes
    unchanged, and fail on a path that names no file; so the loader opens
    [os.path.join(workdir, path)] for reading and returns the bytes in an
    artifact, and the error of [open] is raised to the caller. *)
Definition posix_load (workdir : pystr) (p : PurePath) (fs : fsys)
  : result artifact :=
  match read_file (os_path_join workdir [fspath p]) fs with
  | Return b => Return (BlobArtifact b)
  | Raise e => Raise e
  end.

#[export] Instance posix_loader : FileLoader := {| load := posix_load |}.

End FileManager.
(** ** griptape/ramps/text_manager_ramp.py *)

(** Modelled from the spec: [BaseTextStorageDriver], of
    [griptape.drivers], is not among the sources.  A driver saves a text
    and answers with its key, queries a record and summarises a record;
    each call may change the driver's own store [S], and may raise. *)
Module BaseTextStorageDriver.
Record t (S : Type) := mk
  { save : pystr -> M S pystr;
    query_record : pystr -> pystr -> M S artifact;
    summarize_record : pystr -> M S artifact }.
Arguments mk {S} _ _ _.
Arguments save {S} _ _.
Arguments query_record {S} _ _ _.
Arguments summarize_record {S} _ _.
End BaseTextStorageDriver.

Module TextManagerRamp.

(** The bound method handed to [process_output]: [__self__.name] and
    [config["name"]]. *)
Record Activity := { tool_name : pystr; activity_name : pystr }.

Section Ramp.
Context {S : Type}.

(** [J2("ramps/storage.j2").render(storage_name, tool_name,
    activity_name, key)]: the template is not among the sources. *)
Variable render : pystr -> pystr -> pystr -> pystr -> pystr.

Record t := mk { name : pystr; driver : BaseTextStorageDriver.t S }.

Definition process_output (self : t) (tool_activity : Activity)
  (value : artifact) : M S artifact :=
  match value with
  | TextArtifact text =>
      (key <- BaseTextStorageDriver.save (driver self) (to_text text) ;;
       let output :=
         render (name self) (tool_name tool_activity)
           (activity_name tool_activity) key in
       ret (TextArtifact output))%py
  | _ => ret value
  end.

(** [value[k]] on a [dict] *)
Definition getitem (value : gmap pystr pystr) (k : pystr) : M S pystr :=
  match value !! k with
  | Some v => ret v
  | None => raise (KeyError k)
  end.

Definition search_record (self : t) (value : gmap pystr pystr)
  : M S artifact :=
  (id <- getitem value (lit "id") ;;
   query <- getitem value (lit "query") ;;
   BaseTextStorageDriver.query_record (driver self) id query)%py.

Definition summarize_record (self : t) (value : pystr) : M S artifact :=
  BaseTextStorageDriver.summarize_record (driver self) value.
End Ramp.

Arguments t S : clear implicits.

End TextManagerRamp.

(** ** Notions the claims use *)

(** [p], taken from the work directory [w], names a regular file. *)
Definition names_file (fs : fsys) (w p : pystr) : Prop :=
  exists loc d,
    resolve fs (os_path_join w [fspath (Path p)]) = Return loc /\
    node_at fs loc = Some (File d).

(** A computation that returns from every store. *)
Definition never_raises {S A} (m : M S A) : Prop :=
  forall s, exists a, snd (m s) = Return a.

(** Each artifact in turn is written to
    [workdir/dir_name/{a.name}-{file_name}], and every write returns. *)
Inductive written_in_turn (self : FileManager.t) (dir_name file_name : pystr)
  : list MemoryArtifact -> fsys -> fsys -> Prop :=
| written_nil fs : written_in_turn self dir_name file_name [] fs fs
| written_cons a arts fs fs1 fs2 :
    FileManager._save_to_disk
      (os_path_join (FileManager.workdir self)
         [dir_name; a_name a ++ lit "-" ++ file_name])
      (a_value a) fs = (fs1, Return tt) ->
    written_in_turn self dir_name file_name arts fs1 fs2 ->
    written_in_turn self dir_name file_name (a :: arts) fs fs2.

(** ** What a computation leaves alone *)

(** Every node of [fs] is in [fs'], as it was. *)
Definition keeps_nodes (fs fs' : fsys) : Prop :=
  cwd fs' = cwd fs /\
  forall l n, node_at fs l = Some n -> node_at fs' l = Some n.

(** A computation that takes every store to a related one. *)
Definition preserves {A} (R : fsys -> fsys -> Prop) (m : M fsys A) : Prop :=
  forall fs fs' r, m fs = (fs', r) -> R fs fs'.

(** Nothing is removed from [fs] to [fs']: a directory stays a directory,
    and a regular file stays a regular file. *)
Definition never_removes (fs fs' : fsys) : Prop :=
  (forall l, node_at fs l = Some Dir -> node_at fs' l = Some Dir) /\
  (forall l d, node_at fs l = Some (File d) ->
               exists d', node_at fs' l = Some (File d')).

(** The tree [fs], seen from a process whose current directory is [c]. *)
Definition with_cwd (fs : fsys) (c : list pystr) : fsys :=
  {| cwd := c; tree := tree fs |}.

(** A computation whose outcome does not depend on the current
    directory. *)
Definition cwd_free {A} (m : M fsys A) : Prop :=
  forall fs c, m (with_cwd fs c) = (with_cwd (fst (m fs)) c, snd (m fs)).


(** [params] holds the values of a record, and maybe more. *)
Definition holds_paths (params : FileManager.params_of (list pystr))
  (r : FileManager.LoadParams) : Prop :=
  FileManager.values_get params (lit "paths") = Some (FileManager.paths r).

Definition holds_content (params : FileManager.params_of pystr)
  (r : FileManager.SaveContentParams) : Prop :=
  FileManager.values_get params (lit "path") = Some (FileManager.path r) /\
  FileManager.values_get params (lit "content")
    = Some (FileManager.content r).

Definition holds_memory (params : FileManager.params_of pystr)
  (r : FileManager.SaveMemoryParams) : Prop :=
  FileManager.values_get params (lit "memory_name")
    = Some (FileManager.memory_name r) /\
  FileManager.values_get params (lit "artifact_namespace")
    = Some (FileManager.artifact_namespace r) /\
  FileManager.values_get params (lit "dir_name")
    = Some (FileManager.dir_name r) /\
  FileManager.values_get params (lit "file_name")
    = Some (FileManager.file_name r).




(** ** Sample data *)

(** A tree with the directory [/work] and nothing else. *)
Definition fs_work : fsys :=
  {| cwd := []; tree := {[ [lit "work"] := Dir ]} |}.

(** The same with a regular file [/work/notes]. *)
Definition fs_blocked : fsys :=
  set_node fs_work [lit "work"; lit "notes"] (File []).

(** The same with a file [/work/a.txt] that holds ["hi"]. *)
Definition fs_file : fsys :=
  set_node fs_work [lit "work"; lit "a.txt"] (File (List.map octet [104; 105])).

(** The text ["hé€"]: an ASCII letter, a two-byte and a three-byte
    code point. *)
Definition sample_text : pystr := [104; 233; 8364].

Definition no_memory : pystr -> option Memory := fun _ => None.

Definition fm_work : FileManager.t := FileManager.mk (lit "/work") no_memory.

(** A driver whose storage is out of reach: every call raises. *)
Definition failing_driver : BaseTextStorageDriver.t unit :=
  BaseTextStorageDriver.mk
    (fun _ => raise (Exception (lit "storage unavailable")))
    (fun _ _ => raise (Exception (lit "storage unavailable")))
    (fun _ => raise (Exception (lit "storage unavailable"))).

(** A driver that keeps the saved texts in a list; the key of a text is
    its position, written as that many ["k"]. *)
Definition list_driver : BaseTextStorageDriver.t (list pystr) :=
  BaseTextStorageDriver.mk
    (fun text store => (store ++ [text], Return (repeat 107 (length store))))
    (fun id _ store =>
       (store,
        Return (match store !! length id with
                | Some text => TextArtifact text
                | None => ErrorArtifact (lit "record not found")
                end)))
    (fun id store =>
       (store,
        Return (match store !! length id with
                | Some text => TextArtifact (take 10 text)
                | None => ErrorArtifact (lit "record not found")
                end))).

(** [{"id": "k", "query": "what"}] *)
Definition sample_query : gmap pystr pystr :=
  <[lit "id" := lit "k"]> {[ lit "query" := lit "what" ]}.

Definition sample_render (storage_name tool_name activity_name key : pystr)
  : pystr :=
  lit "Output of " ++ tool_name ++ lit "." ++ activity_name
  ++ lit " was stored in " ++ storage_name ++ lit " with key " ++ key.

(** A memory with one namespace of two artifacts. *)
Definition sample_memory : Memory :=
  {| load_artifacts := fun ns =>
       if pystr_eqb ns (lit "one")
       then Return [ {| a_name := lit "x"; a_value := VStr (lit "hi") |} ]
       else if pystr_eqb ns (lit "two")
       then Return [ {| a_name := lit "x"; a_value := VStr (lit "hi") |};
                     {| a_name := lit "y"; a_value := VBytes [] |} ]
       else Return [] |}.

Definition fm_memory : FileManager.t :=
  FileManager.mk (lit "/work")
    (fun n => if pystr_eqb n (lit "mem") then Some sample_memory else None).

Example makedirs_ex :
  let fs := fst (os_makedirs (lit "/work/a/b") fs_work) in
  (node_at fs [lit "work"; lit "a"], node_at fs [lit "work"; lit "a"; lit "b"],
   snd (os_makedirs (lit "/work/a/b") fs_work))
  = (Some Dir, Some Dir, Return tt).
Proof. vm_compute. reflexivity. Qed.

(** A memory whose namespace holds three artifacts; the value of the
    second is an [int], which has no buffer. *)
Definition mixed_memory : Memory :=
  {| load_artifacts := fun _ =>
       Return [ {| a_name := lit "x"; a_value := VStr (lit "hi") |};
                {| a_name := lit "y"; a_value := VObject (lit "int") |};
                {| a_name := lit "z"; a_value := VBytes [] |} ] |}.

Definition fm_mixed : FileManager.t :=
  FileManager.mk (lit "/work") (fun _ => Some mixed_memory).

(** A lone surrogate, which UTF-8 does not encode. *)
Definition lone_surrogate : pystr := [0xD800].

(** A memory that is out of reach: loading its artifacts raises. *)
Definition failing_memory : Memory :=
  {| load_artifacts := fun _ => Raise (Exception (lit "memory unavailable")) |}.

Definition fm_failing : FileManager.t :=
  FileManager.mk (lit "/work") (fun _ => Some failing_memory).


(** * Properties *)

(** ** The monad *)

Section MonadFacts.
Context {S A B : Type}.

Lemma bind_return (m : M S A) (k : A -> M S B) s s' a :
  m s = (s', Return a) -> bind m k s = k a s'.
Proof. intros E. unfold bind. now rewrite E. Qed.

Lemma bind_raise (m : M S A) (k : A -> M S B) s s' e :
  m s = (s', Raise e) -> bind m k s = (s', Raise e).
Proof. intros E. unfold bind. now rewrite E. Qed.

(** A [bind] that returns went through a return of its first part. *)
Lemma bind_inv (m : M S A) (k : A -> M S B) s s2 b :
  bind m k s = (s2, Return b) ->
  exists s1 a, m s = (s1, Return a) /\ k a s1 = (s2, Return b).
Proof.
  unfold bind. destruct (m s) as [s1 [a|e]]; intros E.
  - now exists s1, a.
  - discriminate.
Qed.
End MonadFacts.

Lemma try_except_return_inv {S A} (m : M S A) (h : exn -> M S A) s s' a :
  try_except m h s = (s', Return a) ->
  m s = (s', Return a) \/ exists s1 e, m s = (s1, Raise e) /\ h e s1 = (s', Return a).
Proof.
  unfold try_except. destruct (m s) as [s1 [x|e]]; intros E.
  - left. congruence.
  - right. now exists s1, e.
Qed.

(** ** Strings and paths *)

Lemma is_sep_true c : is_sep c = true <-> c = sep.
Proof. unfold is_sep. apply N.eqb_eq. Qed.

Lemma forallb_rev {A} (f : A -> bool) l : forallb f (rev l) = forallb f l.
Proof.
  induction l as [|a l IH]; simpl; [done|].
  rewrite forallb_app, IH. simpl. rewrite andb_true_r. apply andb_comm.
Qed.

Lemma existsb_filter {A} (f g : A -> bool) l :
  existsb f l = false -> existsb f (List.filter g l) = false.
Proof.
  induction l as [|a l IH]; simpl; [done|].
  intros [Ha Hl]%orb_false_iff. destruct (g a); simpl; [|auto].
  now rewrite Ha, IH.
Qed.

Lemma take_drop_while f l : take_while f l ++ drop_while f l = l.
Proof.
  induction l as [|c l IH]; simpl; [done|]. destruct (f c); simpl; [|done].
  now rewrite IH.
Qed.

Lemma take_while_all f l : forallb f (take_while f l) = true.
Proof.
  induction l as [|c l IH]; simpl; [done|].
  destruct (f c) eqn:E; simpl; [|done]. now rewrite E.
Qed.

Lemma drop_while_head l :
  drop_while not_sep l = [] \/ exists r, drop_while not_sep l = sep :: r.
Proof.
  induction l as [|c l IH]; simpl; [now left|].
  unfold not_sep at 1 3. destruct (c =? sep) eqn:E; simpl; [|exact IH].
  right. apply N.eqb_eq in E. subst c. now exists l.
Qed.

Lemma rev_repeat {A} (x : A) k : rev (repeat x k) = repeat x k.
Proof.
  induction k as [|k IH]; simpl; [done|]. rewrite IH.
  change [x] with (repeat x 1). rewrite <- repeat_app.
  now rewrite Nat.add_comm.
Qed.

Lemma drop_while_is_sep l :
  exists k, l = repeat sep k ++ drop_while is_sep l /\
            match drop_while is_sep l with
            | c :: _ => is_sep c = false
            | [] => True
            end.
Proof.
  induction l as [|c l IH]; simpl.
  - now exists 0%nat.
  - destruct (is_sep c) eqn:E.
    + destruct IH as (k & Hk & Hd). exists (S k). split; [|done].
      apply is_sep_true in E. subst c. simpl. now rewrite <- Hk.
    + exists 0%nat. simpl. now rewrite E.
Qed.

(** A string is its [rstrip] and the slashes at its end. *)
Lemma rstrip_sep_spec s :
  exists k, s = rstrip_sep s ++ repeat sep k /\
            endswith_sep (rstrip_sep s) = false.
Proof.
  unfold rstrip_sep, endswith_sep. rewrite rev_involutive.
  destruct (drop_while_is_sep (rev s)) as (k & Hk & Hd).
  exists k. split.
  - rewrite <- (rev_involutive s) at 1. rewrite Hk at 1.
    now rewrite rev_app_distr, rev_repeat.
  - now destruct (drop_while is_sep (rev s)).
Qed.

Lemma forallb_is_sep_repeat s :
  forallb is_sep s = true -> s = repeat sep (length s).
Proof.
  induction s as [|c s IH]; simpl; [done|].
  intros [Hc Hs]%andb_true_iff. apply is_sep_true in Hc. subst c.
  now rewrite <- IH.
Qed.

Lemma split_sep_nonempty s : split_sep s <> [].
Proof.
  destruct s as [|c r]; simpl; [done|].
  destruct (is_sep c); [done|]. now destruct (split_sep r).
Qed.

Lemma split_sep_app a b : split_sep (a ++ sep :: b) = split_sep a ++ split_sep b.
Proof.
  induction a as [|c a IH]; simpl.
  - reflexivity.
  - destruct (is_sep c); [now rewrite IH|].
    rewrite IH. destruct (split_sep a) eqn:E; [|done].
    now destruct (split_sep_nonempty a).
Qed.

Lemma split_sep_plain a : forallb not_sep a = true -> split_sep a = [a].
Proof.
  induction a as [|c a IH]; simpl; [done|].
  intros [Hc Ha]%andb_true_iff. unfold not_sep in Hc. unfold is_sep.
  apply negb_true_iff in Hc. rewrite Hc. now rewrite IH.
Qed.

Lemma split_sep_parts s : Forall (fun c => forallb not_sep c = true) (split_sep s).
Proof.
  induction s as [|c r IH]; simpl.
  - now constructor.
  - destruct (is_sep c) eqn:Ec; [now constructor|].
    destruct (split_sep r) as [|w ws] eqn:E; [now destruct (split_sep_nonempty r)|].
    inversion IH; subst. constructor; [|done].
    simpl. unfold not_sep. unfold is_sep in Ec. now rewrite Ec.
Qed.

Lemma split_sep_join ps :
  ps <> [] -> Forall (fun c => forallb not_sep c = true) ps ->
  split_sep (sep_join ps) = ps.
Proof.
  induction ps as [|a ps IH]; [done|]. intros _ Hall.
  inversion Hall as [|? ? Ha Hps]; subst.
  destruct ps as [|b ps].
  - simpl. now apply split_sep_plain.
  - change (sep_join (a :: b :: ps)) with (a ++ sep :: sep_join (b :: ps)).
    rewrite split_sep_app, IH by done. now rewrite split_sep_plain.
Qed.

Lemma endswith_sep_app w : endswith_sep w = true -> exists w0, w = w0 ++ [sep].
Proof.
  unfold endswith_sep. destruct (rev w) as [|c r] eqn:E; [discriminate|].
  intros Hc%is_sep_true. subst c. exists (rev r).
  rewrite <- (rev_involutive w), E. reflexivity.
Qed.

(** The components of a joined path are those of the base, then those of
    the relative path. *)
Lemma join2_split w : exists A, forall x,
  startswith_sep x = false -> split_sep (join2 w x) = A ++ split_sep x.
Proof.
  destruct (is_nil w) eqn:En.
  - destruct w; [|discriminate].
    exists []. intros x Hx. unfold join2. rewrite Hx. reflexivity.
  - destruct (endswith_sep w) eqn:Ee.
    + destruct (endswith_sep_app _ Ee) as [w0 Hw0].
      exists (split_sep w0). intros x Hx. unfold join2. rewrite Hx, Ee.
      rewrite orb_true_r, Hw0, <- app_assoc. simpl. apply split_sep_app.
    + exists (split_sep w). intros x Hx. unfold join2. rewrite Hx, Ee, En.
      simpl. apply split_sep_app.
Qed.


Lemma join2_starts w x :
  startswith_sep x = false ->
  startswith_sep (join2 w x) = if is_nil w then false else startswith_sep w.
Proof.
  intros Hx. unfold join2. rewrite Hx.
  destruct w as [|c w]; simpl; [done|].
  now destruct (endswith_sep (c :: w)).
Qed.

Lemma join2_nil w x : startswith_sep x = false -> join2 w x = [] -> x = [].
Proof.
  intros Hx. unfold join2. rewrite Hx.
  destruct (is_nil w || endswith_sep w); intros E.
  - now apply app_eq_nil in E.
  - now destruct w.
Qed.

Lemma has_nul_app a b : has_nul (a ++ b) = has_nul a || has_nul b.
Proof. unfold has_nul. apply existsb_app. Qed.

Lemma has_nul_join2 w x :
  startswith_sep x = false -> has_nul (join2 w x) = has_nul w || has_nul x.
Proof.
  intros Hx. unfold join2. rewrite Hx.
  destruct (is_nil w || endswith_sep w); rewrite has_nul_app; [done|].
  reflexivity.
Qed.

Lemma has_nul_split s : has_nul s = existsb has_nul (split_sep s).
Proof.
  unfold has_nul. induction s as [|c r IH]; [reflexivity|].
  simpl. destruct (is_sep c) eqn:Ec.
  - apply is_sep_true in Ec. subst c. simpl. now rewrite IH.
  - rewrite IH. destruct (split_sep r) as [|w ws]; simpl.
    + now rewrite !orb_false_r.
    + now rewrite orb_assoc.
Qed.

Lemma has_nul_sep_join ps : has_nul (sep_join ps) = existsb has_nul ps.
Proof.
  induction ps as [|a ps IH]; [reflexivity|].
  destruct ps as [|b ps].
  - simpl. now rewrite orb_false_r.
  - change (sep_join (a :: b :: ps)) with (a ++ sep :: sep_join (b :: ps)).
    rewrite has_nul_app. change (has_nul (sep :: ?l)) with (has_nul l).
    now rewrite IH.
Qed.

Lemma split_sep_seps k : split_sep (repeat sep k) = repeat [] (S k).
Proof. induction k as [|k IH]; simpl; [done|]. now rewrite IH. Qed.

Lemma split_sep_trailing y k :
  split_sep (y ++ repeat sep k) = split_sep y ++ repeat [] k.
Proof.
  destruct k as [|k]; simpl; [now rewrite !app_nil_r|].
  rewrite split_sep_app, split_sep_seps. reflexivity.
Qed.

Lemma split_sep_seps_tail k t :
  forallb not_sep t = true ->
  split_sep (repeat sep k ++ t) = repeat [] k ++ [t].
Proof.
  intros Ht. induction k as [|k IH]; simpl.
  - now apply split_sep_plain.
  - now rewrite IH.
Qed.

(** The cut of [posixpath.split] at the last slash: [p[:i]] and [p[i:]]. *)
Lemma rpartition_spec d :
  let pre := rev (drop_while not_sep (rev d)) in
  let tail := rev (take_while not_sep (rev d)) in
  d = pre ++ tail /\ forallb not_sep tail = true /\
  (pre = [] \/ exists x, pre = x ++ [sep]).
Proof.
  intros pre tail. split; [|split].
  - unfold pre, tail. rewrite <- rev_app_distr, take_drop_while.
    now rewrite rev_involutive.
  - unfold tail. rewrite forallb_rev. apply take_while_all.
  - unfold pre. destruct (drop_while_head (rev d)) as [->|[r ->]].
    + now left.
    + right. now exists (rev r).
Qed.

(** [posixpath.split] on an absolute path: the components of the path are
    those of the head (none when the head is all slashes), then empty
    ones, then the tail. *)
Lemma posix_split_spec d head tail :
  startswith_sep d = true ->
  posix_split d = (head, tail) ->
  exists j rest,
    split_sep d = (if forallb is_sep head then [] else split_sep head)
                  ++ repeat [] j ++ [tail] /\
    d = head ++ rest /\
    startswith_sep head = true /\
    (forallb is_sep head = true \/ endswith_sep head = false) /\
    forallb not_sep tail = true.
Proof.
  intros Hd. unfold posix_split.
  destruct (rpartition_spec d) as (Hdeq & Htail & Hpre).
  set (pre := rev (drop_while not_sep (rev d))) in *.
  set (tl := rev (take_while not_sep (rev d))) in *.
  intros [= <- <-].
  destruct Hpre as [Hnil|[x Hx]].
  { exfalso. rewrite Hnil in Hdeq. simpl in Hdeq. rewrite Hdeq in Hd.
    destruct tl as [|c t]; [discriminate|]. simpl in Hd, Htail.
    apply andb_true_iff in Htail as [Hc _]. unfold not_sep in Hc.
    unfold is_sep in Hd. now rewrite Hd in Hc. }
  assert (is_nil pre = false) as -> by (rewrite Hx; now destruct x).
  simpl negb. rewrite andb_true_l.
  assert (Hps : startswith_sep pre = true).
  { rewrite Hdeq, Hx in Hd. rewrite Hx. now destruct x. }
  destruct (forallb is_sep pre) eqn:Eall; simpl.
  - rewrite Eall. exists (length pre), tl.
    repeat split; try done; [|now left].
    rewrite Hdeq at 1. rewrite (forallb_is_sep_repeat _ Eall) at 1.
    now apply split_sep_seps_tail.
  - destruct (rstrip_sep_spec pre) as (k & Hk & He).
    remember (rstrip_sep pre) as h eqn:Eh.
    assert (Hhall : forallb is_sep h = false).
    { destruct (forallb is_sep h) eqn:E; [|done].
      rewrite Hk, forallb_app, E in Eall. simpl in Eall.
      assert (forallb is_sep (repeat sep k) = true) as Hr
        by (clear; induction k; simpl; [done|now rewrite IHk]).
      now rewrite Hr in Eall. }
    rewrite Hhall.
    destruct k as [|k].
    { exfalso. simpl in Hk. rewrite app_nil_r in Hk. rewrite <- Hk in He.
      rewrite Hx in He. unfold endswith_sep in He.
      rewrite rev_app_distr in He. simpl in He. discriminate. }
    exists k, (repeat sep (S k) ++ tl). repeat split; try done.
    + rewrite Hdeq at 1. rewrite Hk at 1.
      replace (repeat sep (S k)) with (repeat sep k ++ [sep])
        by (change [sep] with (repeat sep 1); rewrite <- repeat_app;
            f_equal; lia).
      rewrite <- !app_assoc. simpl.
      rewrite app_assoc, split_sep_app, split_sep_trailing.
      rewrite (split_sep_plain tl) by done. now rewrite <- app_assoc.
    + rewrite Hdeq at 1. rewrite Hk at 1. now rewrite <- app_assoc.
    + rewrite Hk in Hps. destruct h as [|c h']; [discriminate Hhall|]. exact Hps.
    + now right.
Qed.

Lemma posix_split_seps d :
  d <> [] -> forallb is_sep d = true -> posix_split d = (d, []).
Proof.
  intros Hne Hall. unfold posix_split.
  assert (Hr : forallb is_sep (rev d) = true) by now rewrite forallb_rev.
  assert (Htw : take_while not_sep (rev d) = [] /\
                drop_while not_sep (rev d) = rev d).
  { destruct (rev d) as [|c l]; [done|]. simpl in *.
    apply andb_true_iff in Hr as [Hc _]. unfold not_sep, is_sep in *.
    now rewrite Hc. }
  destruct Htw as [-> ->]. rewrite rev_involutive, Hall. simpl.
  now rewrite andb_false_r.
Qed.

Lemma posix_split_tail_nil d :
  snd (posix_split d) = [] -> d = [] \/ endswith_sep d = true.
Proof.
  unfold posix_split. simpl. intros Ht.
  destruct (rpartition_spec d) as (Hd & _ & Hpre). rewrite Ht in Hd.
  rewrite app_nil_r in Hd. destruct Hpre as [E|[x E]]; rewrite E in Hd.
  - now left.
  - right. rewrite Hd. unfold endswith_sep. rewrite rev_app_distr. reflexivity.
Qed.

(** What [str(Path(p))] splits into, for a relative [p]. *)
Lemma Path_relative_root p : startswith_sep p = false -> root (Path p) = [].
Proof.
  destruct p as [|c p]; [done|]. simpl. intros Hp.
  unfold is_sep in Hp. apply N.eqb_neq in Hp. unfold sep in Hp.
  destruct c as [|q]; [done|].
  do 6 (destruct q as [q|q|]; try done).
Qed.

Lemma is_absolute_Path w : is_absolute (Path w) = startswith_sep w.
Proof.
  destruct w as [|c w]; [done|]. unfold is_absolute, Path, root.
  destruct (is_sep c) eqn:Ec; simpl; rewrite Ec.
  - apply is_sep_true in Ec. subst c.
    destruct w as [|c1 w]; [done|]. destruct (N.eq_dec c1 47) as [->|H1].
    + destruct w as [|c2 w]; [done|]. now destruct (N.eq_dec c2 47) as [->|H2];
        [|destruct c2 as [|q]; [done|do 6 (destruct q as [q|q|]; try done)]].
    + destruct c1 as [|q]; [done|]. do 6 (destruct q as [q|q|]; try done).
  - unfold is_sep in Ec. apply N.eqb_neq in Ec. unfold sep in Ec.
    destruct c as [|q]; [done|]. do 6 (destruct q as [q|q|]; try done).
Qed.

Lemma fspath_relative p ps :
  startswith_sep p = false ->
  ps = List.filter (fun c => negb (is_dot c)) (split_sep p) ->
  startswith_sep (fspath (Path p)) = false /\
  (has_nul p = false -> has_nul (fspath (Path p)) = false) /\
  split_sep (fspath (Path p)) = if is_nil ps then [curdir] else ps.
Proof.
  intros Hp Hps.
  assert (Hfs : fspath (Path p) = if is_nil ps then curdir else sep_join ps).
  { unfold fspath. rewrite (Path_relative_root _ Hp). simpl.
    change (parts (Path p))
      with (List.filter (fun c => negb (is_dot c)) (split_sep p)).
    rewrite <- Hps. now destruct ps. }
  assert (Hparts : Forall (fun c => forallb not_sep c = true) ps).
  { rewrite Hps. apply List.Forall_forall. intros c [Hc _]%filter_In.
    revert c Hc. apply List.Forall_forall, split_sep_parts. }
  rewrite Hfs. destruct ps as [|a ps']; simpl is_nil; cbv iota.
  - done.
  - split; [|split].
    + assert (Hd : negb (is_dot a) = true).
      { assert (In a (a :: ps')) as Hin by now left.
        rewrite Hps in Hin. now apply filter_In in Hin. }
      inversion Hparts as [|? ? Hs _]; subst.
      destruct a as [|c a]; [done|].
      simpl in Hs. apply andb_true_iff in Hs as [Hc _].
      unfold not_sep in Hc. apply negb_true_iff in Hc.
      destruct ps'; simpl; exact Hc.
    + intros Hn. rewrite has_nul_sep_join, Hps.
      apply existsb_filter. now rewrite <- has_nul_split.
    + now apply split_sep_join.
Qed.

(** *** What the codecs and the limits let through *)

Lemma first_bad_none ok s : forall i,
  first_bad ok s i = None <-> forallb ok s = true.
Proof.
  induction s as [|c r IH]; intros i; simpl; [done|].
  destruct (ok c); simpl; [apply IH|]. split; intros H; discriminate H.
Qed.

Lemma fs_check_none s : fs_check s = None <-> forallb fs_ok s = true.
Proof.
  unfold fs_check, fsencode_error.
  destruct (first_bad _ s 0) as [[[a b] c]|] eqn:E.
  - split; [discriminate|]. intros H.
    assert (first_bad (fun c => bool_decide (fs_char c <> None)) s 0 = None)
      as E'; [|congruence].
    apply first_bad_none. clear E. induction s as [|x r IH]; [done|].
    simpl in *. apply andb_true_iff in H as [Hx Hr].
    apply andb_true_iff in Hx as [Hx _]. rewrite Hx. now apply IH.
  - apply first_bad_none in E. unfold has_nul.
    induction s as [|x r IH]; [done|]. simpl in E.
    apply andb_true_iff in E as [Ex Er]. cbn [existsb forallb].
    unfold fs_ok at 1. rewrite Ex. destruct x as [|q]; simpl.
    + split; intros H; discriminate H.
    + now apply IH.
Qed.

Lemma fs_len_app a b : fs_len (a ++ b) = fs_len a + fs_len b.
Proof.
  induction a as [|c a IH]; simpl; [done|]. rewrite IH.
  destruct (fs_char c); lia.
Qed.

Lemma admits_iff s :
  admits s = true <->
  forallb fs_ok s = true /\ s <> [] /\ fs_len s < PATH_MAX.
Proof.
  unfold admits. rewrite !andb_true_iff, bool_decide_eq_true, fs_check_none.
  rewrite negb_true_iff, N.ltb_lt. destruct s; simpl; intuition congruence.
Qed.

(** What is admitted, its beginnings are. *)
Lemma admits_prefix a b : admits (a ++ b) = true -> a <> [] -> admits a = true.
Proof.
  rewrite !admits_iff, forallb_app, fs_len_app, andb_true_iff.
  intros ((Ha & _) & _ & Hl) Hne. repeat split; [done|done|lia].
Qed.

Lemma strip_empties_app cs c :
  is_nil c = false -> strip_empties (cs ++ [c]) = cs ++ [c].
Proof.
  intros Hc. induction cs as [|x cs IH]; simpl.
  - now rewrite Hc.
  - rewrite IH. now destruct cs.
Qed.

Lemma strip_empties_snoc_nil cs :
  strip_empties (cs ++ [[]]) = strip_empties cs.
Proof.
  induction cs as [|x cs IH]; simpl; [done|]. now rewrite IH.
Qed.

Lemma strip_empties_empties k : strip_empties (repeat [] k) = [].
Proof. induction k as [|k IH]; simpl; [done|]. now rewrite IH. Qed.

Lemma strip_empties_app_empties cs k :
  strip_empties (cs ++ repeat [] k) = strip_empties cs.
Proof.
  induction cs as [|x cs IH]; simpl; [apply strip_empties_empties|].
  now rewrite IH.
Qed.

(** [s.encode()] returns the bytes of the UTF-8 encoder, or raises where
    the encoder has none. *)
Lemma str_encode_spec s :
  match utf8_encode s with
  | Some b => str_encode s = Return b
  | None => exists msg, str_encode s = Raise (UnicodeEncodeError msg)
  end.
Proof.
  unfold str_encode, encode_error.
  destruct (first_bad _ s 0) as [[[a b] c]|] eqn:E.
  - assert (utf8_encode s = None) as ->; [|eauto].
    destruct (utf8_encode s) as [bs|] eqn:Eu; [|done]. exfalso.
    assert (first_bad (fun c => bool_decide (utf8_char c <> None)) s 0 = None)
      as E'; [|congruence].
    apply first_bad_none. clear E. revert bs Eu.
    induction s as [|x r IH]; intros bs Eu; [done|]. simpl in *.
    destruct (utf8_char x) as [bx|]; [|discriminate].
    destruct (utf8_encode r) as [br|]; [|discriminate].
    simpl. now apply (IH br).
  - apply first_bad_none in E.
    assert (exists bs, utf8_encode s = Some bs) as [bs ->]; [|done].
    induction s as [|x r IH]; [now exists []|]. simpl in *.
    apply andb_true_iff in E as [Ex Er]. apply bool_decide_eq_true in Ex.
    destruct (IH Er) as [br ->].
    destruct (utf8_char x) as [bx|]; [|done]. eauto.
Qed.

(** The components are the stripped ones and then empty ones. *)
Lemma strip_empties_decompose cs :
  exists k, cs = strip_empties cs ++ repeat [] k.
Proof.
  induction cs as [|c cs [k IH]]; [now exists O|]. simpl.
  destruct (strip_empties cs) as [|x rest] eqn:E.
  - simpl in IH. destruct c as [|y c]; simpl.
    + exists (S k). simpl. now rewrite IH.
    + exists k. now rewrite IH.
  - exists k. simpl. now rewrite IH at 1.
Qed.

(** ** The file tree *)

Lemma node_at_set_eq fs loc n :
  loc <> [] -> node_at (set_node fs loc n) loc = Some n.
Proof.
  intros Hne. destruct loc as [|c l]; [done|].
  simpl. apply lookup_insert_eq.
Qed.

Lemma node_at_set_ne fs loc n l :
  l <> loc -> node_at (set_node fs loc n) l = node_at fs l.
Proof.
  intros Hne. destruct l as [|c l]; [done|].
  simpl. now apply lookup_insert_ne.
Qed.

Lemma set_node_twice fs loc a b :
  set_node (set_node fs loc a) loc b = set_node fs loc b.
Proof. unfold set_node. simpl. f_equal. apply insert_insert_eq. Qed.

Lemma keeps_dirs_refl fs : keeps_dirs fs fs.
Proof. now split. Qed.

Lemma keeps_dirs_trans a b c : keeps_dirs a b -> keeps_dirs b c -> keeps_dirs a c.
Proof.
  intros [E1 H1] [E2 H2]. split; [congruence|]. auto.
Qed.

Lemma keeps_dirs_set fs loc n :
  node_at fs loc <> Some Dir -> keeps_dirs fs (set_node fs loc n).
Proof.
  intros Hn. split; [done|]. intros l Hl.
  rewrite node_at_set_ne; [done|]. intros ->. contradiction.
Qed.

Lemma keeps_dirs_set_dir fs loc : keeps_dirs fs (set_node fs loc Dir).
Proof.
  split; [done|]. intros l Hl.
  destruct (decide (l = loc)) as [->|Hne].
  - destruct loc; [done|]. now apply node_at_set_eq.
  - now rewrite node_at_set_ne.
Qed.

Lemma namei_keeps fs fs' cs : forall cur loc,
  keeps_dirs fs fs' ->
  namei fs cur cs = inr loc -> namei fs' cur cs = inr loc.
Proof.
  induction cs as [|c rest IH]; intros cur loc K; simpl; [done|].
  destruct (node_at fs cur) as [[|d]|] eqn:E; try discriminate.
  rewrite (proj2 K _ E).
  destruct (is_dot c); [now apply IH|].
  destruct (pystr_eqb c pardir); [now apply IH|].
  destruct (NAME_MAX <? fs_len c); [done|now apply IH].
Qed.

(** The walk of a path that is admitted; a path that is not is refused
    whatever the tree. *)
Lemma lookup_eq fs s cs :
  admits s = true ->
  lookup fs s cs =
  match namei fs (if startswith_sep s then [] else cwd fs) cs with
  | inl e => Raise (OSError e s)
  | inr loc => Return loc
  end.
Proof.
  unfold admits, lookup. rewrite !andb_true_iff, bool_decide_eq_true.
  rewrite negb_true_iff, N.ltb_lt. intros [[-> ->] Hl].
  now apply N.leb_gt in Hl as ->.
Qed.

Lemma lookup_refused s :
  admits s = false -> exists e, forall fs cs, lookup fs s cs = Raise e.
Proof.
  unfold admits, lookup. intros H.
  destruct (fs_check s) as [e|]; [now exists e|].
  destruct (is_nil s); [now eexists|].
  simpl in H. apply N.ltb_ge in H. apply N.leb_le in H. rewrite H.
  now eexists.
Qed.

Lemma lookup_inv fs s cs loc :
  lookup fs s cs = Return loc ->
  admits s = true /\
  namei fs (if startswith_sep s then [] else cwd fs) cs = inr loc.
Proof.
  intros H. destruct (admits s) eqn:Ea.
  - split; [done|]. rewrite lookup_eq in H by done.
    now destruct (namei fs _ cs); [|injection H as ->].
  - destruct (lookup_refused s Ea) as [e He]. now rewrite He in H.
Qed.

Lemma lookup_keeps fs fs' s cs loc :
  keeps_dirs fs fs' ->
  lookup fs s cs = Return loc -> lookup fs' s cs = Return loc.
Proof.
  intros K [Ha Hn]%lookup_inv. rewrite lookup_eq by done.
  rewrite (proj1 K). now rewrite (namei_keeps _ _ _ _ _ K Hn).
Qed.

Lemma resolve_keeps fs fs' s loc :
  keeps_dirs fs fs' ->
  resolve fs s = Return loc -> resolve fs' s = Return loc.
Proof. apply lookup_keeps. Qed.

Lemma resolve_admits fs s loc : resolve fs s = Return loc -> admits s = true.
Proof. now intros [H _]%lookup_inv. Qed.

Lemma namei_app fs a : forall cur b,
  namei fs cur (a ++ b) =
  match namei fs cur a with
  | inl e => inl e
  | inr l => namei fs l b
  end.
Proof.
  induction a as [|c a IH]; intros cur b; simpl; [done|].
  destruct (node_at fs cur) as [[|d]|]; try done.
  destruct (is_dot c); [apply IH|].
  destruct (pystr_eqb c pardir); [apply IH|].
  destruct (NAME_MAX <? fs_len c); [done|apply IH].
Qed.

Lemma namei_first_dir fs cs cur loc :
  cs <> [] -> namei fs cur cs = inr loc -> node_at fs cur = Some Dir.
Proof.
  destruct cs as [|c cs]; [done|]. intros _. simpl.
  now destruct (node_at fs cur) as [[|d]|].
Qed.

Lemma namei_empties fs cur k :
  node_at fs cur = Some Dir -> namei fs cur (repeat [] k) = inr cur.
Proof.
  intros Hd. induction k as [|k IH]; simpl; [done|]. now rewrite Hd.
Qed.



(** A path that leads to a regular file leads there without its empty
    and ["."] components too. *)
Lemma namei_filter_file fs d cs : forall cur loc,
  cs <> [] ->
  namei fs cur cs = inr loc -> node_at fs loc = Some (File d) ->
  let cs' := List.filter (fun c => negb (is_dot c)) cs in
  is_nil cs' = false /\ namei fs cur cs' = inr loc.
Proof.
  induction cs as [|c rest IH]; intros cur loc Hne Hn Hf; [done|].
  simpl in Hn. destruct (node_at fs cur) as [[|d']|] eqn:Ecur; try discriminate.
  simpl. destruct (is_dot c) eqn:Ed; simpl.
  - destruct rest as [|c' rest'].
    + simpl in Hn. injection Hn as <-. congruence.
    + now apply IH.
  - split; [done|]. rewrite Ecur, Ed.
    destruct rest as [|c' rest'].
    + simpl in *. exact Hn.
    + destruct (pystr_eqb c pardir); [now apply IH|].
      destruct (NAME_MAX <? fs_len c); [done|now apply IH].
Qed.

(** *** Joined paths *)

Lemma join2_absolute w x :
  startswith_sep w = true -> startswith_sep (join2 w x) = true.
Proof.
  intros Hw. unfold join2. destruct (startswith_sep x) eqn:Ex; [done|].
  destruct w as [|c w]; [discriminate|].
  now destruct (is_nil (c :: w) || endswith_sep (c :: w)).
Qed.

Lemma os_path_join_absolute w ps :
  startswith_sep w = true -> startswith_sep (os_path_join w ps) = true.
Proof.
  unfold os_path_join. revert w.
  induction ps as [|x ps IH]; intros w Hw; simpl; [done|].
  apply IH. now apply join2_absolute.
Qed.







(** *** The normalised path *)

Lemma sep_join_split s : sep_join (split_sep s) = s.
Proof.
  induction s as [|c r IH]; [done|]. simpl.
  destruct (is_sep c) eqn:Ec.
  - apply is_sep_true in Ec. subst c.
    destruct (split_sep r) as [|w ws] eqn:E;
      [now destruct (split_sep_nonempty r)|].
    change (sep_join ([] :: w :: ws)) with (sep :: sep_join (w :: ws)).
    now rewrite IH.
  - destruct (split_sep r) as [|w ws] eqn:E;
      [now destruct (split_sep_nonempty r)|].
    rewrite <- IH. now destruct ws.
Qed.

Lemma forallb_split (P : N -> bool) s :
  forallb P s = true ->
  List.Forall (fun c => forallb P c = true) (split_sep s).
Proof.
  induction s as [|c r IH]; simpl; intros H; [now repeat constructor|].
  apply andb_true_iff in H as [Hc Hr]. specialize (IH Hr).
  destruct (is_sep c); [now constructor|].
  destruct (split_sep r) as [|w ws];
    [constructor; [simpl; now rewrite Hc|constructor]|].
  inversion IH; subst. constructor; [|done]. simpl. now rewrite Hc.
Qed.

Lemma forallb_sep_join (P : N -> bool) ps :
  P sep = true -> List.Forall (fun c => forallb P c = true) ps ->
  forallb P (sep_join ps) = true.
Proof.
  intros Hsep. induction 1 as [|a ps Ha _ IH]; [done|].
  destruct ps as [|b ps]; [exact Ha|].
  change (sep_join (a :: b :: ps)) with (a ++ sep :: sep_join (b :: ps)).
  rewrite forallb_app, Ha. cbn [forallb andb]. now rewrite Hsep, IH.
Qed.

Lemma fs_len_sep_join a rest :
  fs_len (sep_join (a :: rest))
  = fs_len a + (if is_nil rest then 0 else 1 + fs_len (sep_join rest)).
Proof.
  destruct rest as [|b rest]; simpl is_nil; cbv iota.
  - simpl. lia.
  - change (sep_join (a :: b :: rest)) with (a ++ sep :: sep_join (b :: rest)).
    now rewrite fs_len_app.
Qed.

(** Leaving components out does not make a path longer. *)
Lemma fs_len_filter (f : pystr -> bool) cs :
  fs_len (sep_join (List.filter f cs)) <= fs_len (sep_join cs).
Proof.
  induction cs as [|a rest IH]; [simpl; lia|].
  rewrite (fs_len_sep_join a rest). simpl List.filter.
  destruct (f a).
  - rewrite fs_len_sep_join.
    destruct (List.filter f rest) as [|b l] eqn:E; simpl is_nil; cbv iota.
    + destruct (is_nil rest); lia.
    + destruct rest as [|x rest']; [discriminate|]. simpl is_nil. cbv iota.
      lia.
  - destruct rest as [|x rest']; [simpl; lia|]. simpl is_nil. cbv iota. lia.
Qed.

Lemma join2_base w :
  exists W, forall x, startswith_sep x = false -> join2 w x = W ++ x.
Proof.
  destruct (is_nil w || endswith_sep w) eqn:E.
  - exists w. intros x Hx. unfold join2. now rewrite Hx, E.
  - exists (w ++ [sep]). intros x Hx. unfold join2. rewrite Hx, E.
    now rewrite <- app_assoc.
Qed.

(** Reading through the normalised path finds the file the raw path
    resolves to. *)
Lemma read_file_Path fs w p loc data :
  startswith_sep p = false ->
  resolve fs (os_path_join w [p]) = Return loc ->
  node_at fs loc = Some (File data) ->
  read_file (os_path_join w [fspath (Path p)]) fs = Return data.
Proof.
  intros Hp Hres Hnode. simpl in *.
  destruct (fspath_relative p _ Hp eq_refl) as (Hq & _ & Hsplit).
  set (q := fspath (Path p)) in *.
  set (ps := List.filter (fun c => negb (is_dot c)) (split_sep p)) in *.
  destruct (join2_split w) as [A HA].
  apply lookup_inv in Hres as [Hadm Hres].
  rewrite (HA _ Hp), join2_starts, namei_app in Hres by done.
  set (start := if (if is_nil w then false else startswith_sep w)
                then [] else cwd fs) in *.
  destruct (namei fs start A) as [e|l1] eqn:EA; [discriminate|].
  destruct (namei_filter_file fs data (split_sep p) l1 loc
              (split_sep_nonempty p) Hres Hnode) as [Hps Hn].
  fold ps in Hps, Hn. rewrite Hps in Hsplit.
  assert (Hqj : q = sep_join ps) by now rewrite <- Hsplit, sep_join_split.
  assert (Hadmq : admits (join2 w q) = true).
  { destruct (join2_base w) as [W HW].
    rewrite (HW _ Hp) in Hadm. rewrite (HW _ Hq).
    apply admits_iff in Hadm as (Hok & _ & Hlen). apply admits_iff.
    rewrite forallb_app in Hok. apply andb_true_iff in Hok as [HokW Hokp].
    rewrite fs_len_app in Hlen.
    assert (Hokq : forallb fs_ok q = true).
    { rewrite Hqj. apply forallb_sep_join; [reflexivity|].
      apply List.Forall_forall. intros c [Hc _]%filter_In. revert c Hc.
      apply List.Forall_forall. now apply forallb_split. }
    assert (Hlenq : fs_len q <= fs_len p).
    { rewrite Hqj. pose proof (fs_len_filter (fun c => negb (is_dot c))
                                 (split_sep p)) as H.
      now rewrite sep_join_split in H. }
    repeat split.
    - now rewrite forallb_app, HokW, Hokq.
    - intros [_ E]%app_eq_nil.
      assert (Hin : In [] ps) by (rewrite <- Hsplit, E; now left).
      apply filter_In in Hin as [_ Hin]. discriminate.
    - rewrite fs_len_app. lia. }
  unfold read_file, resolve. rewrite lookup_eq by done.
  rewrite (HA _ Hq), join2_starts, namei_app by done. fold start.
  now rewrite EA, Hsplit, Hn, Hnode.
Qed.

(** ** Making directories *)

Lemma makedirs_S n name :
  makedirs (S n) name =
  (let (head0, tail0) := posix_split name in
   let (head, tail) :=
     if is_nil tail0 then posix_split head0 else (head0, tail0) in
   (missing <- (if negb (is_nil head) && negb (is_nil tail)
                then (b <- path_exists head ;; ret (negb b))
                else ret false) ;;
    done <- (if missing : bool
             then (try_except (makedirs n head)
                     (fun e =>
                        match e with
                        | OSError EEXIST _ => ret tt
                        | _ => raise e
                        end) ;;;
                   ret (pystr_eqb tail curdir))
             else ret false) ;;
    if done : bool then ret tt else mkdir_exist_ok name)%py).
Proof. reflexivity. Qed.

Lemma length_drop_while f l : (length (drop_while f l) <= length l)%nat.
Proof.
  induction l as [|c l IH]; simpl; [lia|]. destruct (f c); simpl; lia.
Qed.

Lemma length_take_drop_while f l :
  (length (take_while f l) + length (drop_while f l) = length l)%nat.
Proof.
  induction l as [|c l IH]; simpl; [lia|]. destruct (f c); simpl; lia.
Qed.

(** The two parts of [posixpath.split] are no longer than the path. *)
Lemma posix_split_length p :
  (length (fst (posix_split p)) + length (snd (posix_split p)) <= length p)%nat.
Proof.
  unfold posix_split. simpl.
  pose proof (length_take_drop_while not_sep (rev p)) as H.
  rewrite length_rev in H. rewrite length_rev.
  destruct (negb (is_nil _) && negb (forallb is_sep _)).
  - unfold rstrip_sep. rewrite length_rev.
    pose proof (length_drop_while is_sep (rev (rev (drop_while not_sep (rev p))))).
    rewrite !length_rev in *. lia.
  - rewrite length_rev. lia.
Qed.

(** The recursion of [os.makedirs] ends before the bound on its depth:
    any bound above the length of the name gives the same outcome. *)
Lemma makedirs_fuel n : forall m name fs,
  (length name < n)%nat -> (length name < m)%nat ->
  makedirs n name fs = makedirs m name fs.
Proof.
  induction n as [|n IH]; intros m name fs Hn Hm; [lia|].
  destruct m as [|m]; [lia|]. rewrite !makedirs_S.
  pose proof (posix_split_length name) as Hlen.
  destruct (posix_split name) as [head0 tail0]. simpl in Hlen.
  assert (Hrec : forall head tail,
            (if is_nil tail0 then posix_split head0 else (head0, tail0))
              = (head, tail) ->
            is_nil tail = false -> (length head < length name)%nat).
  { intros head tail E Ht. destruct tail0 as [|c t0]; simpl in E.
    - pose proof (posix_split_length head0) as H0. rewrite E in H0.
      simpl in H0. destruct tail; [discriminate|]. simpl in *. lia.
    - injection E as <- <-. simpl in *. lia. }
  destruct (if is_nil tail0 then posix_split head0 else (head0, tail0))
    as [head tail].
  specialize (Hrec head tail eq_refl).
  destruct (is_nil tail) eqn:Et.
  - rewrite andb_false_r. reflexivity.
  - specialize (Hrec eq_refl). unfold bind, try_except.
    destruct (negb (is_nil head) && negb false); [|reflexivity].
    destruct (path_exists head fs) as [fs1 [b|e]] eqn:Ex; [|reflexivity].
    unfold path_exists, gets in Ex. injection Ex as <- _.
    unfold ret. destruct (negb b); [|reflexivity].
    now rewrite (IH m head fs) by lia.
Qed.

(** One level of [os.makedirs], when the path has a head and a tail. *)
Lemma makedirs_step fuel d head tail fs :
  posix_split d = (head, tail) -> is_nil tail = false -> is_nil head = false ->
  makedirs (S fuel) d fs =
  match os_stat head fs with
  | Return _ => mkdir_exist_ok d fs
  | Raise _ =>
      match makedirs fuel head fs with
      | (fs1, Raise (OSError EEXIST _))
      | (fs1, Return _) =>
          if pystr_eqb tail curdir then (fs1, Return tt)
          else mkdir_exist_ok d fs1
      | (fs1, Raise e) => (fs1, Raise e)
      end
  end.
Proof.
  intros Es Ht Hh. rewrite makedirs_S, Es, Ht. cbv iota beta zeta.
  rewrite Hh, Ht. simpl negb. simpl andb. cbv iota.
  unfold bind at 1 2. unfold path_exists, gets, ret.
  destruct (os_stat head fs) as [nd|e]; simpl; [reflexivity|].
  unfold bind, try_except.
  destruct (makedirs fuel head fs) as [fs1 [[]|e1]].
  - now destruct (pystr_eqb tail curdir).
  - destruct e1 as [[] f| | | | |]; try reflexivity.
    unfold ret. now destruct (pystr_eqb tail curdir).
Qed.

(** *** The walk that makes directories *)

Lemma ensure_dir_keeps fs loc fs1 :
  ensure_dir fs loc = Some fs1 ->
  keeps_dirs fs fs1 /\ node_at fs1 loc = Some Dir.
Proof.
  unfold ensure_dir. destruct (node_at fs loc) as [[|d]|] eqn:E; intros [= <-].
  - split; [apply keeps_dirs_refl|done].
  - split; [apply keeps_dirs_set_dir|]. apply node_at_set_eq.
    intros ->. discriminate.
Qed.

Lemma ensure_dir_dir fs loc :
  node_at fs loc = Some Dir -> ensure_dir fs loc = Some fs.
Proof. unfold ensure_dir. now intros ->. Qed.

Lemma mkwalk_unfold fs cur cs :
  mkwalk fs cur cs =
  match ensure_dir fs cur with
  | None => None
  | Some fs1 =>
      match cs with
      | [] => Some (fs1, cur)
      | c :: rest =>
          if is_dot c then mkwalk fs1 cur rest
          else if pystr_eqb c pardir then mkwalk fs1 (removelast cur) rest
          else mkwalk fs1 (cur ++ [c]) rest
      end
  end.
Proof. now destruct cs. Qed.

(** The walk begins by making sure of the directory it starts in. *)
Lemma mkwalk_ensure fs cur cs fs1 :
  ensure_dir fs cur = Some fs1 -> mkwalk fs1 cur cs = mkwalk fs cur cs.
Proof.
  intros E. rewrite (mkwalk_unfold fs), (mkwalk_unfold fs1), E.
  now rewrite (ensure_dir_dir fs1 cur) by apply (ensure_dir_keeps _ _ _ E).
Qed.

Lemma mkwalk_app fs a : forall cur b,
  mkwalk fs cur (a ++ b) =
  match mkwalk fs cur a with
  | Some (fs1, l) => mkwalk fs1 l b
  | None => None
  end.
Proof.
  revert fs. induction a as [|c a IH]; intros fs cur b.
  - simpl app. rewrite (mkwalk_unfold fs cur []).
    destruct (ensure_dir fs cur) as [fs1|] eqn:E.
    + now rewrite (mkwalk_ensure _ _ _ _ E).
    + rewrite mkwalk_unfold. now rewrite E.
  - simpl. destruct (ensure_dir fs cur) as [fs1|]; [|done].
    destruct (is_dot c); [apply IH|].
    destruct (pystr_eqb c pardir); apply IH.
Qed.

(** The walk keeps the directories there are, and ends in one. *)
Lemma mkwalk_keeps cs : forall fs cur fs' loc,
  mkwalk fs cur cs = Some (fs', loc) ->
  keeps_dirs fs fs' /\ node_at fs' loc = Some Dir.
Proof.
  induction cs as [|c cs IH]; intros fs cur fs' loc; simpl;
    destruct (ensure_dir fs cur) as [fs1|] eqn:E; try discriminate;
    destruct (ensure_dir_keeps _ _ _ E) as [K Hd].
  - now intros [= <- <-].
  - intros H.
    assert (Hrec : exists cur', mkwalk fs1 cur' cs = Some (fs', loc)).
    { destruct (is_dot c); [eauto|]. destruct (pystr_eqb c pardir); eauto. }
    destruct Hrec as [cur' Hrec]. apply IH in Hrec as [K' Hd'].
    split; [now apply keeps_dirs_trans with fs1|done].
Qed.

Lemma mkwalk_empties fs cur k :
  node_at fs cur = Some Dir -> mkwalk fs cur (repeat [] k) = Some (fs, cur).
Proof.
  intros Hd. induction k as [|k IH]; simpl;
    rewrite (ensure_dir_dir _ _ Hd); [done|exact IH].
Qed.

(** Every location the walk has come through holds a directory after
    it: the location it ends at has directories all the way up. *)
Lemma mkwalk_ancestors cs : forall fs cur fs' loc,
  (forall l k, cur = l ++ k -> k <> [] -> node_at fs l = Some Dir) ->
  mkwalk fs cur cs = Some (fs', loc) ->
  forall l k, loc = l ++ k -> node_at fs' l = Some Dir.
Proof.
  induction cs as [|c cs IH]; intros fs cur fs' loc Hup; simpl;
    destruct (ensure_dir fs cur) as [fs1|] eqn:E; try discriminate;
    destruct (ensure_dir_keeps _ _ _ E) as [K Hd].
  - intros [= <- <-] l k ->. destruct k as [|x k].
    + now rewrite app_nil_r in Hd.
    + apply (proj2 K). now apply (Hup l (x :: k)).
  - assert (Hall : forall l k, cur = l ++ k -> node_at fs1 l = Some Dir).
    { intros l k ->. destruct k as [|x k].
      - now rewrite app_nil_r in Hd.
      - apply (proj2 K). now apply (Hup l (x :: k)). }
    destruct (is_dot c).
    { apply IH. intros l k -> _. now apply (Hall l k). }
    destruct (pystr_eqb c pardir).
    + apply IH. intros l k E' Hk.
      destruct cur as [|x cur] using rev_ind; [now destruct l|].
      rewrite removelast_last in E'. subst cur.
      apply (Hall l (k ++ [x])). now rewrite app_assoc.
    + apply IH. intros l k E' Hk.
      destruct k as [|y k] using rev_ind; [done|].
      rewrite app_assoc in E'. apply app_inj_tail in E' as [-> _].
      now apply (Hall l k).
Qed.

(** After the walk, the path leads to where the walk ended. *)
Lemma mkwalk_namei cs : forall fs cur fs' loc,
  names_fit cs = true ->
  mkwalk fs cur cs = Some (fs', loc) -> namei fs' cur cs = inr loc.
Proof.
  induction cs as [|c cs IH]; intros fs cur fs' loc Hfit; simpl;
    destruct (ensure_dir fs cur) as [fs1|] eqn:E; try discriminate;
    destruct (ensure_dir_keeps _ _ _ E) as [K Hd].
  - now intros [= <- <-].
  - simpl in Hfit. apply andb_true_iff in Hfit as [Hc Hfit]. intros H.
    assert (Hcur : node_at fs' cur = Some Dir).
    { assert (Hrec : exists cur', mkwalk fs1 cur' cs = Some (fs', loc)).
      { destruct (is_dot c); [eauto|]. destruct (pystr_eqb c pardir); eauto. }
      destruct Hrec as [cur' Hrec]. apply mkwalk_keeps in Hrec as [K' _].
      now apply (proj2 K'). }
    rewrite Hcur. destruct (is_dot c); [now apply (IH fs1)|].
    destruct (pystr_eqb c pardir); [now apply (IH fs1)|].
    apply N.leb_le in Hc. apply N.ltb_ge in Hc. rewrite Hc.
    now apply (IH fs1).
Qed.

(** Where the path leads to a directory, the walk has nothing to make;
    where it leads to a regular file, the walk fails. *)
Lemma namei_mkwalk fs cs : forall cur loc,
  namei fs cur cs = inr loc ->
  match node_at fs loc with
  | Some Dir => mkwalk fs cur cs = Some (fs, loc)
  | Some (File _) => mkwalk fs cur cs = None
  | None => True
  end.
Proof.
  induction cs as [|c cs IH]; intros cur loc; simpl.
  - intros [= <-]. unfold ensure_dir.
    now destruct (node_at fs cur) as [[|d]|].
  - destruct (node_at fs cur) as [[|d]|] eqn:E; try discriminate.
    rewrite (ensure_dir_dir _ _ E).
    destruct (is_dot c); [apply IH|].
    destruct (pystr_eqb c pardir); [apply IH|].
    destruct (NAME_MAX <? fs_len c); [discriminate|apply IH].
Qed.

Lemma names_fit_empties k : names_fit (repeat [] k) = true.
Proof. induction k as [|k IH]; simpl; [done|exact IH]. Qed.

Lemma endswith_sep_last s :
  endswith_sep s = true -> List.last (split_sep s) [] = [].
Proof.
  intros [w0 ->]%endswith_sep_app. rewrite (split_sep_app w0 []).
  simpl. apply last_last.
Qed.

(** The last step of [os.makedirs]: from a tree where the components
    [X] lead to the directory [lh], [mkdir] of the path whose last
    component is [tail] does what the walk does with [tail]. *)
Lemma mkdir_exist_ok_walk fs1 d X j tail lh fs' loc :
  startswith_sep d = true -> admits d = true ->
  split_sep d = X ++ repeat [] j ++ [tail] -> is_nil tail = false ->
  fs_len tail <= NAME_MAX ->
  namei fs1 [] X = inr lh ->
  (forall l k, lh = l ++ k -> node_at fs1 l = Some Dir) ->
  mkwalk fs1 lh (repeat [] j ++ [tail]) = Some (fs', loc) ->
  mkdir_exist_ok d fs1 = (fs', Return tt).
Proof.
  intros Hs Hadm Hd Ht Hlen HX Hup Hw.
  assert (Hlh : node_at fs1 lh = Some Dir)
    by (apply (Hup lh []); now rewrite app_nil_r).
  rewrite mkwalk_app, (mkwalk_empties _ _ _ Hlh) in Hw.
  simpl in Hw. rewrite (ensure_dir_dir _ _ Hlh) in Hw.
  assert (Hstrip : strip_empties (split_sep d) = split_sep d).
  { rewrite Hd, !app_assoc. now apply strip_empties_app. }
  assert (Hlast : List.last (split_sep d) [] = tail)
    by (rewrite Hd, !app_assoc; apply last_last).
  assert (Hwalk : namei fs1 [] (split_sep d) = namei fs1 lh [tail]).
  { rewrite Hd, namei_app, HX, namei_app. now rewrite namei_empties. }
  assert (Hexists : forall l,
            namei fs1 lh [tail] = inr l -> node_at fs1 l = Some Dir ->
            mkdir_exist_ok d fs1 = (fs1, Return tt)).
  { intros l Hn Hdir. unfold mkdir_exist_ok, try_except, os_mkdir.
    rewrite Hstrip, lookup_eq, Hs, Hwalk, Hn, Hdir by done.
    unfold bind, path_isdir, gets, os_stat, resolve.
    now rewrite lookup_eq, Hs, Hwalk, Hn, Hdir by done. }
  simpl in Hexists. rewrite Hlh in Hexists.
  destruct (is_dot tail) eqn:Edot.
  { rewrite (ensure_dir_dir _ _ Hlh) in Hw. injection Hw as <- <-.
    now apply (Hexists lh). }
  destruct (pystr_eqb tail pardir) eqn:Epar.
  { assert (Hp : node_at fs1 (removelast lh) = Some Dir).
    { destruct lh as [|x lh] using rev_ind; [done|].
      rewrite removelast_last. now apply (Hup lh [x]). }
    rewrite (ensure_dir_dir _ _ Hp) in Hw. injection Hw as <- <-.
    now apply (Hexists (removelast lh)). }
  apply N.leb_le in Hlen. pose proof Hlen as Hlen'.
  apply N.leb_le, N.ltb_ge in Hlen'. rewrite Hlen' in Hexists.
  unfold ensure_dir in Hw.
  destruct (node_at fs1 (lh ++ [tail])) as [[|data]|] eqn:En;
    [|discriminate|]; injection Hw as <- <-.
  - now apply (Hexists (lh ++ [tail])).
  - unfold mkdir_exist_ok, try_except, os_mkdir.
    rewrite Hstrip, lookup_eq, Hs, Hwalk by done. simpl.
    rewrite Hlh, Edot, Epar, Hlen', En, Hlast.
    unfold is_name. now rewrite Edot, Epar.
Qed.

(** [os.makedirs] on an absolute path that is all slashes or does not
    end in one, as [os.path.dirname] gives it: where the walk along the
    path makes its directories, [os.makedirs] returns and leaves the tree
    of the walk. *)
Lemma makedirs_walk n : forall d fuel fs fs' loc,
  (length d < n)%nat -> (length d < fuel)%nat ->
  startswith_sep d = true -> admits d = true ->
  names_fit (split_sep d) = true ->
  (forallb is_sep d = true \/ endswith_sep d = false) ->
  mkwalk fs [] (split_sep d) = Some (fs', loc) ->
  makedirs fuel d fs = (fs', Return tt).
Proof.
  induction n as [|n IH]; intros d fuel fs fs' loc Hn Hfuel Hs Hadm Hfit
    Hnorm Hw; [lia|].
  destruct fuel as [|fuel]; [lia|].
  assert (Hne : d <> []) by (intros ->; discriminate).
  destruct (posix_split d) as [head tail] eqn:Es.
  destruct (is_nil tail) eqn:Et.
  - (* the path is all slashes: the root *)
    destruct tail; [|discriminate].
    assert (Hall : forallb is_sep d = true).
    { destruct Hnorm as [H|H]; [done|].
      destruct (posix_split_tail_nil d) as [E|E];
        [now rewrite Es|done|congruence]. }
    assert (Hsplit : split_sep d = repeat [] (S (length d)))
      by (rewrite (forallb_is_sep_repeat _ Hall) at 1; apply split_sep_seps).
    rewrite Hsplit, mkwalk_empties in Hw by done. injection Hw as <- <-.
    rewrite makedirs_S, (posix_split_seps d Hne Hall).
    cbn [is_nil]. cbv iota beta zeta.
    rewrite (posix_split_seps d Hne Hall). cbn [is_nil negb].
    rewrite andb_false_r.
    assert (Hst : os_stat d fs = Return Dir).
    { unfold os_stat, resolve.
      now rewrite lookup_eq, Hs, Hsplit, namei_empties by done. }
    assert (Hmk : os_mkdir d fs = (fs, Raise (OSError EEXIST d))).
    { unfold os_mkdir.
      now rewrite Hsplit, strip_empties_empties, lookup_eq, Hs by done. }
    unfold mkdir_exist_ok, try_except, bind, ret. cbv beta iota.
    rewrite Hmk. unfold path_isdir, gets. now rewrite Hst.
  - destruct (posix_split_spec d head tail Hs Es)
      as (j & rest & Hd & Hcat & Hhs & Hnh & Htl).
    set (X := if forallb is_sep head then [] else split_sep head) in *.
    pose proof (posix_split_length d) as Hlen. rewrite Es in Hlen.
    simpl in Hlen.
    assert (Hhl : (length head < length d)%nat)
      by (destruct tail; [discriminate|]; simpl in Hlen; lia).
    assert (Hhne : is_nil head = false) by (destruct head; [discriminate Hhs|done]).
    rewrite Hd, mkwalk_app in Hw.
    destruct (mkwalk fs [] X) as [[fs1 lh]|] eqn:EX; [|discriminate].
    unfold names_fit in Hfit. rewrite Hd, !forallb_app in Hfit.
    apply andb_true_iff in Hfit as [HfitX Hfit].
    apply andb_true_iff in Hfit as [_ Hfit]. simpl in Hfit.
    rewrite andb_true_r in Hfit. apply N.leb_le in Hfit.
    assert (H1 : mkwalk fs [] (split_sep head) = Some (fs1, lh) /\
                 names_fit (split_sep head) = true).
    { unfold X in EX, HfitX. destruct (forallb is_sep head) eqn:Eall; [|done].
      simpl in EX. injection EX as <- <-.
      rewrite (forallb_is_sep_repeat _ Eall), split_sep_seps.
      split; [now apply mkwalk_empties|apply names_fit_empties]. }
    destruct H1 as [H1 Hfith].
    assert (Hadmh : admits head = true).
    { rewrite Hcat in Hadm. apply admits_prefix in Hadm; [done|].
      now destruct head. }
    assert (Hlast : mkdir_exist_ok d fs1 = (fs', Return tt)).
    { apply (mkdir_exist_ok_walk fs1 d X j tail lh fs' loc); try done.
      - now apply (mkwalk_namei X fs).
      - apply (mkwalk_ancestors X fs [] fs1 lh); [|done].
        intros l k E Hk. symmetry in E. now apply app_eq_nil in E as [_ ->]. }
    rewrite (makedirs_step fuel d head tail fs Es Et Hhne).
    destruct (os_stat head fs) as [nd|e] eqn:Est.
    + unfold os_stat in Est.
      destruct (resolve fs head) as [l0|e] eqn:Er; [|discriminate].
      apply lookup_inv in Er as [_ Er]. rewrite Hhs in Er.
      pose proof (namei_mkwalk fs _ _ _ Er) as Hm.
      destruct (node_at fs l0) as [[|data]|]; [|congruence|discriminate].
      rewrite H1 in Hm. now injection Hm as -> _.
    + rewrite (IH head fuel fs fs1 lh) by (done || lia).
      destruct (pystr_eqb tail curdir) eqn:Ecur; [|done].
      apply bool_decide_eq_true in Ecur. subst tail.
      rewrite mkwalk_app in Hw.
      destruct (mkwalk_keeps _ _ _ _ _ EX) as [_ Hlh].
      rewrite (mkwalk_empties _ _ _ Hlh) in Hw. simpl in Hw.
      do 2 (rewrite (ensure_dir_dir _ _ Hlh) in Hw; cbv beta iota in Hw).
      now injection Hw as <- _.
Qed.

(** ** What [os.makedirs] leaves alone *)

Lemma same_files_refl fs : same_files fs fs.
Proof. split; [apply keeps_dirs_refl|done]. Qed.

Lemma same_files_trans a b c : same_files a b -> same_files b c -> same_files a c.
Proof.
  intros [K1 F1] [K2 F2]. split; [now apply keeps_dirs_trans with b|]. auto.
Qed.

Lemma same_files_set_dir fs loc :
  node_at fs loc = None -> same_files fs (set_node fs loc Dir).
Proof.
  intros Hn. split; [apply keeps_dirs_set_dir|].
  intros l d Hl. destruct (decide (l = loc)) as [->|Hne].
  - rewrite node_at_set_eq in Hl; [discriminate|]. intros ->. discriminate.
  - now rewrite node_at_set_ne in Hl.
Qed.

Section MakesDirsOnly.
Context {A B : Type}.

Lemma makes_dirs_ret (a : A) : makes_dirs_only (ret a).
Proof. intros fs fs' r [= <- _]. apply same_files_refl. Qed.

Lemma makes_dirs_raise e : makes_dirs_only (@raise fsys A e).
Proof. intros fs fs' r [= <- _]. apply same_files_refl. Qed.

Lemma makes_dirs_gets (f : fsys -> A) : makes_dirs_only (gets f).
Proof. intros fs fs' r [= <- _]. apply same_files_refl. Qed.

Lemma makes_dirs_bind (m : M fsys A) (k : A -> M fsys B) :
  makes_dirs_only m -> (forall a, makes_dirs_only (k a)) ->
  makes_dirs_only (bind m k).
Proof.
  intros Hm Hk fs fs' r. unfold bind.
  destruct (m fs) as [fs1 [a|e]] eqn:E; intros H.
  - apply same_files_trans with fs1; [now apply (Hm _ _ _ E)|].
    now apply (Hk a _ _ _ H).
  - injection H as <- _. now apply (Hm _ _ _ E).
Qed.

Lemma makes_dirs_try (m : M fsys A) (h : exn -> M fsys A) :
  makes_dirs_only m -> (forall e, makes_dirs_only (h e)) ->
  makes_dirs_only (try_except m h).
Proof.
  intros Hm Hh fs fs' r. unfold try_except.
  destruct (m fs) as [fs1 [a|e]] eqn:E; intros H.
  - injection H as <- _. now apply (Hm _ _ _ E).
  - apply same_files_trans with fs1; [now apply (Hm _ _ _ E)|].
    now apply (Hh e _ _ _ H).
Qed.
End MakesDirsOnly.

Lemma makes_dirs_mkdir s : makes_dirs_only (os_mkdir s).
Proof.
  intros fs fs' r. unfold os_mkdir.
  destruct (lookup fs s _) as [loc|e]; [|intros [= <- _]; apply same_files_refl].
  destruct (node_at fs loc) eqn:E; [intros [= <- _]; apply same_files_refl|].
  destruct (is_name _); intros [= <- _];
    [now apply same_files_set_dir|apply same_files_refl].
Qed.

Lemma makes_dirs_mkdir_exist_ok s : makes_dirs_only (mkdir_exist_ok s).
Proof.
  apply makes_dirs_try; [apply makes_dirs_mkdir|].
  intros [n f|m|m|k|m|m]; try apply makes_dirs_raise.
  apply makes_dirs_bind; [apply makes_dirs_gets|].
  intros [|]; [apply makes_dirs_ret|apply makes_dirs_raise].
Qed.

(** [os.makedirs] leaves every regular file alone, whatever the path and
    whether it returns or raises. *)
Lemma makes_dirs_makedirs fuel : forall name, makes_dirs_only (makedirs fuel name).
Proof.
  induction fuel as [|n IH]; intros name; [apply makes_dirs_raise|].
  rewrite makedirs_S. destruct (posix_split name) as [head0 tail0].
  destruct (if is_nil tail0 then posix_split head0 else (head0, tail0))
    as [head tail].
  apply makes_dirs_bind.
  { destruct (negb (is_nil head) && negb (is_nil tail));
      [|apply makes_dirs_ret].
    apply makes_dirs_bind; [apply makes_dirs_gets|].
    intros b. apply makes_dirs_ret. }
  intros missing. apply makes_dirs_bind.
  { destruct missing; [|apply makes_dirs_ret].
    apply makes_dirs_bind; [|intros; apply makes_dirs_ret].
    apply makes_dirs_try; [apply IH|].
    intros [[] f|m|m|k|m|m]; apply makes_dirs_raise || apply makes_dirs_ret. }
  intros [|]; [apply makes_dirs_ret|apply makes_dirs_mkdir_exist_ok].
Qed.

(** ** Saving to disk *)

Import FileManager.

Lemma write_arg_eq v fs :
  write_arg v fs =
  (fs, match v with
       | VStr s => str_encode s
       | VBytes b | VBuffer b => Return b
       | VObject type_name =>
           Raise (TypeError (lit "a bytes-like object is required, not '"
                             ++ type_name ++ lit "'"))
       end).
Proof. now destruct v. Qed.

(** [file.write] gets its bytes exactly when the value has bytes. *)
Lemma write_arg_bytes v fs :
  match value_bytes v with
  | Some d => write_arg v fs = (fs, Return d)
  | None => exists e, write_arg v fs = (fs, Raise e)
  end.
Proof.
  rewrite write_arg_eq. destruct v as [s|b|b|ty]; simpl; eauto.
  pose proof (str_encode_spec s) as H.
  destruct (utf8_encode s); [now rewrite H|].
  destruct H as [msg ->]. eauto.
Qed.

Lemma open_wb_inv s fs fs' loc :
  open_wb s fs = (fs', Return loc) ->
  resolve fs s = Return loc /\ node_at fs loc <> Some Dir /\ loc <> [] /\
  fs' = set_node fs loc (File []).
Proof.
  unfold open_wb. destruct (endswith_sep s && is_name _).
  { now destruct (lookup fs s _). }
  destruct (resolve fs s) as [l|e]; [|discriminate].
  destruct (node_at fs l) as [[|d]|] eqn:E; [discriminate| |].
  - intros [= <- <-]. repeat split; try congruence.
    intros ->. discriminate.
  - destruct (names_entry s); [|discriminate].
    intros [= <- <-]. repeat split; try congruence.
    intros ->. discriminate.
Qed.

(** An [open] that raises leaves the tree as it is. *)
Lemma open_wb_raise s fs fs' e :
  open_wb s fs = (fs', Raise e) -> fs' = fs.
Proof.
  unfold open_wb. destruct (endswith_sep s && is_name _).
  { destruct (lookup fs s _); congruence. }
  destruct (resolve fs s) as [l|e']; [|congruence].
  destruct (node_at fs l) as [[|d]|]; try congruence.
  destruct (names_entry s); congruence.
Qed.

(** What a save that returns has done: the directories are made, the path
    resolves to a location that holds no directory, and the file there
    now holds the bytes of the value. *)
Lemma save_to_disk_inv path v fs fs' :
  _save_to_disk path v fs = (fs', Return tt) ->
  exists fs1 loc data,
    os_makedirs (dirname path) fs = (fs1, Return tt) /\
    resolve fs1 path = Return loc /\ node_at fs1 loc <> Some Dir /\
    loc <> [] /\ value_bytes v = Some data /\
    fs' = set_node fs1 loc (File data).
Proof.
  unfold _save_to_disk. intros H.
  apply bind_inv in H as (fs1 & [] & Hmk & H).
  apply bind_inv in H as (fs2 & loc & Hop & H).
  apply bind_inv in H as (fs3 & data & Hdata & H).
  apply open_wb_inv in Hop as (Hres & Hnd & Hne & ->).
  pose proof (write_arg_bytes v (set_node fs1 loc (File []))) as Hw.
  destruct (value_bytes v) as [data'|] eqn:Hv;
    [|destruct Hw as [e Hw]; congruence].
  rewrite Hw in Hdata. injection Hdata as <- ->.
  unfold file_write in H. rewrite node_at_set_eq in H by done.
  injection H as <-. exists fs1, loc, data.
  now rewrite set_node_twice.
Qed.

Lemma save_to_disk_read path v fs fs' :
  _save_to_disk path v fs = (fs', Return tt) ->
  exists data, value_bytes v = Some data /\ read_file path fs' = Return data.
Proof.
  intros (fs1 & loc & data & _ & Hres & Hnd & Hne & Hv & ->)%save_to_disk_inv.
  exists data. split; [done|]. unfold read_file.
  rewrite (resolve_keeps fs1 _ _ loc) by (auto using keeps_dirs_set).
  now rewrite node_at_set_eq.
Qed.


(** The components of an absolute path whose last component is not
    empty: those of its [dirname], empty ones, and the last. *)
Lemma split_sep_dirname f :
  startswith_sep f = true -> is_nil (List.last (split_sep f) []) = false ->
  exists j rest,
    split_sep f =
      (if forallb is_sep (dirname f) then [] else split_sep (dirname f))
      ++ repeat [] j ++ [List.last (split_sep f) []] /\
    f = dirname f ++ rest /\
    startswith_sep (dirname f) = true /\
    (forallb is_sep (dirname f) = true \/ endswith_sep (dirname f) = false).
Proof.
  intros Hs Hl. unfold dirname.
  destruct (posix_split f) as [head tail] eqn:Es.
  destruct (posix_split_spec f head tail Hs Es)
    as (j & rest & Hd & Hcat & Hhs & Hnh & Htl).
  exists j, rest. cbn [fst].
  assert (List.last (split_sep f) [] = tail) as ->; [|done].
  rewrite Hd, !app_assoc. apply last_last.
Qed.

(** A save to an absolute path follows the walk of the save: where the
    walk ends in a tree, the save returns and leaves that tree. *)
Lemma save_to_disk_walk fs f v data fs' :
  startswith_sep f = true ->
  save_walk fs f data = Some fs' ->
  value_bytes v = Some data ->
  _save_to_disk f v fs = (fs', Return tt).
Proof.
  intros Hs Hw Hv. unfold save_walk in Hw.
  destruct (admits f) eqn:Hadm; [|discriminate].
  destruct (names_fit (split_sep f)) eqn:Hfit; [|discriminate].
  destruct (is_name _) eqn:Hname; [|discriminate]. cbn [andb] in Hw.
  set (name := List.last (split_sep f) []) in *.
  assert (Hnn : is_nil name = false).
  { unfold is_name, is_dot in Hname. now destruct name. }
  destruct (split_sep_dirname f Hs Hnn) as (j & rest & Hd & Hcat & Hhs & Hnorm).
  fold name in Hd.
  set (X := if forallb is_sep (dirname f) then [] else split_sep (dirname f)) in *.
  assert (Hrl : removelast (split_sep f) = X ++ repeat [] j)
    by now rewrite Hd, !app_assoc, removelast_last.
  rewrite Hrl, mkwalk_app in Hw.
  destruct (mkwalk fs [] X) as [[fs1 loc]|] eqn:EX; [|discriminate].
  destruct (mkwalk_keeps _ _ _ _ _ EX) as [_ Hloc].
  rewrite (mkwalk_empties _ _ _ Hloc) in Hw.
  pose proof Hfit as Hfit'. unfold names_fit in Hfit'.
  rewrite Hd, !forallb_app in Hfit'.
  apply andb_true_iff in Hfit' as [HfitX Hfit'].
  apply andb_true_iff in Hfit' as [_ Hfit']. simpl in Hfit'.
  rewrite andb_true_r in Hfit'.
  assert (H1 : mkwalk fs [] (split_sep (dirname f)) = Some (fs1, loc) /\
               names_fit (split_sep (dirname f)) = true).
  { unfold X in EX, HfitX.
    destruct (forallb is_sep (dirname f)) eqn:Eall; [|done].
    simpl in EX. injection EX as <- <-.
    rewrite (forallb_is_sep_repeat _ Eall), split_sep_seps.
    split; [now apply mkwalk_empties|apply names_fit_empties]. }
  destruct H1 as [H1 Hfith].
  assert (Hadmh : admits (dirname f) = true).
  { rewrite Hcat in Hadm. apply admits_prefix in Hadm; [done|].
    now destruct (dirname f). }
  assert (Hmk : os_makedirs (dirname f) fs = (fs1, Return tt)).
  { unfold os_makedirs.
    apply (makedirs_walk (S (length (dirname f))) _ _ fs fs1 loc);
      (done || lia). }
  assert (Hres : resolve fs1 f = Return (loc ++ [name])).
  { unfold resolve. rewrite lookup_eq, Hs, Hd by done.
    rewrite app_assoc, namei_app, <- Hrl.
    rewrite Hrl, namei_app, (mkwalk_namei X fs [] fs1 loc HfitX EX).
    rewrite (namei_empties _ _ _ Hloc). simpl. rewrite Hloc.
    unfold is_name in Hname. apply andb_true_iff in Hname as [Hdot Hpar].
    apply negb_true_iff in Hdot, Hpar. rewrite Hdot, Hpar.
    apply N.leb_le, N.ltb_ge in Hfit'. now rewrite Hfit'. }
  assert (Hend : endswith_sep f = false).
  { destruct (endswith_sep f) eqn:E; [|done].
    apply endswith_sep_last in E. fold name in E. now rewrite E in Hnn. }
  assert (Hne : loc ++ [name] <> []) by now destruct loc.
  assert (Hopen : open_wb f fs1
                  = (set_node fs1 (loc ++ [name]) (File []),
                     Return (loc ++ [name]))).
  { unfold open_wb. rewrite Hend, Hres. cbn [andb].
    destruct (node_at fs1 (loc ++ [name])) as [[|d]|]; [done|done|].
    unfold names_entry. fold name. now rewrite Hname. }
  assert (Hfs' : fs' = set_node fs1 (loc ++ [name]) (File data)).
  { destruct (node_at fs1 (loc ++ [name])) as [[|d]|]; congruence. }
  unfold _save_to_disk.
  rewrite (bind_return _ _ _ _ _ Hmk), (bind_return _ _ _ _ _ Hopen).
  pose proof (write_arg_bytes v (set_node fs1 (loc ++ [name]) (File []))) as Hd'.
  rewrite Hv in Hd'. rewrite (bind_return _ _ _ _ _ Hd').
  unfold file_write. rewrite node_at_set_eq by done.
  now rewrite set_node_twice, Hfs'.
Qed.

(** The state after a guarded save is the state after the save. *)
Lemma guarded_save_state {A} (m : M fsys unit) (ok : A) (h : exn -> A) fs fs' r :
  try_except (m ;;; ret ok)%py (fun e => ret (h e)) fs = (fs', r) ->
  exists r', m fs = (fs', r').
Proof.
  unfold try_except, bind, ret. destruct (m fs) as [fs1 [[]|e]];
    intros [= <- _]; eauto.
Qed.

Lemma guarded_save_never_raises (m : M fsys unit) (ok : artifact)
  (h : exn -> artifact) :
  never_raises (try_except (m ;;; ret ok)%py (fun e => ret (h e))).
Proof.
  intros fs. unfold try_except, bind, ret.
  destruct (m fs) as [fs' [[]|e]]; simpl; eauto.
Qed.






(** ** The parameters *)

Lemma values_item_eq {V} (params : params_of V) k fs :
  values_item params k fs =
  (fs, match params !! lit "values" with
       | None => Raise (KeyError (lit "values"))
       | Some values =>
           match values !! k with
           | Some v => Return v
           | None => Raise (KeyError k)
           end
       end).
Proof.
  unfold values_item, bind, dict_getitem, ret, raise, params_of in *.
  destruct (params !! lit "values") as [values|]; [|reflexivity].
  destruct (values !! k); reflexivity.
Qed.

Lemma values_item_get {V} (params : params_of V) k v fs :
  values_get params k = Some v -> values_item params k fs = (fs, Return v).
Proof.
  unfold values_get. rewrite values_item_eq.
  destruct (params !! lit "values"); [|done]. now intros ->.
Qed.

Lemma values_item_missing {V} (params : params_of V) k fs :
  values_get params k = None ->
  exists key, values_item params k fs = (fs, Raise (KeyError key)).
Proof.
  unfold values_get. rewrite values_item_eq.
  destruct (params !! lit "values"); [|eauto]. intros ->. eauto.
Qed.

Lemma load_params_paths r : values_get (load_params r) (lit "paths") = Some (paths r).
Proof. reflexivity. Qed.

Lemma save_content_params_path r :
  values_get (save_content_params r) (lit "path") = Some (path r).
Proof. reflexivity. Qed.

Lemma save_content_params_content r :
  values_get (save_content_params r) (lit "content") = Some (content r).
Proof. reflexivity. Qed.

Lemma save_memory_params_values r :
  values_get (save_memory_params r) (lit "memory_name") = Some (memory_name r) /\
  values_get (save_memory_params r) (lit "artifact_namespace")
    = Some (artifact_namespace r) /\
  values_get (save_memory_params r) (lit "dir_name") = Some (dir_name r) /\
  values_get (save_memory_params r) (lit "file_name") = Some (file_name r).
Proof. repeat split; reflexivity. Qed.

Lemma holds_load_params r : holds_paths (load_params r) r.
Proof. reflexivity. Qed.

Lemma holds_save_content_params r : holds_content (save_content_params r) r.
Proof. split; reflexivity. Qed.

Lemma holds_save_memory_params r : holds_memory (save_memory_params r) r.
Proof. repeat split; reflexivity. Qed.

(** ** The methods, once the parameters are read *)

Lemma load_files_get `{FileLoader} self params r fs :
  holds_paths params r ->
  load_files_from_disk self params fs = load_loop self [] (paths r) fs.
Proof.
  intros Hg. unfold load_files_from_disk.
  now rewrite (bind_return _ _ _ _ _ (values_item_get _ _ _ fs Hg)).
Qed.

Lemma load_files_eq `{FileLoader} self r fs :
  load_files_from_disk self (load_params r) fs
  = load_loop self [] (paths r) fs.
Proof. apply load_files_get, holds_load_params. Qed.

Lemma save_content_get self params r fs :
  holds_content params r ->
  save_content_to_file self params fs =
  try_except
    (_save_to_disk (os_path_join (workdir self) [path r]) (VStr (content r)) ;;;
     ret (InfoArtifact (lit "saved successfully")))%py
    (fun e => ret (write_error e)) fs.
Proof.
  intros [Hp Hc]. unfold save_content_to_file.
  rewrite (bind_return _ _ _ _ _ (values_item_get _ _ _ fs Hc)).
  now rewrite (bind_return _ _ _ _ _ (values_item_get _ _ _ fs Hp)).
Qed.

Lemma save_content_eq self r fs :
  save_content_to_file self (save_content_params r) fs =
  try_except
    (_save_to_disk (os_path_join (workdir self) [path r]) (VStr (content r)) ;;;
     ret (InfoArtifact (lit "saved successfully")))%py
    (fun e => ret (write_error e)) fs.
Proof. apply save_content_get, holds_save_content_params. Qed.

(** The body of [save_memory_artifacts_to_disk] after the four values
    are read. *)
Lemma save_memory_get self params r fs :
  holds_memory params r ->
  save_memory_artifacts_to_disk self params fs =
  match find_input_memory self (memory_name r) with
  | Some memory =>
      (artifacts <- lift (fun _ => load_artifacts memory (artifact_namespace r)) ;;
       match artifacts with
       | [] => ret (ErrorArtifact (lit "no artifacts found"))
       | [a] =>
           try_except
             (_save_to_disk
                (os_path_join (workdir self) [dir_name r; file_name r])
                (a_value a) ;;;
              ret (InfoArtifact (lit "saved successfully")))
             (fun e => ret (write_error e))
       | _ =>
           try_except
             (save_each self (dir_name r) (file_name r) artifacts ;;;
              ret (InfoArtifact (lit "saved successfully")))
             (fun e => ret (write_error e))
       end)%py fs
  | None => (fs, Return (ErrorArtifact (lit "memory not found")))
  end.
Proof.
  intros (Hm & Hn & Hd & Hf). unfold save_memory_artifacts_to_disk.
  rewrite (bind_return _ _ _ _ _ (values_item_get _ _ _ fs Hm)).
  rewrite (bind_return _ _ _ _ _ (values_item_get _ _ _ fs Hn)).
  rewrite (bind_return _ _ _ _ _ (values_item_get _ _ _ fs Hd)).
  rewrite (bind_return _ _ _ _ _ (values_item_get _ _ _ fs Hf)).
  now destruct (find_input_memory self (memory_name r)).
Qed.

Lemma save_memory_eq self r fs :
  save_memory_artifacts_to_disk self (save_memory_params r) fs =
  match find_input_memory self (memory_name r) with
  | Some memory =>
      (artifacts <- lift (fun _ => load_artifacts memory (artifact_namespace r)) ;;
       match artifacts with
       | [] => ret (ErrorArtifact (lit "no artifacts found"))
       | [a] =>
           try_except
             (_save_to_disk
                (os_path_join (workdir self) [dir_name r; file_name r])
                (a_value a) ;;;
              ret (InfoArtifact (lit "saved successfully")))
             (fun e => ret (write_error e))
       | _ =>
           try_except
             (save_each self (dir_name r) (file_name r) artifacts ;;;
              ret (InfoArtifact (lit "saved successfully")))
             (fun e => ret (write_error e))
       end)%py fs
  | None => (fs, Return (ErrorArtifact (lit "memory not found")))
  end.
Proof. apply save_memory_get, holds_save_memory_params. Qed.

(** A parameter that is missing: the method raises [KeyError] before it
    does anything. *)
Lemma load_files_missing `{FileLoader} self params fs :
  values_get params (lit "paths") = None ->
  exists key, load_files_from_disk self params fs = (fs, Raise (KeyError key)).
Proof.
  intros Hg. destruct (values_item_missing _ _ fs Hg) as [key Hk].
  exists key. unfold load_files_from_disk.
  now rewrite (bind_raise _ _ _ _ _ Hk).
Qed.

(** ** Loading from disk *)

Section Loading.
Context `{FileLoader}.
Variable self : FileManager.t.

(** [path] loads, from the tree [fs], to the artifact [a]. *)
Let loads (fs : fsys) (path : pystr) (a : artifact) : Prop :=
  load (workdir self) (Path path) fs = Return a.

Lemma load_one_return acc path a fs :
  load (workdir self) (Path path) fs = Return a ->
  load_one self acc path fs = (fs, Return (inl (acc ++ [a]))).
Proof.
  intros E. unfold load_one, try_except, bind, lift. now rewrite E.
Qed.

Lemma load_one_raise acc path e fs :
  load (workdir self) (Path path) fs = Raise e ->
  load_one self acc path fs = (fs, Return (inr (load_error path e))).
Proof.
  intros E. unfold load_one, try_except, bind, lift. now rewrite E.
Qed.

(** The loop either loads every path, or stops at the first one that
    fails, with the error of that one alone. *)
Lemma load_loop_outcome fs ps : forall acc,
  (exists loaded,
     Forall2 (loads fs) ps loaded /\
     load_loop self acc ps fs = (fs, Return (ListArtifact (acc ++ loaded))))
  \/
  (exists pre p post loaded e,
     ps = pre ++ p :: post /\ Forall2 (loads fs) pre loaded /\
     load (workdir self) (Path p) fs = Raise e /\
     load_loop self acc ps fs = (fs, Return (load_error p e))).
Proof.
  induction ps as [|q ps IH]; intros acc.
  - left. exists []. split; [constructor|]. simpl. now rewrite app_nil_r.
  - destruct (load (workdir self) (Path q) fs) as [a|e] eqn:E.
    + destruct (IH (acc ++ [a])) as [(loaded & Hall & Hres)|
                                     (pre & p & post & loaded & e & -> & Hall & Hp & Hres)].
      * left. exists (a :: loaded). split; [now constructor|].
        cbn [load_loop]. rewrite (bind_return _ _ _ _ _ (load_one_return acc q a fs E)).
        now rewrite Hres, <- app_assoc.
      * right. exists (q :: pre), p, post, (a :: loaded), e.
        repeat split; [now constructor|done|].
        cbn [load_loop].
        now rewrite (bind_return _ _ _ _ _ (load_one_return acc q a fs E)).
    + right. exists [], q, ps, [], e. repeat split; [constructor|done|].
      cbn [load_loop].
      now rewrite (bind_return _ _ _ _ _ (load_one_raise acc q e fs E)).
Qed.
Lemma load_loop_first_failure fs pre p post loaded e : forall acc,
  Forall2 (loads fs) pre loaded ->
  load (workdir self) (Path p) fs = Raise e ->
  load_loop self acc (pre ++ p :: post) fs = (fs, Return (load_error p e)).
Proof.
  intros acc Hall. revert acc.
  induction Hall as [|q a pre loaded Hq _ IH]; intros acc Hp; cbn [app load_loop].
  - now rewrite (bind_return _ _ _ _ _ (load_one_raise acc p e fs Hp)).
  - rewrite (bind_return _ _ _ _ _ (load_one_return acc q a fs Hq)).
    now apply IH.
Qed.
End Loading.

Lemma load_error_is_error p e : exists msg, load_error p e = ErrorArtifact msg.
Proof. destruct e as [[] f| | | | |]; simpl; eauto. Qed.

Lemma load_never_raises `{FileLoader} self params r :
  holds_paths params r -> never_raises (load_files_from_disk self params).
Proof.
  intros Hg fs. rewrite (load_files_get _ _ r) by done.
  destruct (load_loop_outcome self fs (paths r) [])
    as [(loaded & _ & E)|(pre & p & post & loaded & e & _ & _ & _ & E)];
    rewrite E; simpl; eauto.
Qed.

Lemma posix_load_return fs w p a :
  posix_load w (Path p) fs = Return a -> names_file fs w p.
Proof.
  unfold posix_load, read_file, names_file.
  destruct (resolve fs _) as [loc|e]; [|discriminate].
  destruct (node_at fs loc) as [[|d]|] eqn:E; try discriminate.
  intros _. now exists loc, d.
Qed.

Lemma names_file_load fs w p :
  names_file fs w p -> exists b, posix_load w (Path p) fs = Return (BlobArtifact b).
Proof.
  intros (loc & d & Hres & Hn). exists d.
  unfold posix_load, read_file. now rewrite Hres, Hn.
Qed.

Lemma pair_fst_snd {A B} (x : A * B) : x = (fst x, snd x).
Proof. now destruct x. Qed.

(** ** Saves behind the handler *)

(** A guarded save, from the outcome of the save it guards. *)
Lemma guarded_save_eq (m : M fsys unit) (fs fs' : fsys) (r : result unit) :
  m fs = (fs', r) ->
  try_except (m ;;; ret (InfoArtifact (lit "saved successfully")))%py
    (fun e => ret (write_error e)) fs
  = (fs', Return (match r with
                  | Return _ => InfoArtifact (lit "saved successfully")
                  | Raise e => write_error e
                  end)).
Proof.
  intros E. unfold try_except, bind, ret. rewrite E. now destruct r.
Qed.

Lemma written_in_turn_run self dir file arts fs fs1 :
  written_in_turn self dir file arts fs fs1 ->
  forall rest,
    save_each self dir file (arts ++ rest) fs
    = save_each self dir file rest fs1.
Proof.
  induction 1 as [|a arts fs fs1 fs2 Hs _ IH]; intros rest; [done|].
  cbn [app save_each]. rewrite (bind_return _ _ _ _ _ Hs). apply IH.
Qed.

Lemma written_in_turn_returns self dir file arts fs fs' :
  written_in_turn self dir file arts fs fs' ->
  save_each self dir file arts fs = (fs', Return tt).
Proof.
  induction 1 as [|a arts fs fs1 fs2 Hs _ IH]; [done|].
  cbn [save_each]. now rewrite (bind_return _ _ _ _ _ Hs).
Qed.

Lemma save_each_inv self dir file arts : forall fs fs',
  save_each self dir file arts fs = (fs', Return tt) ->
  written_in_turn self dir file arts fs fs'.
Proof.
  induction arts as [|a arts IH]; intros fs fs' H.
  - injection H as <-. constructor.
  - cbn [save_each] in H. apply bind_inv in H as (fs1 & [] & Hs & H).
    econstructor; [exact Hs|]. now apply IH.
Qed.

Lemma written_in_turn_app_inv self dir file pre : forall post fs fs',
  written_in_turn self dir file (pre ++ post) fs fs' ->
  exists fs1, written_in_turn self dir file pre fs fs1 /\
              written_in_turn self dir file post fs1 fs'.
Proof.
  induction pre as [|a pre IH]; intros post fs fs' H.
  - exists fs. split; [constructor|done].
  - simpl in H. inversion H as [|? ? ? fs1 ? Hs Hrest]; subst.
    destruct (IH _ _ _ Hrest) as (fs2 & H1 & H2).
    exists fs2. split; [|done]. econstructor; eauto.
Qed.

(** The loop over the artifacts: every write returns, or the loop stops
    at the first one that raises. *)
Lemma save_each_outcome self dir file arts : forall fs,
  (exists fs', written_in_turn self dir file arts fs fs' /\
               save_each self dir file arts fs = (fs', Return tt))
  \/
  (exists pre a post fs1 fs2 e,
     arts = pre ++ a :: post /\
     written_in_turn self dir file pre fs fs1 /\
     _save_to_disk
       (os_path_join (workdir self) [dir; a_name a ++ lit "-" ++ file])
       (a_value a) fs1 = (fs2, Raise e) /\
     save_each self dir file arts fs = (fs2, Raise e)).
Proof.
  induction arts as [|a arts IH]; intros fs.
  - left. exists fs. split; [constructor|done].
  - cbn [save_each].
    destruct (_save_to_disk
                (os_path_join (workdir self) [dir; a_name a ++ lit "-" ++ file])
                (a_value a) fs) as [fs1 [[]|e]] eqn:Es.
    + rewrite (bind_return _ _ _ _ _ Es).
      destruct (IH fs1) as [(fs' & Hw & Hr)|
                            (pre & b & post & s1 & s2 & e & -> & Hw & Hb & Hr)].
      * left. exists fs'. split; [|done]. econstructor; eauto.
      * right. exists (a :: pre), b, post, s1, s2, e.
        repeat split; try done. econstructor; eauto.
    + right. exists [], a, arts, fs, fs1, e.
      repeat split; [constructor|done|]. now apply bind_raise.
Qed.

(** The branch of [save_memory_artifacts_to_disk] for one artifact. *)
Lemma save_memory_one self params r memory a fs :
  holds_memory params r ->
  find_input_memory self (memory_name r) = Some memory ->
  load_artifacts memory (artifact_namespace r) = Return [a] ->
  save_memory_artifacts_to_disk self params fs =
  try_except
    (_save_to_disk (os_path_join (workdir self) [dir_name r; file_name r])
       (a_value a) ;;;
     ret (InfoArtifact (lit "saved successfully")))%py
    (fun e => ret (write_error e)) fs.
Proof.
  intros Hp Hm Ha. rewrite (save_memory_get _ _ r) by done. rewrite Hm.
  unfold bind at 1. unfold lift. now rewrite Ha.
Qed.

(** The branch of [save_memory_artifacts_to_disk] for several artifacts. *)
Lemma save_memory_several self params r memory arts fs :
  holds_memory params r ->
  find_input_memory self (memory_name r) = Some memory ->
  load_artifacts memory (artifact_namespace r) = Return arts ->
  (2 <= length arts)%nat ->
  save_memory_artifacts_to_disk self params fs =
  try_except
    (save_each self (dir_name r) (file_name r) arts ;;;
     ret (InfoArtifact (lit "saved successfully")))%py
    (fun e => ret (write_error e)) fs.
Proof.
  intros Hp Hm Ha Hlen. rewrite (save_memory_get _ _ r) by done. rewrite Hm.
  unfold bind at 1. unfold lift. rewrite Ha.
  destruct arts as [|a [|a2 arts]]; simpl in Hlen; try lia. reflexivity.
Qed.


(** The same as equations between computations. *)
Lemma save_content_fun self r :
  save_content_to_file self (save_content_params r) =
  try_except
    (_save_to_disk (os_path_join (workdir self) [path r]) (VStr (content r)) ;;;
     ret (InfoArtifact (lit "saved successfully")))%py
    (fun e => ret (write_error e)).
Proof. reflexivity. Qed.

Lemma save_memory_fun self r :
  save_memory_artifacts_to_disk self (save_memory_params r) =
  match find_input_memory self (memory_name r) with
  | Some memory =>
      (artifacts <- lift (fun _ => load_artifacts memory (artifact_namespace r)) ;;
       match artifacts with
       | [] => ret (ErrorArtifact (lit "no artifacts found"))
       | [a] =>
           try_except
             (_save_to_disk
                (os_path_join (workdir self) [dir_name r; file_name r])
                (a_value a) ;;;
              ret (InfoArtifact (lit "saved successfully")))
             (fun e => ret (write_error e))
       | _ =>
           try_except
             (save_each self (dir_name r) (file_name r) artifacts ;;;
              ret (InfoArtifact (lit "saved successfully")))
             (fun e => ret (write_error e))
       end)%py
  | None => ret (ErrorArtifact (lit "memory not found"))
  end.
Proof. reflexivity. Qed.

(** ** What a save raises *)

Section RaisesOnly.
Context {A B : Type} (P : exn -> Prop).





End RaisesOnly.











(** *** The texts of these exceptions *)





(** ** More on the walk of a save *)

(** A walk that comes through has found no name too long. *)
Lemma namei_names_fit fs cs : forall cur loc,
  namei fs cur cs = inr loc -> names_fit cs = true.
Proof.
  induction cs as [|c cs IH]; intros cur loc; simpl; [done|].
  destruct (node_at fs cur) as [[|d]|]; try discriminate.
  destruct (is_dot c) eqn:Ed.
  { intros H. rewrite (IH _ _ H), andb_true_r.
    unfold is_dot in Ed. apply orb_true_iff in Ed as [Ed|Ed].
    - now destruct c.
    - apply bool_decide_eq_true in Ed. now subst c. }
  destruct (pystr_eqb c pardir) eqn:Ep.
  { intros H. rewrite (IH _ _ H), andb_true_r.
    apply bool_decide_eq_true in Ep. now subst c. }
  destruct (NAME_MAX <? fs_len c) eqn:El; [discriminate|].
  intros H. rewrite (IH _ _ H), andb_true_r.
  apply N.leb_le. now apply N.ltb_ge in El.
Qed.

(** The directory of an absolute path that resolves is there: [stat] of
    [os.path.dirname] finds a directory. *)
Lemma dirname_of_resolved fs f loc :
  startswith_sep f = true -> resolve fs f = Return loc ->
  os_stat (dirname f) fs = Return Dir /\
  startswith_sep (dirname f) = true /\
  (forallb is_sep (dirname f) = true \/ endswith_sep (dirname f) = false).
Proof.
  intros Hs Hres. unfold dirname.
  destruct (posix_split f) as [head tail] eqn:Es. cbn [fst].
  destruct (posix_split_spec f head tail Hs Es)
    as (j & rest & Hsplit & Hcat & Hhs & Hnorm & _).
  split; [|now split].
  apply lookup_inv in Hres as (Hadm & Hn). rewrite Hs, Hsplit in Hn.
  assert (Hne : head <> []) by (intros ->; discriminate).
  rewrite Hcat in Hadm. apply admits_prefix in Hadm; [|done].
  unfold os_stat, resolve. rewrite lookup_eq, Hhs by done.
  destruct (forallb is_sep head) eqn:Eall.
  - rewrite (forallb_is_sep_repeat _ Eall), split_sep_seps.
    now rewrite namei_empties.
  - rewrite namei_app in Hn.
    destruct (namei fs [] (split_sep head)) as [e|l1]; [discriminate|].
    rewrite (namei_first_dir fs (repeat [] j ++ [tail]) l1 loc); [done| |done].
    now destruct (repeat (@nil N) j).
Qed.

(** What the walk of a save leaves: the directories that were there,
    the directory of the path, and the file with its bytes. *)
Lemma save_walk_leaves f data fs fs' :
  startswith_sep f = true -> save_walk fs f data = Some fs' ->
  (forall l, node_at fs l = Some Dir -> node_at fs' l = Some Dir) /\
  os_stat (dirname f) fs' = Return Dir /\
  read_file f fs' = Return data.
Proof.
  intros Hs Hw.
  pose proof (save_to_disk_walk fs f (VBytes data) data fs' Hs Hw eq_refl) as H.
  pose proof H as (fs1 & loc & d & Hmk & Hres & Hnd & Hne & [= <-] & ->)%save_to_disk_inv.
  pose proof (makes_dirs_makedirs _ _ _ _ _ Hmk) as [[_ K1] _].
  pose proof (keeps_dirs_set fs1 loc (File data) Hnd) as K2.
  split; [|split].
  - intros l Hl. apply K2, K1, Hl.
  - apply (resolve_keeps _ _ _ _ K2) in Hres.
    now destruct (dirname_of_resolved _ f loc Hs Hres).
  - now destruct (save_to_disk_read _ _ _ _ H) as (d' & [= <-] & Hr).
Qed.

(** The walk of a save into a directory that is there makes no
    directory: it writes the file. *)
Lemma save_walk_existing f data fs loc :
  startswith_sep f = true ->
  admits f = true ->
  is_name (List.last (split_sep f) []) = true ->
  fs_len (List.last (split_sep f) []) <= NAME_MAX ->
  resolve fs (dirname f) = Return loc -> node_at fs loc = Some Dir ->
  node_at fs (loc ++ [List.last (split_sep f) []]) <> Some Dir ->
  save_walk fs f data
  = Some (set_node fs (loc ++ [List.last (split_sep f) []]) (File data)).
Proof.
  intros Hs Hadm Hname Hlen Hres Hdir Hnd.
  set (name := List.last (split_sep f) []) in *.
  assert (Hnn : is_nil name = false).
  { unfold is_name, is_dot in Hname. now destruct name. }
  destruct (split_sep_dirname f Hs Hnn) as (j & rest & Hd & Hcat & Hhs & Hnorm).
  fold name in Hd.
  apply lookup_inv in Hres as [_ Hn]. rewrite Hhs in Hn.
  pose proof (namei_names_fit _ _ _ _ Hn) as Hfit.
  pose proof (namei_mkwalk _ _ _ _ Hn) as Hm. rewrite Hdir in Hm.
  assert (HX : mkwalk fs []
                 (if forallb is_sep (dirname f) then []
                  else split_sep (dirname f)) = Some (fs, loc) /\
               names_fit (if forallb is_sep (dirname f) then []
                          else split_sep (dirname f)) = true).
  { destruct (forallb is_sep (dirname f)) eqn:Eall; [|done].
    rewrite (forallb_is_sep_repeat _ Eall), split_sep_seps in Hn.
    rewrite namei_empties in Hn by done. injection Hn as <-. done. }
  destruct HX as [HX HfitX].
  unfold save_walk. fold name. rewrite Hadm, Hname.
  assert (names_fit (split_sep f) = true) as ->.
  { unfold names_fit in *. rewrite Hd, !forallb_app, HfitX.
    fold (names_fit (repeat [] j)). rewrite names_fit_empties. simpl.
    rewrite andb_true_r. now apply N.leb_le. }
  cbn [andb].
  assert (removelast (split_sep f)
          = (if forallb is_sep (dirname f) then []
             else split_sep (dirname f)) ++ repeat [] j) as ->
    by now rewrite Hd, !app_assoc, removelast_last.
  rewrite mkwalk_app, HX, (mkwalk_empties _ _ _ Hdir).
  now destruct (node_at fs (loc ++ [name])) as [[|d]|].
Qed.

(** The loop over several artifacts follows the walks of their saves. *)
Lemma save_each_walks self dir file arts : forall files fs fs',
  startswith_sep (workdir self) = true ->
  Forall2 (fun a fd =>
    fst fd = os_path_join (workdir self) [dir; a_name a ++ lit "-" ++ file] /\
    value_bytes (a_value a) = Some (snd fd)) arts files ->
  save_walks fs files = Some fs' ->
  save_each self dir file arts fs = (fs', Return tt).
Proof.
  induction arts as [|a arts IH]; intros files fs fs' Hw Hall Hwalk.
  - inversion Hall; subst. simpl in Hwalk. now injection Hwalk as <-.
  - inversion Hall as [|? [f data] ? files' [Hf Hv] Hrest]; subst.
    cbn [fst snd] in Hf, Hv. subst f. cbn [save_walks] in Hwalk.
    destruct (save_walk fs _ data) as [fs1|] eqn:E1; [|discriminate].
    cbn [save_each].
    rewrite (bind_return _ _ _ _ _
               (save_to_disk_walk fs _ (a_value a) data fs1
                  (os_path_join_absolute _ _ Hw) E1 Hv)).
    now apply (IH files').
Qed.

(** ** The claims *)

(** C1: with the loader of the file system, a save of content [c] under
    the relative path [p] that reports success, followed by a load of
    [[p]], returns a list of exactly one artifact, and that artifact
    carries the UTF-8 encoding of [c]; the load leaves the file tree as
    the save left it. *)
Theorem save_then_load_roundtrip (self : FileManager.t) (p c : pystr)
  (fs fs' : fsys) :
  startswith_sep p = false ->
  save_content_to_file self
    (save_content_params {| path := p; content := c |}) fs
    = (fs', Return (InfoArtifact (lit "saved successfully"))) ->
  exists data,
    utf8_encode c = Some data /\
    load_files_from_disk self (load_params {| paths := [p] |}) fs'
      = (fs', Return (ListArtifact [BlobArtifact data])).
Proof.
  intros Hp Hsave. rewrite save_content_eq in Hsave.
  cbn [path content] in Hsave.
  apply try_except_return_inv in Hsave as [H|(s1 & e & _ & H)];
    [|discriminate].
  apply bind_inv in H as (fs1 & [] & Hdisk & H). injection H as <-.
  apply save_to_disk_inv in Hdisk
    as (fs0 & loc & data & _ & Hres & Hnd & Hne & Hv & ->).
  exists data. split; [exact Hv|].
  assert (Hread : read_file (os_path_join (workdir self) [fspath (Path p)])
                    (set_node fs0 loc (File data)) = Return data).
  { apply read_file_Path with (loc := loc); [done| |now apply node_at_set_eq].
    apply resolve_keeps with (fs := fs0); [now apply keeps_dirs_set|done]. }
  rewrite load_files_eq. cbn [paths load_loop].
  unfold load_one, bind, try_except, lift. cbn [load posix_loader].
  unfold posix_load. now rewrite Hread.
Qed.

Lemma save_then_load_roundtrip_witness :
  let fs' := fst (save_content_to_file fm_work
                    (save_content_params
                       {| path := lit "a/b/c.txt"; content := sample_text |})
                    fs_work) in
  exists data,
    utf8_encode sample_text = Some data /\
    load_files_from_disk fm_work
      (load_params {| paths := [lit "a/b/c.txt"] |}) fs'
      = (fs', Return (ListArtifact [BlobArtifact data])).
Proof.
  apply (save_then_load_roundtrip fm_work (lit "a/b/c.txt") sample_text fs_work).
  - reflexivity.
  - vm_compute. reflexivity.
Defined.

(** C2, as stated, fails: [search_record] has no handler, so what the
    driver raises is raised to the caller of the method; and in
    [FileManager] the handlers are around the loader and around the
    saves only, so a parameter that is missing and a memory that fails
    are raised to the caller too. *)
Lemma search_record_raises :
  ~ never_raises
      (TextManagerRamp.search_record
         (TextManagerRamp.mk (lit "storage") failing_driver) sample_query) /\
  save_content_to_file fm_work {[ lit "values" := {[ lit "path" := lit "a" ]} ]}
    fs_work = (fs_work, Raise (KeyError (lit "content"))) /\
  load_files_from_disk fm_work ∅ fs_work
    = (fs_work, Raise (KeyError (lit "values"))) /\
  save_memory_artifacts_to_disk fm_failing
    (save_memory_params
       {| dir_name := lit "out"; file_name := lit "f.txt";
          memory_name := lit "mem"; artifact_namespace := lit "ns" |}) fs_work
    = (fs_work, Raise (Exception (lit "memory unavailable"))).
Proof.
  split; [|split; [|split]]; try (vm_compute; reflexivity).
  intros H. destruct (H tt) as [a Ha]. vm_compute in Ha. discriminate.
Qed.

(** C2, amended: in [FileManager] a failure of the loader or of
    [_save_to_disk], with one artifact and in the loop over several, is
    caught in the method and becomes an [ErrorArtifact] whose message
    names it.  The methods return an artifact from every store when
    [params] holds the values they read and, for
    [save_memory_artifacts_to_disk], the memory hands over its artifacts.
    What is raised before the handler is raised to the caller: the
    [KeyError] of a value that is missing, and the failure of the
    memory.  The methods of [TextManagerRamp] have no handler: a failure
    of the driver is raised to the caller. *)
Theorem failures_become_error_artifacts :
  (forall (L : FileLoader) self params r,
     holds_paths params r ->
     never_raises (load_files_from_disk self params)) /\
  (forall self params r,
     holds_content params r ->
     never_raises (save_content_to_file self params)) /\
  (forall self params r,
     holds_memory params r ->
     (forall memory,
        find_input_memory self (memory_name r) = Some memory ->
        exists arts,
          load_artifacts memory (artifact_namespace r) = Return arts) ->
     never_raises (save_memory_artifacts_to_disk self params)) /\
  (forall (L : FileLoader) self params r pre p post loaded e fs,
     holds_paths params r -> paths r = pre ++ p :: post ->
     Forall2 (fun q a => load (workdir self) (Path q) fs = Return a)
       pre loaded ->
     load (workdir self) (Path p) fs = Raise e ->
     load_files_from_disk self params fs
       = (fs, Return (ErrorArtifact
                        (match e with
                         | OSError ENOENT _ =>
                             lit "file in path `" ++ p ++ lit "` not found"
                         | _ => lit "error loading file: " ++ exn_str e
                         end)))) /\
  (forall self params r fs fs' e,
     holds_content params r ->
     _save_to_disk (os_path_join (workdir self) [path r])
       (VStr (content r)) fs = (fs', Raise e) ->
     save_content_to_file self params fs
       = (fs', Return (ErrorArtifact
                         (lit "error writing file to disk: " ++ exn_str e)))) /\
  (forall self params r memory a fs fs' e,
     holds_memory params r ->
     find_input_memory self (memory_name r) = Some memory ->
     load_artifacts memory (artifact_namespace r) = Return [a] ->
     _save_to_disk
       (os_path_join (workdir self) [dir_name r; file_name r])
       (a_value a) fs = (fs', Raise e) ->
     save_memory_artifacts_to_disk self params fs
       = (fs', Return (ErrorArtifact
                         (lit "error writing file to disk: " ++ exn_str e)))) /\
  (forall self params r memory pre a post fs fs1 fs2 e,
     holds_memory params r ->
     find_input_memory self (memory_name r) = Some memory ->
     load_artifacts memory (artifact_namespace r)
       = Return (pre ++ a :: post) ->
     (2 <= length (pre ++ a :: post))%nat ->
     written_in_turn self (dir_name r) (file_name r) pre fs fs1 ->
     _save_to_disk
       (os_path_join (workdir self)
          [dir_name r; a_name a ++ lit "-" ++ file_name r])
       (a_value a) fs1 = (fs2, Raise e) ->
     save_memory_artifacts_to_disk self params fs
       = (fs2, Return (ErrorArtifact
                         (lit "error writing file to disk: " ++ exn_str e)))) /\
  (forall (L : FileLoader) self params fs,
     values_get params (lit "paths") = None ->
     exists key,
       load_files_from_disk self params fs = (fs, Raise (KeyError key))) /\
  (forall self params fs,
     values_get params (lit "content") = None \/
     values_get params (lit "path") = None ->
     exists key,
       save_content_to_file self params fs = (fs, Raise (KeyError key))) /\
  (forall self params fs,
     values_get params (lit "memory_name") = None \/
     values_get params (lit "artifact_namespace") = None \/
     values_get params (lit "dir_name") = None \/
     values_get params (lit "file_name") = None ->
     exists key,
       save_memory_artifacts_to_disk self params fs
         = (fs, Raise (KeyError key))) /\
  (forall self params r memory fs e,
     holds_memory params r ->
     find_input_memory self (memory_name r) = Some memory ->
     load_artifacts memory (artifact_namespace r) = Raise e ->
     save_memory_artifacts_to_disk self params fs = (fs, Raise e)) /\
  (forall (S : Type) (self : TextManagerRamp.t S) value id query s s' e,
     value !! lit "id" = Some id -> value !! lit "query" = Some query ->
     BaseTextStorageDriver.query_record (TextManagerRamp.driver self)
       id query s = (s', Raise e) ->
     TextManagerRamp.search_record self value s = (s', Raise e)) /\
  (forall (S : Type) (self : TextManagerRamp.t S) id s s' e,
     BaseTextStorageDriver.summarize_record (TextManagerRamp.driver self)
       id s = (s', Raise e) ->
     TextManagerRamp.summarize_record self id s = (s', Raise e)) /\
  (forall (S : Type) render (self : TextManagerRamp.t S) act text s s' e,
     BaseTextStorageDriver.save (TextManagerRamp.driver self) text s
       = (s', Raise e) ->
     TextManagerRamp.process_output render self act (TextArtifact text) s
       = (s', Raise e)).
Proof.
  repeat split.
  - intros L self params r Hp. now apply (load_never_raises self params r).
  - intros self params r Hp fs. rewrite (save_content_get _ _ r) by done.
    apply guarded_save_never_raises.
  - intros self params r Hp Hmem fs. rewrite (save_memory_get _ _ r) by done.
    destruct (find_input_memory self (memory_name r)) as [memory|] eqn:Em;
      [|simpl; eauto].
    destruct (Hmem memory eq_refl) as [arts Harts].
    unfold bind at 1. unfold lift. rewrite Harts.
    destruct arts as [|a [|a2 arts]]; [simpl; eauto| |];
      apply guarded_save_never_raises.
  - intros L self params r pre p post loaded e fs Hr Hps Hall Hp.
    rewrite (load_files_get _ _ r) by done. rewrite Hps.
    rewrite (load_loop_first_failure self fs pre p post loaded e [] Hall Hp).
    now destruct e as [[] f| | | | |].
  - intros self params r fs fs' e Hr Hsave.
    rewrite (save_content_get _ _ r) by done.
    now rewrite (guarded_save_eq _ _ _ _ Hsave).
  - intros self params r memory a fs fs' e Hr Hm Ha Hsave.
    rewrite (save_memory_one self params r memory a) by done.
    now rewrite (guarded_save_eq _ _ _ _ Hsave).
  - intros self params r memory pre a post fs fs1 fs2 e Hr Hm Ha Hlen Hpre Hfail.
    rewrite (save_memory_several self params r memory _ fs Hr Hm Ha Hlen).
    assert (Hloop : save_each self (dir_name r) (file_name r)
                      (pre ++ a :: post) fs = (fs2, Raise e)).
    { rewrite (written_in_turn_run _ _ _ _ _ _ Hpre). cbn [save_each].
      now apply bind_raise. }
    now rewrite (guarded_save_eq _ _ _ _ Hloop).
  - intros L self params fs Hg. now apply load_files_missing.
  - intros self params fs Hg. unfold save_content_to_file.
    destruct (values_get params (lit "content")) as [c|] eqn:Hc.
    + destruct Hg as [Hg|Hg]; [discriminate|].
      destruct (values_item_missing _ _ fs Hg) as [k Hk]. exists k.
      rewrite (bind_return _ _ _ _ _ (values_item_get _ _ _ fs Hc)).
      now rewrite (bind_raise _ _ _ _ _ Hk).
    + destruct (values_item_missing _ _ fs Hc) as [k Hk]. exists k.
      now rewrite (bind_raise _ _ _ _ _ Hk).
  - intros self params fs Hg. unfold save_memory_artifacts_to_disk.
    destruct (values_get params (lit "memory_name")) as [mn|] eqn:Hm.
    2:{ destruct (values_item_missing _ _ fs Hm) as [k Hk]. exists k.
        now rewrite (bind_raise _ _ _ _ _ Hk). }
    rewrite (bind_return _ _ _ _ _ (values_item_get _ _ _ fs Hm)).
    destruct (values_get params (lit "artifact_namespace")) as [ns|] eqn:Hn.
    2:{ destruct (values_item_missing _ _ fs Hn) as [k Hk]. exists k.
        now rewrite (bind_raise _ _ _ _ _ Hk). }
    rewrite (bind_return _ _ _ _ _ (values_item_get _ _ _ fs Hn)).
    destruct (values_get params (lit "dir_name")) as [dn|] eqn:Hd.
    2:{ destruct (values_item_missing _ _ fs Hd) as [k Hk]. exists k.
        now rewrite (bind_raise _ _ _ _ _ Hk). }
    rewrite (bind_return _ _ _ _ _ (values_item_get _ _ _ fs Hd)).
    destruct (values_get params (lit "file_name")) as [fn|] eqn:Hf.
    2:{ destruct (values_item_missing _ _ fs Hf) as [k Hk]. exists k.
        now rewrite (bind_raise _ _ _ _ _ Hk). }
    destruct Hg as [Hg|[Hg|[Hg|Hg]]]; discriminate.
  - intros self params r memory fs e Hr Hm Ha.
    rewrite (save_memory_get _ _ r) by done. rewrite Hm.
    unfold bind, lift. now rewrite Ha.
  - intros S self value id query s s' e Hid Hq Hdrv.
    unfold TextManagerRamp.search_record, TextManagerRamp.getitem.
    rewrite Hid, Hq. exact Hdrv.
  - intros S self id s s' e Hdrv. exact Hdrv.
  - intros S render self act text s s' e Hsave.
    unfold TextManagerRamp.process_output, to_text.
    now rewrite (bind_raise _ _ _ _ _ Hsave).
Qed.

Lemma failures_become_error_artifacts_witness :
  never_raises (save_memory_artifacts_to_disk fm_memory
                  (save_memory_params
                     {| dir_name := lit "out"; file_name := lit "f.txt";
                        memory_name := lit "mem";
                        artifact_namespace := lit "two" |})) /\
  save_content_to_file fm_work
    (save_content_params
       {| path := lit "notes/today.txt"; content := lit "hi" |}) fs_blocked
  = (fs_blocked,
     Return (ErrorArtifact
               (lit "error writing file to disk: [Errno 17] File exists: '/work/notes'"))) /\
  save_memory_artifacts_to_disk fm_mixed
    (save_memory_params
       {| dir_name := lit "out"; file_name := lit "f";
          memory_name := lit "mem"; artifact_namespace := lit "ns" |}) fs_work
  = (fst (_save_to_disk (lit "/work/out/y-f") (VObject (lit "int"))
            (fst (_save_to_disk (lit "/work/out/x-f") (VStr (lit "hi"))
                    fs_work))),
     Return (ErrorArtifact
               (lit "error writing file to disk: a bytes-like object is required, not 'int'"))) /\
  TextManagerRamp.summarize_record
    (TextManagerRamp.mk (lit "storage") failing_driver) (lit "k") tt
  = (tt, Raise (Exception (lit "storage unavailable"))).
Proof.
  pose proof failures_become_error_artifacts
    as (_ & _ & Hmem & _ & Hsave & _ & Hloop & _ & _ & _ & _ & _ & Hsum & _).
  split; [|split; [|split]].
  - apply (Hmem fm_memory _ {| dir_name := lit "out"; file_name := lit "f.txt";
                                memory_name := lit "mem";
                                artifact_namespace := lit "two" |}).
    + repeat split; reflexivity.
    + intros memory Hm. vm_compute in Hm. injection Hm as <-.
      eexists. vm_compute. reflexivity.
  - apply (Hsave fm_work _
             {| path := lit "notes/today.txt"; content := lit "hi" |}
             fs_blocked fs_blocked (OSError EEXIST (lit "/work/notes"))).
    + split; reflexivity.
    + vm_compute. reflexivity.
  - apply (Hloop fm_mixed _
             {| dir_name := lit "out"; file_name := lit "f";
                memory_name := lit "mem"; artifact_namespace := lit "ns" |}
             mixed_memory
             [ {| a_name := lit "x"; a_value := VStr (lit "hi") |} ]
             {| a_name := lit "y"; a_value := VObject (lit "int") |}
             [ {| a_name := lit "z"; a_value := VBytes [] |} ]
             fs_work
             (fst (_save_to_disk (lit "/work/out/x-f") (VStr (lit "hi"))
                     fs_work))
             _
             (TypeError
                (lit "a bytes-like object is required, not 'int'"))).
    + repeat split; reflexivity.
    + reflexivity.
    + reflexivity.
    + simpl. lia.
    + econstructor; [|constructor]. vm_compute. reflexivity.
    + vm_compute. reflexivity.
  - apply Hsum. vm_compute. reflexivity.
Defined.

(** C3: with the loader of the file system, when some path [p] of the
    list names no regular file the result of [load_files_from_disk] is an
    error artifact, returned and not raised; and when the first path that
    fails is [p] and the failure is that nothing is found there, the
    message is [file in path `p` not found]. *)
Theorem load_missing_file_is_error (self : FileManager.t) (fs : fsys) :
  (forall ps p,
     In p ps -> ~ names_file fs (workdir self) p ->
     exists msg,
       load_files_from_disk self (load_params {| paths := ps |}) fs
         = (fs, Return (ErrorArtifact msg))) /\
  (forall pre p post f,
     Forall (names_file fs (workdir self)) pre ->
     read_file (os_path_join (workdir self) [fspath (Path p)]) fs
       = Raise (OSError ENOENT f) ->
     load_files_from_disk self
       (load_params {| paths := pre ++ p :: post |}) fs
       = (fs, Return (ErrorArtifact
                        (lit "file in path `" ++ p ++ lit "` not found")))).
Proof.
  split.
  - intros ps p Hin Hno. rewrite load_files_eq. cbn [paths].
    destruct (load_loop_outcome self fs ps [])
      as [(loaded & Hall & _)|(pre & q & post & loaded & e & _ & _ & _ & E)].
    + exfalso. apply Hno. clear Hno.
      induction Hall as [|q a ps loaded Hq _ IH]; [destruct Hin|].
      destruct Hin as [->|Hin]; [|now apply IH].
      now apply (posix_load_return fs _ p a).
    + rewrite E. destruct (load_error_is_error q e) as [msg ->]. now exists msg.
  - intros pre p post f Hpre Hread. rewrite load_files_eq. cbn [paths].
    assert (exists loaded,
      Forall2 (fun q a => load (workdir self) (Path q) fs = Return a) pre loaded)
      as [loaded Hall].
    { induction Hpre as [|q pre Hq _ [loaded IH]]; [exists []; constructor|].
      destruct (names_file_load _ _ _ Hq) as [b Hb].
      exists (BlobArtifact b :: loaded). now constructor. }
    rewrite (load_loop_first_failure self fs pre p post loaded
               (OSError ENOENT f) [] Hall); [reflexivity|].
    cbn [load posix_loader]. unfold posix_load. now rewrite Hread.
Qed.

Lemma load_missing_file_is_error_witness :
  (exists msg,
     load_files_from_disk fm_work
       (load_params {| paths := [lit "a.txt"; lit "missing.txt"] |}) fs_file
     = (fs_file, Return (ErrorArtifact msg))) /\
  load_files_from_disk fm_work
    (load_params {| paths := [lit "a.txt"; lit "missing.txt"; lit "a.txt"] |})
    fs_file
  = (fs_file,
     Return (ErrorArtifact (lit "file in path `missing.txt` not found"))).
Proof.
  destruct (load_missing_file_is_error fm_work fs_file) as [Hany Hfirst].
  split.
  - apply (Hany _ (lit "missing.txt")).
    + right. left. reflexivity.
    + intros (loc & d & Hres & Hn). vm_compute in Hres.
      injection Hres as <-. vm_compute in Hn. discriminate.
  - apply (Hfirst [lit "a.txt"] (lit "missing.txt") [lit "a.txt"]
             (lit "/work/missing.txt")).
    + constructor; [|constructor].
      exists [lit "work"; lit "a.txt"], (List.map octet [104; 105]).
      split; vm_compute; reflexivity.
    + vm_compute. reflexivity.
Defined.






(** C6: [process_output] returns a value that is not a [TextArtifact] as
    it is, without a call to the driver; for a [TextArtifact] it saves the
    text with the driver and returns a [TextArtifact] of the template
    rendered with the key the driver returned. *)
Theorem process_output_wraps_text {S : Type}
  (render : pystr -> pystr -> pystr -> pystr -> pystr)
  (self : TextManagerRamp.t S) (tool_activity : TextManagerRamp.Activity)
  (value : artifact) :
  ((forall text, value <> TextArtifact text) ->
   forall s,
     TextManagerRamp.process_output render self tool_activity value s
       = (s, Return value)) /\
  (forall text s s' key,
     value = TextArtifact text ->
     BaseTextStorageDriver.save (TextManagerRamp.driver self) text s
       = (s', Return key) ->
     TextManagerRamp.process_output render self tool_activity value s
       = (s', Return (TextArtifact
                        (render (TextManagerRamp.name self)
                           (TextManagerRamp.tool_name tool_activity)
                           (TextManagerRamp.activity_name tool_activity) key)))).
Proof.
  split.
  - intros Hv s. destruct value; try reflexivity. now destruct (Hv value).
  - intros text s s' key -> Hsave.
    unfold TextManagerRamp.process_output, to_text.
    now rewrite (bind_return _ _ _ _ _ Hsave).
Qed.

Lemma process_output_wraps_text_witness :
  TextManagerRamp.process_output sample_render
    (TextManagerRamp.mk (lit "storage") list_driver)
    {| TextManagerRamp.tool_name := lit "tool";
       TextManagerRamp.activity_name := lit "run" |}
    (TextArtifact (lit "hello")) [lit "first"]
  = ([lit "first"; lit "hello"],
     Return (TextArtifact
               (lit "Output of tool.run was stored in storage with key k"))) /\
  TextManagerRamp.process_output sample_render
    (TextManagerRamp.mk (lit "storage") list_driver)
    {| TextManagerRamp.tool_name := lit "tool";
       TextManagerRamp.activity_name := lit "run" |}
    (InfoArtifact (lit "done")) [lit "first"]
  = ([lit "first"], Return (InfoArtifact (lit "done"))).
Proof.
  split.
  - apply (proj2 (process_output_wraps_text sample_render
                    (TextManagerRamp.mk (lit "storage") list_driver)
                    {| TextManagerRamp.tool_name := lit "tool";
                       TextManagerRamp.activity_name := lit "run" |}
                    (TextArtifact (lit "hello")))
             (lit "hello") [lit "first"] [lit "first"; lit "hello"] (lit "k")).
    + reflexivity.
    + reflexivity.
  - apply (proj1 (process_output_wraps_text sample_render
                    (TextManagerRamp.mk (lit "storage") list_driver)
                    {| TextManagerRamp.tool_name := lit "tool";
                       TextManagerRamp.activity_name := lit "run" |}
                    (InfoArtifact (lit "done")))).
    intros text. discriminate.
Defined.

(** C7: [search_record] is the driver's [query_record] on the id and the
    query of the dictionary, and [summarize_record] is the driver's
    [summarize_record], as computations: the same result, returned or
    raised, and the same store, from every store. *)
Theorem record_methods_delegate {S : Type} (self : TextManagerRamp.t S) :
  (forall value id query,
     value !! lit "id" = Some id -> value !! lit "query" = Some query ->
     TextManagerRamp.search_record self value
       = BaseTextStorageDriver.query_record (TextManagerRamp.driver self)
           id query) /\
  (forall id,
     TextManagerRamp.summarize_record self id
       = BaseTextStorageDriver.summarize_record (TextManagerRamp.driver self)
           id).
Proof.
  split.
  - intros value id query Hid Hq.
    unfold TextManagerRamp.search_record, TextManagerRamp.getitem.
    rewrite Hid, Hq. reflexivity.
  - reflexivity.
Qed.

Lemma record_methods_delegate_witness :
  TextManagerRamp.search_record
    (TextManagerRamp.mk (lit "storage") list_driver) sample_query
  = BaseTextStorageDriver.query_record list_driver (lit "k") (lit "what").
Proof.
  apply (proj1 (record_methods_delegate
                  (TextManagerRamp.mk (lit "storage") list_driver))
           sample_query (lit "k") (lit "what")).
  - vm_compute. reflexivity.
  - vm_compute. reflexivity.
Defined.

(** C8, as stated, fails: a save into a directory that is not there
    does not always make it.  With a regular file [/work/notes] the
    directory [/work/notes/2024] cannot be made; a name of 256 bytes is
    too long for a directory; a lone surrogate in a name has no
    encoding for the file system; and [os.makedirs], which calls itself
    once for every directory that is missing, fails where the
    interpreter takes no further call.  Each time the save answers with
    an error artifact. *)
Lemma save_blocked_by_file :
  (path_exists (lit "/work/notes/2024") fs_blocked
     = (fs_blocked, Return false) /\
   save_content_to_file fm_work
     (save_content_params
        {| path := lit "notes/2024/today.txt"; content := lit "hi" |})
     fs_blocked
   = (fs_blocked,
      Return (ErrorArtifact
                (lit "error writing file to disk: [Errno 20] Not a directory: '/work/notes/2024'")))) /\
  save_content_to_file fm_work
    (save_content_params
       {| path := repeat 97 256 ++ lit "/today.txt"; content := lit "hi" |})
    fs_work
  = (fs_work,
     Return (ErrorArtifact
               (lit "error writing file to disk: [Errno 36] File name too long: '/work/"
                ++ repeat 97 256 ++ lit "'"))) /\
  save_content_to_file fm_work
    (save_content_params
       {| path := lone_surrogate ++ lit "/today.txt"; content := lit "hi" |})
    fs_work
  = (fs_work,
     Return (ErrorArtifact
               (lit "error writing file to disk: 'utf-8' codec can't encode character '\ud800' in position 6: surrogates not allowed"))) /\
  makedirs 3 (lit "/work/a/b/c/d") fs_work
  = (fs_work, Raise (Exception (lit "maximum recursion depth exceeded"))).
Proof. repeat split; vm_compute; reflexivity. Qed.

(** C8, amended: in a file tree of directories and regular files that
    the process may change, a save whose joined path is taken by the
    file system (it encodes, has no NUL, is shorter than [PATH_MAX], no
    name in it is longer than [NAME_MAX]) and ends in a name, whose way
    down to the directory of the path meets no regular file, whose
    target is no directory, whose value has bytes, and whose path has at
    most 256 components, so that [os.makedirs] stays within the limit of
    the interpreter on nested calls: such a save makes every directory
    that is missing, keeps those that are there, writes the file and
    reports success.  [save_walk] is that walk.  This holds for
    [save_content_to_file], and for [save_memory_artifacts_to_disk] with
    one artifact and with several, saved one after the other.  Into a
    directory that is there the save makes no directory and writes the
    file. *)
Theorem save_creates_parent_directories (self : FileManager.t) :
  is_absolute (Path (workdir self)) = true ->
  (forall params r data fs fs',
     holds_content params r ->
     utf8_encode (content r) = Some data ->
     (length (split_sep (os_path_join (workdir self) [path r])) <= 256)%nat ->
     save_walk fs (os_path_join (workdir self) [path r]) data = Some fs' ->
     save_content_to_file self params fs
       = (fs', Return (InfoArtifact (lit "saved successfully")))) /\
  (forall params r memory a data fs fs',
     holds_memory params r ->
     find_input_memory self (memory_name r) = Some memory ->
     load_artifacts memory (artifact_namespace r) = Return [a] ->
     value_bytes (a_value a) = Some data ->
     (length (split_sep
                (os_path_join (workdir self) [dir_name r; file_name r]))
      <= 256)%nat ->
     save_walk fs (os_path_join (workdir self) [dir_name r; file_name r])
       data = Some fs' ->
     save_memory_artifacts_to_disk self params fs
       = (fs', Return (InfoArtifact (lit "saved successfully")))) /\
  (forall params r memory a1 a2 arts files fs fs',
     holds_memory params r ->
     find_input_memory self (memory_name r) = Some memory ->
     load_artifacts memory (artifact_namespace r)
       = Return (a1 :: a2 :: arts) ->
     Forall2 (fun a fd =>
       fst fd = os_path_join (workdir self)
                  [dir_name r; a_name a ++ lit "-" ++ file_name r] /\
       value_bytes (a_value a) = Some (snd fd)) (a1 :: a2 :: arts) files ->
     Forall (fun fd => (length (split_sep (fst fd)) <= 256)%nat) files ->
     save_walks fs files = Some fs' ->
     save_memory_artifacts_to_disk self params fs
       = (fs', Return (InfoArtifact (lit "saved successfully")))) /\
  (forall f data fs fs',
     startswith_sep f = true -> save_walk fs f data = Some fs' ->
     (forall l, node_at fs l = Some Dir -> node_at fs' l = Some Dir) /\
     os_stat (dirname f) fs' = Return Dir /\
     read_file f fs' = Return data) /\
  (forall f data fs loc,
     startswith_sep f = true ->
     admits f = true ->
     is_name (List.last (split_sep f) []) = true ->
     fs_len (List.last (split_sep f) []) <= NAME_MAX ->
     resolve fs (dirname f) = Return loc -> node_at fs loc = Some Dir ->
     node_at fs (loc ++ [List.last (split_sep f) []]) <> Some Dir ->
     save_walk fs f data
     = Some (set_node fs (loc ++ [List.last (split_sep f) []]) (File data))).
Proof.
  rewrite is_absolute_Path. intros Hw. split; [|split; [|split; [|split]]].
  - intros params r data fs fs' Hr Hdata _ Hwalk.
    rewrite (save_content_get _ _ r) by done.
    now rewrite (guarded_save_eq _ _ _ _
                   (save_to_disk_walk fs _ (VStr (content r)) data fs'
                      (os_path_join_absolute _ _ Hw) Hwalk Hdata)).
  - intros params r memory a data fs fs' Hr Hm Ha Hv _ Hwalk.
    rewrite (save_memory_one _ _ r memory a) by done.
    now rewrite (guarded_save_eq _ _ _ _
                   (save_to_disk_walk fs _ (a_value a) data fs'
                      (os_path_join_absolute _ _ Hw) Hwalk Hv)).
  - intros params r memory a1 a2 arts files fs fs' Hr Hm Ha Hall _ Hwalk.
    rewrite (save_memory_several _ _ r memory (a1 :: a2 :: arts))
      by (done || simpl; lia).
    now rewrite (guarded_save_eq _ _ _ _
                   (save_each_walks self _ _ _ files fs fs' Hw Hall Hwalk)).
  - intros f data fs fs'. apply save_walk_leaves.
  - intros f data fs loc. apply save_walk_existing.
Qed.

Lemma save_creates_parent_directories_witness :
  save_content_to_file fm_work
    (save_content_params
       {| path := lit "a//b/../c/./d.txt"; content := sample_text |}) fs_work
  = (set_node
       (set_node
          (set_node
             (set_node fs_work [lit "work"; lit "a"] Dir)
             [lit "work"; lit "a"; lit "b"] Dir)
          [lit "work"; lit "a"; lit "c"] Dir)
       [lit "work"; lit "a"; lit "c"; lit "d.txt"]
       (File (List.map octet [104; 195; 169; 226; 130; 172])),
     Return (InfoArtifact (lit "saved successfully"))).
Proof.
  refine (proj1 (save_creates_parent_directories fm_work _)
            (save_content_params
               {| path := lit "a//b/../c/./d.txt"; content := sample_text |})
            {| path := lit "a//b/../c/./d.txt"; content := sample_text |}
            (List.map octet [104; 195; 169; 226; 130; 172]) fs_work _ _ _ _ _).
  - reflexivity.
  - split; reflexivity.
  - reflexivity.
  - vm_compute. lia.
  - vm_compute. reflexivity.
Defined.

(** C9: [load_files_from_disk] goes through the paths in order and stops
    at the first path [p] that fails to load: whatever paths [post] come
    after it, the result is the single error artifact for [p], and the
    artifacts [loaded] for the paths [pre] before it are not part of it.
    A result that is a list holds an artifact for every path. *)
Theorem load_stops_at_first_failure `{FileLoader} (self : FileManager.t)
  (fs : fsys) :
  (forall pre p post loaded e,
     Forall2 (fun q a => load (workdir self) (Path q) fs = Return a)
       pre loaded ->
     load (workdir self) (Path p) fs = Raise e ->
     load_files_from_disk self
       (load_params {| paths := pre ++ p :: post |}) fs
       = (fs, Return (load_error p e)) /\
     exists msg, load_error p e = ErrorArtifact msg) /\
  (forall params fs' l,
     load_files_from_disk self (load_params params) fs
       = (fs', Return (ListArtifact l)) ->
     Forall2 (fun q a => load (workdir self) (Path q) fs = Return a)
       (paths params) l).
Proof.
  split.
  - intros pre p post loaded e Hall Hp. split; [|apply load_error_is_error].
    rewrite load_files_eq. cbn [paths].
    now apply (load_loop_first_failure self fs pre p post loaded).
  - intros params fs' l Hres. rewrite load_files_eq in Hres.
    destruct (load_loop_outcome self fs (paths params) [])
      as [(loaded & Hall & E)|(pre & p & post & loaded & e & _ & _ & _ & E)];
      rewrite E in Hres.
    + now injection Hres as _ <-.
    + destruct (load_error_is_error p e) as [msg Hmsg].
      rewrite Hmsg in Hres. discriminate.
Qed.

Lemma load_stops_at_first_failure_witness :
  load_files_from_disk fm_work
    (load_params {| paths := [lit "a.txt"; lit "missing.txt"; lit "a.txt"] |})
    fs_file
  = (fs_file,
     Return (load_error (lit "missing.txt")
               (OSError ENOENT (lit "/work/missing.txt")))).
Proof.
  apply (proj1 (load_stops_at_first_failure fm_work fs_file)
           [lit "a.txt"] (lit "missing.txt") [lit "a.txt"]
           [BlobArtifact (List.map octet [104; 105])]
           (OSError ENOENT (lit "/work/missing.txt"))).
  - constructor; [|constructor]. vm_compute. reflexivity.
  - vm_compute. reflexivity.
Defined.

(** C10: the cases of [save_memory_artifacts_to_disk].  Without the named
    memory the result is the error [memory not found]; with no artifact in
    the namespace it is [no artifacts found]; with one artifact, that one
    is written to [workdir/dir_name/file_name]; with several, each one in
    turn is written to [workdir/dir_name/{a.name}-{file_name}]; and when
    the writes return the result is [saved successfully]. *)
Theorem save_memory_artifacts_cases (self : FileManager.t)
  (params : SaveMemoryParams) (fs : fsys) :
  (find_input_memory self (memory_name params) = None ->
   save_memory_artifacts_to_disk self (save_memory_params params) fs
     = (fs, Return (ErrorArtifact (lit "memory not found")))) /\
  (forall memory,
     find_input_memory self (memory_name params) = Some memory ->
     (load_artifacts memory (artifact_namespace params) = Return [] ->
      save_memory_artifacts_to_disk self (save_memory_params params) fs
        = (fs, Return (ErrorArtifact (lit "no artifacts found")))) /\
     (forall a fs',
        load_artifacts memory (artifact_namespace params) = Return [a] ->
        _save_to_disk
          (os_path_join (workdir self) [dir_name params; file_name params])
          (a_value a) fs = (fs', Return tt) ->
        save_memory_artifacts_to_disk self (save_memory_params params) fs
          = (fs', Return (InfoArtifact (lit "saved successfully"))) /\
        exists data,
          value_bytes (a_value a) = Some data /\
          read_file
            (os_path_join (workdir self) [dir_name params; file_name params])
            fs' = Return data) /\
     (forall a1 a2 arts fs',
        load_artifacts memory (artifact_namespace params)
          = Return (a1 :: a2 :: arts) ->
        written_in_turn self (dir_name params) (file_name params)
          (a1 :: a2 :: arts) fs fs' ->
        save_memory_artifacts_to_disk self (save_memory_params params) fs
          = (fs', Return (InfoArtifact (lit "saved successfully"))))).
Proof.
  pose proof (holds_save_memory_params params) as Hp.
  split.
  - intros E. rewrite save_memory_eq. now rewrite E.
  - intros memory Em. split; [|split].
    + intros El. rewrite save_memory_eq, Em. unfold bind, lift.
      now rewrite El.
    + intros a fs' El Hsave. split; [|now apply (save_to_disk_read _ _ fs)].
      rewrite (save_memory_one _ _ params memory a) by done.
      now rewrite (guarded_save_eq _ _ _ _ Hsave).
    + intros a1 a2 arts fs' El Hw.
      rewrite (save_memory_several _ _ params memory (a1 :: a2 :: arts))
        by (done || simpl; lia).
      now rewrite (guarded_save_eq _ _ _ _ (written_in_turn_returns _ _ _ _ _ _ Hw)).
Qed.

Lemma save_memory_artifacts_cases_witness :
  (save_memory_artifacts_to_disk fm_memory
    (save_memory_params
       {| dir_name := lit "out"; file_name := lit "f.txt";
          memory_name := lit "other"; artifact_namespace := lit "one" |})
    fs_work
  = (fs_work, Return (ErrorArtifact (lit "memory not found"))) /\
  save_memory_artifacts_to_disk fm_memory
    (save_memory_params
       {| dir_name := lit "out"; file_name := lit "f.txt";
          memory_name := lit "mem"; artifact_namespace := lit "none" |})
    fs_work
  = (fs_work, Return (ErrorArtifact (lit "no artifacts found")))) /\
  ((exists fs',
     save_memory_artifacts_to_disk fm_memory
       (save_memory_params
          {| dir_name := lit "out"; file_name := lit "f.txt";
             memory_name := lit "mem"; artifact_namespace := lit "one" |})
       fs_work
     = (fs', Return (InfoArtifact (lit "saved successfully"))) /\
     read_file (lit "/work/out/f.txt") fs' = Return (List.map octet [104; 105])) /\
  (exists fs',
     save_memory_artifacts_to_disk fm_memory
       (save_memory_params
          {| dir_name := lit "out"; file_name := lit "f.txt";
             memory_name := lit "mem"; artifact_namespace := lit "two" |})
       fs_work
     = (fs', Return (InfoArtifact (lit "saved successfully"))) /\
     read_file (lit "/work/out/x-f.txt") fs' = Return (List.map octet [104; 105]) /\
     read_file (lit "/work/out/y-f.txt") fs' = Return [])).
Proof.
  split.
  { split.
      - apply (proj1 (save_memory_artifacts_cases fm_memory _ fs_work)).
        vm_compute. reflexivity.
      - apply (proj1 (proj2 (save_memory_artifacts_cases fm_memory
                               {| dir_name := lit "out"; file_name := lit "f.txt";
                                  memory_name := lit "mem";
                                  artifact_namespace := lit "none" |} fs_work)
                        sample_memory ltac:(vm_compute; reflexivity))).
        vm_compute. reflexivity. }
  { split.
      - eexists. split.
        + apply (proj1 (proj2 (proj2 (save_memory_artifacts_cases fm_memory
                   {| dir_name := lit "out"; file_name := lit "f.txt";
                      memory_name := lit "mem"; artifact_namespace := lit "one" |}
                   fs_work) sample_memory ltac:(vm_compute; reflexivity)))
                   {| a_name := lit "x"; a_value := VStr (lit "hi") |}).
          * vm_compute. reflexivity.
          * vm_compute. reflexivity.
        + vm_compute. reflexivity.
      - eexists. split; [|split].
        + apply (proj2 (proj2 (proj2 (save_memory_artifacts_cases fm_memory
                   {| dir_name := lit "out"; file_name := lit "f.txt";
                      memory_name := lit "mem"; artifact_namespace := lit "two" |}
                   fs_work) sample_memory ltac:(vm_compute; reflexivity)))
                   {| a_name := lit "x"; a_value := VStr (lit "hi") |}
                   {| a_name := lit "y"; a_value := VBytes [] |} []).
          * vm_compute. reflexivity.
          * eapply written_cons; [vm_compute; reflexivity|].
            eapply written_cons; [vm_compute; reflexivity|].
            apply written_nil.
        + vm_compute. reflexivity.
        + vm_compute. reflexivity. }
Defined.

(** ** Further lemmas on saving *)

(** *** Saving over what is there *)

(** [os.makedirs] of a directory that is there does nothing. *)
Lemma makedirs_existing fs d :
  startswith_sep d = true ->
  (forallb is_sep d = true \/ endswith_sep d = false) ->
  os_stat d fs = Return Dir ->
  os_makedirs d fs = (fs, Return tt).
Proof.
  intros Hs Hnorm Hst. unfold os_stat in Hst.
  destruct (resolve fs d) as [loc|e] eqn:Hres; [|discriminate].
  destruct (node_at fs loc) as [[|data]|] eqn:Hn; try discriminate.
  apply lookup_inv in Hres as [Hadm Hw]. rewrite Hs in Hw.
  pose proof (namei_mkwalk _ _ _ _ Hw) as Hm. rewrite Hn in Hm.
  apply (makedirs_walk (S (length d)) d _ fs fs loc); try done; try lia.
  now apply (namei_names_fit fs _ [] loc).
Qed.

(** A path that resolves to a regular file does not end in a slash. *)
Lemma resolved_file_no_slash fs f loc d :
  resolve fs f = Return loc -> node_at fs loc = Some (File d) ->
  endswith_sep f = false.
Proof.
  intros Hres Hn. destruct (endswith_sep f) eqn:E; [|done]. exfalso.
  apply lookup_inv in Hres as [_ Hw].
  apply endswith_sep_app in E as [w0 ->].
  rewrite (split_sep_app w0 []), namei_app in Hw. simpl in Hw.
  destruct (namei fs _ (split_sep w0)) as [e|l]; [discriminate|].
  destruct (node_at fs l) as [[|d']|] eqn:El; try discriminate.
  injection Hw as <-. congruence.
Qed.

(** A save to an absolute path that resolves to a regular file: the
    directories are left alone, the file is emptied, and then written if
    the value has bytes. *)
Lemma save_to_disk_existing_file fs f loc d0 v :
  startswith_sep f = true ->
  resolve fs f = Return loc -> node_at fs loc = Some (File d0) ->
  match value_bytes v with
  | Some data =>
      _save_to_disk f v fs = (set_node fs loc (File data), Return tt)
  | None =>
      exists e,
        write_arg v (set_node fs loc (File []))
          = (set_node fs loc (File []), Raise e) /\
        _save_to_disk f v fs = (set_node fs loc (File []), Raise e)
  end.
Proof.
  intros Hs Hres Hn.
  destruct (dirname_of_resolved fs f loc Hs Hres) as (Hst & Hds & Hnorm).
  assert (Hne : loc <> []) by (intros ->; discriminate).
  assert (Hopen : open_wb f fs = (set_node fs loc (File []), Return loc)).
  { unfold open_wb. rewrite (resolved_file_no_slash _ _ _ _ Hres Hn).
    cbn [andb]. now rewrite Hres, Hn. }
  assert (Hrun : _save_to_disk f v fs =
                 (data <- write_arg v ;; file_write loc data)%py
                   (set_node fs loc (File []))).
  { unfold _save_to_disk.
    rewrite (bind_return _ _ _ _ _ (makedirs_existing fs _ Hds Hnorm Hst)).
    now rewrite (bind_return _ _ _ _ _ Hopen). }
  rewrite Hrun.
  pose proof (write_arg_bytes v (set_node fs loc (File []))) as Hw.
  destruct (value_bytes v) as [data|] eqn:Ev.
  - rewrite (bind_return _ _ _ _ _ Hw).
    unfold file_write. rewrite node_at_set_eq by done.
    now rewrite set_node_twice.
  - destruct Hw as [e Hw]. exists e. split; [done|]. now apply bind_raise.
Qed.

(** *** What a save leaves alone *)

Section Preserves.
Variable R : fsys -> fsys -> Prop.
Hypothesis R_refl : forall fs, R fs fs.
Hypothesis R_trans : forall a b c, R a b -> R b c -> R a c.
Hypothesis R_mkdir : forall s, preserves R (os_mkdir s).

Lemma preserves_ret {A} (a : A) : preserves R (ret a).
Proof. intros fs fs' r [= <- _]. apply R_refl. Qed.

Lemma preserves_raise {A} e : preserves R (@raise fsys A e).
Proof. intros fs fs' r [= <- _]. apply R_refl. Qed.

Lemma preserves_gets {A} (f : fsys -> A) : preserves R (gets f).
Proof. intros fs fs' r [= <- _]. apply R_refl. Qed.

Lemma preserves_bind {A B} (m : M fsys A) (k : A -> M fsys B) :
  preserves R m -> (forall a, preserves R (k a)) -> preserves R (bind m k).
Proof.
  intros Hm Hk fs fs' r. unfold bind.
  destruct (m fs) as [fs1 [a|e]] eqn:E; intros H.
  - apply R_trans with fs1; [now apply (Hm _ _ _ E)|].
    now apply (Hk a _ _ _ H).
  - injection H as <- _. now apply (Hm _ _ _ E).
Qed.

Lemma preserves_try {A} (m : M fsys A) (h : exn -> M fsys A) :
  preserves R m -> (forall e, preserves R (h e)) ->
  preserves R (try_except m h).
Proof.
  intros Hm Hh fs fs' r. unfold try_except.
  destruct (m fs) as [fs1 [a|e]] eqn:E; intros H.
  - injection H as <- _. now apply (Hm _ _ _ E).
  - apply R_trans with fs1; [now apply (Hm _ _ _ E)|].
    now apply (Hh e _ _ _ H).
Qed.

Lemma preserves_mkdir_exist_ok s : preserves R (mkdir_exist_ok s).
Proof.
  apply preserves_try; [apply R_mkdir|].
  intros [n f|m|m|k|m|m]; try apply preserves_raise.
  apply preserves_bind; [apply preserves_gets|].
  intros [|]; [apply preserves_ret|apply preserves_raise].
Qed.

(** What [os.mkdir] preserves, [os.makedirs] preserves. *)
Lemma preserves_makedirs fuel : forall name, preserves R (makedirs fuel name).
Proof.
  induction fuel as [|n IH]; intros name; [apply preserves_raise|].
  rewrite makedirs_S. destruct (posix_split name) as [head0 tail0].
  destruct (if is_nil tail0 then posix_split head0 else (head0, tail0))
    as [head tail].
  apply preserves_bind.
  { destruct (negb (is_nil head) && negb (is_nil tail));
      [|apply preserves_ret].
    apply preserves_bind; [apply preserves_gets|].
    intros b. apply preserves_ret. }
  intros missing. apply preserves_bind.
  { destruct missing; [|apply preserves_ret].
    apply preserves_bind; [|intros; apply preserves_ret].
    apply preserves_try; [apply IH|].
    intros [[] f|m|m|k|m|m]; apply preserves_raise || apply preserves_ret. }
  intros [|]; [apply preserves_ret|apply preserves_mkdir_exist_ok].
Qed.
End Preserves.

Lemma keeps_nodes_refl fs : keeps_nodes fs fs.
Proof. now split. Qed.

Lemma keeps_nodes_trans a b c :
  keeps_nodes a b -> keeps_nodes b c -> keeps_nodes a c.
Proof. intros [E1 H1] [E2 H2]. split; [congruence|]. auto. Qed.

Lemma keeps_nodes_dirs fs fs' : keeps_nodes fs fs' -> keeps_dirs fs fs'.
Proof. intros [E H]. split; [done|]. intros l. apply H. Qed.

Lemma keeps_nodes_mkdir s : preserves keeps_nodes (os_mkdir s).
Proof.
  intros fs fs' r. unfold os_mkdir.
  destruct (lookup fs s _) as [loc|e]; [|intros [= <- _]; apply keeps_nodes_refl].
  destruct (node_at fs loc) eqn:E; [intros [= <- _]; apply keeps_nodes_refl|].
  destruct (is_name _); intros [= <- _]; [|apply keeps_nodes_refl].
  split; [done|]. intros l n Hl. rewrite node_at_set_ne; [done|].
  intros ->. congruence.
Qed.

Lemma keeps_nodes_makedirs fuel name :
  preserves keeps_nodes (makedirs fuel name).
Proof.
  apply preserves_makedirs;
    [apply keeps_nodes_refl|apply keeps_nodes_trans|apply keeps_nodes_mkdir].
Qed.

(** What any call of [_save_to_disk] leaves alone: every directory, and
    every regular file but the one the path resolves to, which stays a
    regular file. *)
Lemma save_to_disk_frame f v fs fs' r :
  _save_to_disk f v fs = (fs', r) ->
  keeps_dirs fs fs' /\
  forall l d,
    node_at fs l = Some (File d) ->
    node_at fs' l = Some (File d) \/
    (resolve fs' f = Return l /\ exists d', node_at fs' l = Some (File d')).
Proof.
  unfold _save_to_disk, bind.
  destruct (os_makedirs (dirname f) fs) as [fs1 [[]|e]] eqn:Emk.
  2:{ intros [= <- _]. apply keeps_nodes_makedirs in Emk.
      split; [now apply keeps_nodes_dirs|]. intros l d Hl. left.
      now apply Emk. }
  apply keeps_nodes_makedirs in Emk. pose proof Emk as [_ Hk].
  assert (Hnochange : fs' = fs1 ->
    keeps_dirs fs fs' /\
    forall l d, node_at fs l = Some (File d) ->
      node_at fs' l = Some (File d) \/
      (resolve fs' f = Return l /\ exists d', node_at fs' l = Some (File d'))).
  { intros ->. split; [now apply keeps_nodes_dirs|]. intros l d Hl. left.
    now apply Hk. }
  assert (Hwritten : forall loc d1,
    resolve fs1 f = Return loc -> node_at fs1 loc <> Some Dir -> loc <> [] ->
    fs' = set_node fs1 loc (File d1) ->
    keeps_dirs fs fs' /\
    forall l d, node_at fs l = Some (File d) ->
      node_at fs' l = Some (File d) \/
      (resolve fs' f = Return l /\ exists d', node_at fs' l = Some (File d'))).
  { intros loc d1 Hres Hnd Hne ->.
    pose proof (keeps_dirs_set fs1 loc (File d1) Hnd) as K2.
    split; [apply keeps_dirs_trans with fs1; [now apply keeps_nodes_dirs|done]|].
    intros l d Hl. destruct (decide (l = loc)) as [->|Hneq].
    - right. split; [now apply (resolve_keeps fs1)|].
      exists d1. now apply node_at_set_eq.
    - left. rewrite node_at_set_ne by done. now apply Hk. }
  destruct (open_wb f fs1) as [fs2 [loc|e]] eqn:Eop.
  2:{ intros [= <- _]. apply Hnochange. now apply open_wb_raise in Eop. }
  apply open_wb_inv in Eop as (Hres & Hnd & Hne & ->).
  intros H.
  pose proof (write_arg_bytes v (set_node fs1 loc (File []))) as Hw.
  destruct (value_bytes v) as [data|].
  - rewrite Hw in H. unfold file_write in H.
    rewrite node_at_set_eq in H by done.
    injection H as <- _. apply (Hwritten loc ([] ++ data)); try done.
    now rewrite set_node_twice.
  - destruct Hw as [e Hw]. rewrite Hw in H. injection H as <- _.
    now apply (Hwritten loc []).
Qed.

Lemma never_removes_refl fs : never_removes fs fs.
Proof. split; eauto. Qed.

Lemma never_removes_trans a b c :
  never_removes a b -> never_removes b c -> never_removes a c.
Proof.
  intros [D1 F1] [D2 F2]. split; [auto|].
  intros l d Hl. destruct (F1 _ _ Hl) as [d1 H1]. eauto.
Qed.

Lemma save_to_disk_never_removes f v fs fs' r :
  _save_to_disk f v fs = (fs', r) -> never_removes fs fs'.
Proof.
  intros [[_ K] F]%save_to_disk_frame. split; [exact K|].
  intros l d Hl. destruct (F _ _ Hl) as [H|[_ H]]; eauto.
Qed.

Lemma save_each_never_removes self dir file arts : forall fs fs' r,
  save_each self dir file arts fs = (fs', r) -> never_removes fs fs'.
Proof.
  induction arts as [|a arts IH]; intros fs fs' r.
  - intros [= <- _]. apply never_removes_refl.
  - cbn [save_each]. unfold bind.
    destruct (_save_to_disk _ (a_value a) fs) as [fs1 [[]|e]] eqn:Es; intros H.
    + apply never_removes_trans with fs1; [|now apply (IH _ _ r)].
      now apply save_to_disk_never_removes in Es.
    + injection H as <- _. now apply save_to_disk_never_removes in Es.
Qed.

(** ** Further properties of the file manager and the ramp *)

(** X1: saving again to the path of a successful save replaces the content
    of the file and changes nothing else; saving the same content again
    leaves the tree as it is. *)
Theorem save_content_again (self : FileManager.t) (p c1 : pystr)
  (fs fs1 : fsys) :
  is_absolute (Path (workdir self)) = true ->
  save_content_to_file self
    (save_content_params {| path := p; content := c1 |}) fs
    = (fs1, Return (InfoArtifact (lit "saved successfully"))) ->
  exists loc,
    resolve fs1 (os_path_join (workdir self) [p]) = Return loc /\
    (forall c2 data2,
       utf8_encode c2 = Some data2 ->
       save_content_to_file self
         (save_content_params {| path := p; content := c2 |}) fs1
         = (set_node fs1 loc (File data2),
            Return (InfoArtifact (lit "saved successfully")))) /\
    save_content_to_file self
      (save_content_params {| path := p; content := c1 |}) fs1
      = (fs1, Return (InfoArtifact (lit "saved successfully"))).
Proof.
  rewrite is_absolute_Path. intros Hw Hsave.
  rewrite save_content_eq in Hsave. cbn [path content] in Hsave.
  apply try_except_return_inv in Hsave as [H|(s1 & e & _ & H)];
    [|discriminate].
  apply bind_inv in H as (fs1' & [] & Hdisk & H). injection H as <-.
  apply save_to_disk_inv in Hdisk
    as (fs0 & loc & data1 & _ & Hres & Hnd & Hne & Hv & ->).
  set (f := os_path_join (workdir self) [p]) in *.
  set (fs1 := set_node fs0 loc (File data1)).
  assert (Hres1 : resolve fs1 f = Return loc)
    by (apply (resolve_keeps fs0); [now apply keeps_dirs_set|done]).
  assert (Hn1 : node_at fs1 loc = Some (File data1))
    by now apply node_at_set_eq.
  assert (Hf : startswith_sep f = true) by now apply os_path_join_absolute.
  assert (Hagain : forall c2 data2, utf8_encode c2 = Some data2 ->
            save_content_to_file self
              (save_content_params {| path := p; content := c2 |}) fs1
            = (set_node fs1 loc (File data2),
               Return (InfoArtifact (lit "saved successfully")))).
  { intros c2 data2 Hc2.
    pose proof (save_to_disk_existing_file fs1 f loc data1 (VStr c2) Hf Hres1 Hn1)
      as Hs. cbn [value_bytes] in Hs. rewrite Hc2 in Hs.
    rewrite save_content_eq. cbn [path content]. fold f.
    now rewrite (guarded_save_eq _ _ _ _ Hs). }
  exists loc. split; [done|]. split; [exact Hagain|].
  rewrite (Hagain c1 data1 Hv). unfold fs1. now rewrite set_node_twice.
Qed.

Lemma save_content_again_witness :
  let fs1 := fst (save_content_to_file fm_work
                    (save_content_params
                       {| path := lit "a/b/c.txt"; content := sample_text |})
                    fs_work) in
  exists loc,
    resolve fs1 (os_path_join (workdir fm_work) [lit "a/b/c.txt"])
      = Return loc /\
    (forall c2 data2,
       utf8_encode c2 = Some data2 ->
       save_content_to_file fm_work
         (save_content_params {| path := lit "a/b/c.txt"; content := c2 |}) fs1
         = (set_node fs1 loc (File data2),
            Return (InfoArtifact (lit "saved successfully")))) /\
    save_content_to_file fm_work
      (save_content_params
         {| path := lit "a/b/c.txt"; content := sample_text |}) fs1
      = (fs1, Return (InfoArtifact (lit "saved successfully"))).
Proof.
  apply (save_content_again fm_work (lit "a/b/c.txt") sample_text fs_work).
  - reflexivity.
  - vm_compute. reflexivity.
Defined.

(** X2: a save that fails at the write has already emptied the file.
    When the path resolves to a regular file and the content has no
    UTF-8 encoding, or the value of the one memory artifact has no bytes
    for [file.write] (a [str] without encoding, or an object without a
    buffer, such as an [int]), the result is the error artifact of that
    failure and the file is left empty. *)
Theorem failed_write_empties_file (self : FileManager.t) (fs : fsys) :
  is_absolute (Path (workdir self)) = true ->
  (forall p c loc d0,
     resolve fs (os_path_join (workdir self) [p]) = Return loc ->
     node_at fs loc = Some (File d0) ->
     utf8_encode c = None ->
     exists msg,
       str_encode c = Raise (UnicodeEncodeError msg) /\
       save_content_to_file self
         (save_content_params {| path := p; content := c |}) fs
         = (set_node fs loc (File []),
            Return (ErrorArtifact
                      (lit "error writing file to disk: " ++ msg)))) /\
  (forall params memory a loc d0,
     find_input_memory self (memory_name params) = Some memory ->
     load_artifacts memory (artifact_namespace params) = Return [a] ->
     resolve fs (os_path_join (workdir self)
                   [dir_name params; file_name params]) = Return loc ->
     node_at fs loc = Some (File d0) ->
     value_bytes (a_value a) = None ->
     exists msg,
       save_memory_artifacts_to_disk self (save_memory_params params) fs
         = (set_node fs loc (File []), Return (ErrorArtifact msg)) /\
       forall type_name,
         a_value a = VObject type_name ->
         msg = lit "error writing file to disk: a bytes-like object is required, not '"
               ++ type_name ++ lit "'").
Proof.
  rewrite is_absolute_Path. intros Hw. split.
  - intros p c loc d0 Hres Hn Hc.
    pose proof (save_to_disk_existing_file fs _ loc d0 (VStr c)
                  (os_path_join_absolute _ [p] Hw) Hres Hn) as Hs.
    cbn [value_bytes] in Hs. rewrite Hc in Hs. destruct Hs as (e & Harg & Hs).
    pose proof (str_encode_spec c) as Hspec. rewrite Hc in Hspec.
    destruct Hspec as [msg Hmsg]. exists msg. split; [done|].
    rewrite write_arg_eq, Hmsg in Harg. injection Harg as <-.
    rewrite save_content_eq. cbn [path content].
    now rewrite (guarded_save_eq _ _ _ _ Hs).
  - intros params memory a loc d0 Hm Ha Hres Hn Hv.
    pose proof (save_to_disk_existing_file fs _ loc d0 (a_value a)
                  (os_path_join_absolute _ _ Hw) Hres Hn) as Hs.
    rewrite Hv in Hs. destruct Hs as (e & Harg & Hs).
    rewrite (save_memory_one _ _ params memory a)
      by (done || apply holds_save_memory_params).
    rewrite (guarded_save_eq _ _ _ _ Hs). eexists. split; [reflexivity|].
    intros ty Hty. rewrite Hty, write_arg_eq in Harg.
    now injection Harg as <-.
Qed.

Lemma failed_write_empties_file_witness :
  exists msg,
    str_encode lone_surrogate = Raise (UnicodeEncodeError msg) /\
    save_content_to_file fm_work
      (save_content_params {| path := lit "a.txt"; content := lone_surrogate |})
      fs_file
    = (set_node fs_file [lit "work"; lit "a.txt"] (File []),
       Return (ErrorArtifact (lit "error writing file to disk: " ++ msg))).
Proof.
  apply (proj1 (failed_write_empties_file fm_work fs_file
                  ltac:(reflexivity))
           (lit "a.txt") lone_surrogate [lit "work"; lit "a.txt"]
           (List.map octet [104; 105])).
  - vm_compute. reflexivity.
  - vm_compute. reflexivity.
  - vm_compute. reflexivity.
Defined.

(** X3: a save to a path that resolves to a directory, as the empty path
    does for the work directory, answers with the error of [open] and
    leaves the tree as it is. *)
Theorem save_to_directory_fails (self : FileManager.t) (p c : pystr)
  (fs : fsys) (loc : list pystr) :
  is_absolute (Path (workdir self)) = true ->
  resolve fs (os_path_join (workdir self) [p]) = Return loc ->
  node_at fs loc = Some Dir ->
  save_content_to_file self
    (save_content_params {| path := p; content := c |}) fs
  = (fs, Return (ErrorArtifact
                   (lit "error writing file to disk: "
                    ++ exn_str (OSError EISDIR
                                  (os_path_join (workdir self) [p]))))).
Proof.
  rewrite is_absolute_Path. intros Hw Hres Hn.
  set (f := os_path_join (workdir self) [p]) in *.
  assert (Hf : startswith_sep f = true) by now apply os_path_join_absolute.
  destruct (dirname_of_resolved fs f loc Hf Hres) as (Hst & Hds & Hnorm).
  assert (Hopen : open_wb f fs = (fs, Raise (OSError EISDIR f))).
  { unfold open_wb. destruct (endswith_sep f && is_name _) eqn:Eb.
    - apply andb_true_iff in Eb as [Eend Ename].
      pose proof Hres as [Hadm Hwalk]%lookup_inv. rewrite Hf in Hwalk.
      rewrite lookup_eq, Hf by done.
      destruct (namei fs [] (removelast (strip_empties (split_sep f)) ++ [[]]))
        as [e|l] eqn:En; [|done]. exfalso.
      apply endswith_sep_app in Eend as [w0 Ew].
      destruct (strip_empties_decompose (split_sep f)) as [k Hk].
      assert (Hs : strip_empties (split_sep f) <> []).
      { intros E0. rewrite E0 in Ename. discriminate. }
      destruct (exists_last Hs) as (cs0 & name & Ecs).
      rewrite Ecs in Ename, En, Hk. rewrite last_last in Ename.
      rewrite removelast_last in En.
      rewrite Hk, <- app_assoc, namei_app in Hwalk.
      destruct (namei fs [] cs0) as [e0|l0] eqn:E0; [discriminate|].
      rewrite namei_app, E0 in En. simpl in En.
      assert (Hd0 : node_at fs l0 = Some Dir).
      { apply (namei_first_dir fs ([name] ++ repeat [] k) l0 loc); [|done].
        discriminate. }
      now rewrite Hd0 in En.
    - now rewrite Hres, Hn. }
  assert (Hs : _save_to_disk f (VStr c) fs = (fs, Raise (OSError EISDIR f))).
  { unfold _save_to_disk.
    rewrite (bind_return _ _ _ _ _ (makedirs_existing fs _ Hds Hnorm Hst)).
    now apply bind_raise. }
  rewrite save_content_eq. cbn [path content]. fold f.
  now rewrite (guarded_save_eq _ _ _ _ Hs).
Qed.

Lemma save_to_directory_fails_witness :
  save_content_to_file fm_work
    (save_content_params {| path := lit ""; content := lit "x" |}) fs_work
  = (fs_work,
     Return (ErrorArtifact
               (lit "error writing file to disk: [Errno 21] Is a directory: '/work/'"))).
Proof.
  apply (save_to_directory_fails fm_work (lit "") (lit "x") fs_work
           [lit "work"]).
  - reflexivity.
  - vm_compute. reflexivity.
  - vm_compute. reflexivity.
Defined.

(** X4: whatever the parameters and whatever the outcome, a save removes
    nothing: a directory stays a directory and a regular file stays a
    regular file.  After [save_content_to_file], a file that no longer
    has the content it had is the one the joined path resolves to. *)
Theorem saves_remove_nothing (self : FileManager.t) (fs : fsys) :
  (forall params fs' r,
     save_content_to_file self (save_content_params params) fs = (fs', r) ->
     never_removes fs fs' /\
     forall l d,
       node_at fs l = Some (File d) -> node_at fs' l <> Some (File d) ->
       resolve fs' (os_path_join (workdir self) [path params]) = Return l) /\
  (forall params fs' r,
     save_memory_artifacts_to_disk self (save_memory_params params) fs = (fs', r) ->
     never_removes fs fs').
Proof.
  split.
  - intros params fs' r H. rewrite save_content_eq in H.
    apply guarded_save_state in H as [r' H]. split.
    + now apply save_to_disk_never_removes in H.
    + apply save_to_disk_frame in H as [_ F]. intros l d Hl Hne.
      destruct (F _ _ Hl) as [E|[E _]]; [contradiction|done].
  - intros params fs' r H. rewrite save_memory_eq in H.
    destruct (find_input_memory self (memory_name params)) as [memory|].
    2:{ injection H as <- _. apply never_removes_refl. }
    unfold bind at 1 in H. unfold lift in H.
    destruct (load_artifacts memory (artifact_namespace params)) as [arts|e].
    2:{ injection H as <- _. apply never_removes_refl. }
    destruct arts as [|a [|a2 arts]].
    + injection H as <- _. apply never_removes_refl.
    + apply guarded_save_state in H as [r' H].
      now apply save_to_disk_never_removes in H.
    + apply guarded_save_state in H as [r' H].
      now apply save_each_never_removes in H.
Qed.

Lemma saves_remove_nothing_witness :
  never_removes fs_file
    (fst (save_content_to_file fm_work
            (save_content_params {| path := lit "a.txt"; content := lone_surrogate |}) fs_file)).
Proof.
  apply (proj1 (saves_remove_nothing fm_work fs_file)
           {| path := lit "a.txt"; content := lone_surrogate |}
           _ (snd (save_content_to_file fm_work
                     (save_content_params {| path := lit "a.txt"; content := lone_surrogate |})
                     fs_file))).
  apply pair_fst_snd.
Defined.

(** X5: with several artifacts, the loop stops at the first write that
    fails: the result is the error of that write and the tree is left
    as that write left it, so the artifacts after it are not written.
    Nothing is rolled back: every file that was there before the failed
    write, those of the artifacts before it among them, has the content
    it had, but for a file that the failing path itself resolves to,
    which is still a file. *)
Theorem save_memory_stops_at_first_failure (self : FileManager.t)
  (params : SaveMemoryParams) (memory : Memory)
  (pre post : list MemoryArtifact) (a : MemoryArtifact)
  (fs fs1 fs2 : fsys) (e : exn) :
  find_input_memory self (memory_name params) = Some memory ->
  load_artifacts memory (artifact_namespace params)
    = Return (pre ++ a :: post) ->
  (2 <= length (pre ++ a :: post))%nat ->
  written_in_turn self (dir_name params) (file_name params) pre fs fs1 ->
  _save_to_disk
    (os_path_join (workdir self)
       [dir_name params; a_name a ++ lit "-" ++ file_name params])
    (a_value a) fs1 = (fs2, Raise e) ->
  save_memory_artifacts_to_disk self (save_memory_params params) fs
    = (fs2, Return (ErrorArtifact
                      (lit "error writing file to disk: " ++ exn_str e))) /\
  forall l d,
    node_at fs1 l = Some (File d) ->
    node_at fs2 l = Some (File d) \/
    (resolve fs2
       (os_path_join (workdir self)
          [dir_name params; a_name a ++ lit "-" ++ file_name params])
     = Return l /\
     exists d', node_at fs2 l = Some (File d')).
Proof.
  intros Hm Ha Hlen Hpre Hfail. split.
  - rewrite (save_memory_several self _ params memory _ fs
               (holds_save_memory_params params) Hm Ha Hlen).
    assert (Hloop : save_each self (dir_name params) (file_name params)
                      (pre ++ a :: post) fs = (fs2, Raise e)).
    { rewrite (written_in_turn_run _ _ _ _ _ _ Hpre). cbn [save_each].
      now apply bind_raise. }
    now rewrite (guarded_save_eq _ _ _ _ Hloop).
  - apply save_to_disk_frame in Hfail. apply Hfail.
Qed.

Lemma save_memory_stops_at_first_failure_witness :
  let params := {| dir_name := lit "out"; file_name := lit "f";
                   memory_name := lit "mem"; artifact_namespace := lit "ns" |} in
  let fs1 := fst (_save_to_disk (lit "/work/out/x-f") (VStr (lit "hi"))
                    fs_work) in
  let fs2 := fst (_save_to_disk (lit "/work/out/y-f") (VObject (lit "int"))
                    fs1) in
  save_memory_artifacts_to_disk fm_mixed (save_memory_params params) fs_work
    = (fs2,
       Return (ErrorArtifact
                 (lit "error writing file to disk: a bytes-like object is required, not 'int'")))
  /\ read_file (lit "/work/out/x-f") fs2 = Return (List.map octet [104; 105])
  /\ read_file (lit "/work/out/y-f") fs2 = Return []
  /\ os_stat (lit "/work/out/z-f") fs2
     = Raise (OSError ENOENT (lit "/work/out/z-f")).
Proof.
  intros params fs1 fs2. split; [|repeat split; vm_compute; reflexivity].
  refine (proj1 (save_memory_stops_at_first_failure fm_mixed params
                   mixed_memory
                   [ {| a_name := lit "x"; a_value := VStr (lit "hi") |} ]
                   [ {| a_name := lit "z"; a_value := VBytes [] |} ]
                   {| a_name := lit "y"; a_value := VObject (lit "int") |}
                   fs_work fs1 fs2
                   (TypeError
                      (lit "a bytes-like object is required, not 'int'"))
                   _ _ _ _ _)).
  - reflexivity.
  - reflexivity.
  - simpl. lia.
  - econstructor; [|constructor]. vm_compute. reflexivity.
  - vm_compute. reflexivity.
Defined.

(** X6: with several artifacts that are all written, the file of the last
    one holds its bytes, and so does the file of every artifact of the
    same name: of artifacts with one name, the last one wins. *)
Theorem last_artifact_wins (self : FileManager.t)
  (params : SaveMemoryParams) (memory : Memory)
  (pre : list MemoryArtifact) (a : MemoryArtifact) (fs fs' : fsys) :
  find_input_memory self (memory_name params) = Some memory ->
  load_artifacts memory (artifact_namespace params) = Return (pre ++ [a]) ->
  pre <> [] ->
  save_memory_artifacts_to_disk self (save_memory_params params) fs
    = (fs', Return (InfoArtifact (lit "saved successfully"))) ->
  exists data,
    value_bytes (a_value a) = Some data /\
    forall a1,
      In a1 (pre ++ [a]) -> a_name a1 = a_name a ->
      read_file
        (os_path_join (workdir self)
           [dir_name params; a_name a1 ++ lit "-" ++ file_name params])
        fs' = Return data.
Proof.
  intros Hm Ha Hpre Hsave.
  rewrite (save_memory_several self _ params memory _ fs
             (holds_save_memory_params params) Hm Ha) in Hsave.
  2:{ rewrite length_app. destruct pre; [done|]. simpl. lia. }
  apply try_except_return_inv in Hsave as [H|(s1 & e & _ & H)];
    [|discriminate].
  apply bind_inv in H as (fs1 & [] & Hloop & H). injection H as <-.
  apply save_each_inv, written_in_turn_app_inv in Hloop
    as (fs0 & _ & Hlast).
  inversion Hlast as [|? ? ? fs2 ? Hs Hnil]; subst. inversion Hnil; subst.
  destruct (save_to_disk_read _ _ _ _ Hs) as (data & Hv & Hread).
  exists data. split; [done|]. intros a1 _ ->. exact Hread.
Qed.

Lemma last_artifact_wins_witness :
  let params := {| dir_name := lit "out"; file_name := lit "f.txt";
                   memory_name := lit "mem"; artifact_namespace := lit "two" |} in
  let fs' := fst (save_memory_artifacts_to_disk fm_memory (save_memory_params params) fs_work) in
  exists data,
    value_bytes (VBytes []) = Some data /\
    forall a1,
      In a1 ([ {| a_name := lit "x"; a_value := VStr (lit "hi") |} ]
             ++ [ {| a_name := lit "y"; a_value := VBytes [] |} ]) ->
      a_name a1 = lit "y" ->
      read_file
        (os_path_join (workdir fm_memory)
           [lit "out"; a_name a1 ++ lit "-" ++ lit "f.txt"])
        fs' = Return data.
Proof.
  intros params fs'.
  refine (last_artifact_wins fm_memory params sample_memory
            [ {| a_name := lit "x"; a_value := VStr (lit "hi") |} ]
            {| a_name := lit "y"; a_value := VBytes [] |}
            fs_work fs' _ _ _ _).
  - vm_compute. reflexivity.
  - vm_compute. reflexivity.
  - discriminate.
  - vm_compute. reflexivity.
Defined.

(** X7: two saves of content do not disturb each other: after a save
    that reports success, a second save, whatever its outcome, leaves the
    file of the first as it was, unless its own path resolves to that
    file. *)
Theorem second_save_keeps_first (self : FileManager.t)
  (p1 c1 p2 c2 : pystr) (fs fs1 fs2 : fsys) (r : result artifact) :
  save_content_to_file self (save_content_params {| path := p1; content := c1 |}) fs
    = (fs1, Return (InfoArtifact (lit "saved successfully"))) ->
  save_content_to_file self (save_content_params {| path := p2; content := c2 |}) fs1 = (fs2, r) ->
  resolve fs2 (os_path_join (workdir self) [p1])
    <> resolve fs2 (os_path_join (workdir self) [p2]) ->
  exists data,
    utf8_encode c1 = Some data /\
    read_file (os_path_join (workdir self) [p1]) fs2 = Return data.
Proof.
  intros H1 H2 Hdiff.
  rewrite save_content_eq in H1. cbn [path content] in H1.
  apply try_except_return_inv in H1 as [H|(s1 & e & _ & H)]; [|discriminate].
  apply bind_inv in H as (fs1' & [] & Hdisk & H). injection H as <-.
  apply save_to_disk_inv in Hdisk
    as (fs0 & loc & data & _ & Hres & Hnd & Hne & Hv & ->).
  rewrite save_content_eq in H2. cbn [path content] in H2.
  apply guarded_save_state in H2 as [r' H2].
  apply save_to_disk_frame in H2 as [K F].
  assert (Hres2 : resolve fs2 (os_path_join (workdir self) [p1]) = Return loc).
  { apply (resolve_keeps (set_node fs0 loc (File data))); [done|].
    apply (resolve_keeps fs0); [now apply keeps_dirs_set|done]. }
  exists data. split; [exact Hv|]. unfold read_file. rewrite Hres2.
  destruct (F loc data (node_at_set_eq _ _ _ Hne)) as [->|[E _]]; [done|].
  rewrite Hres2 in Hdiff. now rewrite E in Hdiff.
Qed.

Lemma second_save_keeps_first_witness :
  let fs1 := fst (save_content_to_file fm_work
                    (save_content_params {| path := lit "a.txt"; content := lit "hi" |}) fs_work) in
  let fs2 := fst (save_content_to_file fm_work
                    (save_content_params {| path := lit "b.txt"; content := lone_surrogate |})
                    fs1) in
  exists data,
    utf8_encode (lit "hi") = Some data /\
    read_file (os_path_join (workdir fm_work) [lit "a.txt"]) fs2 = Return data.
Proof.
  intros fs1 fs2.
  refine (second_save_keeps_first fm_work (lit "a.txt") (lit "hi")
            (lit "b.txt") lone_surrogate fs_work fs1 fs2
            (snd (save_content_to_file fm_work
                    (save_content_params {| path := lit "b.txt"; content := lone_surrogate |})
                    fs1)) _ _ _).
  - vm_compute. reflexivity.
  - apply pair_fst_snd.
  - vm_compute. discriminate.
Defined.

(** *** Missing keys *)

(** X8: [search_record] looks up ["id"] and then ["query"]; a dictionary
    without one of them raises [KeyError] for the first that is missing,
    before any call to the driver, whose store is untouched. *)
Theorem search_record_missing_key {S : Type} (self : TextManagerRamp.t S)
  (value : gmap pystr pystr) (s : S) :
  (value !! lit "id" = None ->
   TextManagerRamp.search_record self value s
     = (s, Raise (KeyError (lit "id")))) /\
  (forall id,
     value !! lit "id" = Some id -> value !! lit "query" = None ->
     TextManagerRamp.search_record self value s
       = (s, Raise (KeyError (lit "query")))).
Proof.
  unfold TextManagerRamp.search_record, TextManagerRamp.getitem. split.
  - now intros ->.
  - now intros id -> ->.
Qed.

Lemma search_record_missing_key_witness :
  TextManagerRamp.search_record
    (TextManagerRamp.mk (lit "storage") list_driver)
    {[ lit "query" := lit "what" ]} [lit "first"]
  = ([lit "first"], Raise (KeyError (lit "id"))).
Proof.
  apply (proj1 (search_record_missing_key
                  (TextManagerRamp.mk (lit "storage") list_driver)
                  {[ lit "query" := lit "what" ]} [lit "first"])).
  vm_compute. reflexivity.
Defined.

(** *** Absolute paths *)

(** X9: an absolute [path] takes the place of the work directory: the
    save does what the save of any other manager does, and on success the
    content is in the file that [path] itself names, wherever the work
    directory is. *)
Theorem absolute_path_ignores_workdir (self other : FileManager.t)
  (p c : pystr) :
  startswith_sep p = true ->
  save_content_to_file self (save_content_params {| path := p; content := c |})
  = save_content_to_file other (save_content_params {| path := p; content := c |}) /\
  forall fs fs',
    save_content_to_file self (save_content_params {| path := p; content := c |}) fs
      = (fs', Return (InfoArtifact (lit "saved successfully"))) ->
    exists data,
      utf8_encode c = Some data /\ read_file p fs' = Return data.
Proof.
  intros Hp.
  assert (Hj : forall w, os_path_join w [p] = p).
  { intros w. unfold os_path_join. simpl. unfold join2. now rewrite Hp. }
  split.
  - rewrite !save_content_fun. cbn [path content]. now rewrite !Hj.
  - intros fs fs' Hsave.
    rewrite save_content_eq in Hsave. cbn [path content] in Hsave.
    rewrite Hj in Hsave.
    apply try_except_return_inv in Hsave as [H|(s1 & e & _ & H)];
      [|discriminate].
    apply bind_inv in H as (fs1 & [] & Hdisk & H). injection H as <-.
    exact (save_to_disk_read _ _ _ _ Hdisk).
Qed.

Lemma absolute_path_ignores_workdir_witness :
  let fs' := fst (save_content_to_file fm_work
                    (save_content_params {| path := lit "/tmp/x.txt"; content := lit "hi" |})
                    fs_work) in
  exists data,
    utf8_encode (lit "hi") = Some data /\
    read_file (lit "/tmp/x.txt") fs' = Return data.
Proof.
  intros fs'.
  apply (proj2 (absolute_path_ignores_workdir fm_work fm_memory
                  (lit "/tmp/x.txt") (lit "hi") ltac:(reflexivity))
           fs_work fs').
  vm_compute. reflexivity.
Defined.

(** *** Saving from a memory, then loading *)

Lemma endswith_sep_app_r a b : b <> [] -> endswith_sep (a ++ b) = endswith_sep b.
Proof.
  intros Hb. destruct (exists_last Hb) as (b' & c & ->).
  unfold endswith_sep. rewrite app_assoc, !rev_app_distr. reflexivity.
Qed.

Lemma join2_abs a b : startswith_sep b = true -> join2 a b = b.
Proof. intros H. unfold join2. now rewrite H. Qed.

Lemma join2_rel a b :
  startswith_sep b = false ->
  join2 a b = if is_nil a || endswith_sep a then a ++ b else a ++ sep :: b.
Proof. intros H. unfold join2. now rewrite H. Qed.

(** [os.path.join(os.path.join(w, d), f)] is [os.path.join(w,
    os.path.join(d, f))]. *)
Lemma join2_assoc w d f : join2 (join2 w d) f = join2 w (join2 d f).
Proof.
  destruct (startswith_sep f) eqn:Ef.
  { rewrite (join2_abs d f Ef). now rewrite !join2_abs. }
  destruct (startswith_sep d) eqn:Ed.
  { rewrite (join2_abs w d Ed).
    rewrite (join2_abs w (join2 d f)); [done|]. now apply join2_absolute. }
  destruct d as [|c d].
  - assert (join2 [] f = f) as -> by now rewrite (join2_rel [] f Ef).
    rewrite (join2_rel w [] Ed), (join2_rel w f Ef).
    destruct (is_nil w || endswith_sep w) eqn:Ew.
    + rewrite app_nil_r, (join2_rel w f Ef). now rewrite Ew.
    + rewrite (join2_rel _ f Ef).
      assert (is_nil (w ++ [sep]) || endswith_sep (w ++ [sep]) = true) as ->.
      { unfold endswith_sep. rewrite rev_app_distr. simpl. apply orb_true_r. }
      now rewrite <- app_assoc.
  - assert (Hrel : startswith_sep (join2 (c :: d) f) = false).
    { rewrite (join2_rel _ f Ef). simpl is_nil. simpl orb.
      now destruct (endswith_sep (c :: d)). }
    rewrite (join2_rel w _ Hrel), (join2_rel _ f Ef), (join2_rel w _ Ed).
    rewrite (join2_rel (c :: d) f Ef). simpl (is_nil (c :: d)). simpl orb.
    destruct (is_nil w || endswith_sep w) eqn:Ew.
    + assert (is_nil (w ++ c :: d) = false) as -> by now destruct w.
      rewrite (endswith_sep_app_r w (c :: d)) by done. simpl orb.
      destruct (endswith_sep (c :: d)); now rewrite <- app_assoc.
    + assert (is_nil (w ++ sep :: c :: d) = false) as -> by now destruct w.
      rewrite (endswith_sep_app_r w (sep :: c :: d)) by done.
      change (sep :: c :: d) with ([sep] ++ c :: d).
      rewrite (endswith_sep_app_r [sep] (c :: d)) by done. simpl orb.
      destruct (endswith_sep (c :: d)); now rewrite <- !app_assoc.
Qed.

Lemma join2_relative d f :
  startswith_sep d = false -> startswith_sep f = false ->
  startswith_sep (join2 d f) = false.
Proof.
  intros Hd Hf. unfold join2. rewrite Hf. destruct d as [|c d]; [done|].
  simpl is_nil. simpl orb. now destruct (endswith_sep (c :: d)).
Qed.

(** X10: an artifact that [save_memory_artifacts_to_disk] saved under a
    relative [dir_name] and [file_name] is loaded back, with the loader of
    the file system, by the path [os.path.join(dir_name, file_name)]: the
    list holds one artifact, with the bytes of the value. *)
Theorem saved_artifact_loads_back (self : FileManager.t)
  (params : SaveMemoryParams) (memory : Memory) (a : MemoryArtifact)
  (fs fs' : fsys) :
  find_input_memory self (memory_name params) = Some memory ->
  load_artifacts memory (artifact_namespace params) = Return [a] ->
  startswith_sep (dir_name params) = false ->
  startswith_sep (file_name params) = false ->
  save_memory_artifacts_to_disk self (save_memory_params params) fs
    = (fs', Return (InfoArtifact (lit "saved successfully"))) ->
  exists data,
    value_bytes (a_value a) = Some data /\
    load_files_from_disk self
      (load_params {| paths := [os_path_join (dir_name params) [file_name params]] |}) fs'
    = (fs', Return (ListArtifact [BlobArtifact data])).
Proof.
  intros Hm Ha Hd Hf Hsave.
  rewrite (save_memory_one _ _ params memory a) in Hsave
    by (done || apply holds_save_memory_params).
  apply try_except_return_inv in Hsave as [H|(s1 & e & _ & H)];
    [|discriminate].
  apply bind_inv in H as (fs1 & [] & Hdisk & H). injection H as <-.
  apply save_to_disk_inv in Hdisk
    as (fs0 & loc & data & _ & Hres & Hnd & Hne & Hv & ->).
  exists data. split; [exact Hv|].
  set (p := os_path_join (dir_name params) [file_name params]).
  assert (Hjoin : os_path_join (workdir self)
                    [dir_name params; file_name params]
                  = os_path_join (workdir self) [p]).
  { unfold p, os_path_join. simpl. apply join2_assoc. }
  rewrite Hjoin in Hres.
  assert (Hp : startswith_sep p = false) by now apply join2_relative.
  assert (Hread : read_file (os_path_join (workdir self) [fspath (Path p)])
                    (set_node fs0 loc (File data)) = Return data).
  { apply read_file_Path with (loc := loc); [done| |now apply node_at_set_eq].
    apply resolve_keeps with (fs := fs0); [now apply keeps_dirs_set|done]. }
  rewrite load_files_eq. cbn [paths load_loop]. unfold load_one.
  unfold bind, try_except, lift. cbn [load posix_loader]. unfold posix_load.
  now rewrite Hread.
Qed.

Lemma saved_artifact_loads_back_witness :
  let params := {| dir_name := lit "out"; file_name := lit "f.txt";
                   memory_name := lit "mem"; artifact_namespace := lit "one" |} in
  let fs' := fst (save_memory_artifacts_to_disk fm_memory (save_memory_params params) fs_work) in
  exists data,
    value_bytes (VStr (lit "hi")) = Some data /\
    load_files_from_disk fm_memory
      (load_params {| paths := [os_path_join (lit "out") [lit "f.txt"]] |}) fs'
    = (fs', Return (ListArtifact [BlobArtifact data])).
Proof.
  intros params fs'.
  refine (saved_artifact_loads_back fm_memory params sample_memory
            {| a_name := lit "x"; a_value := VStr (lit "hi") |}
            fs_work fs' _ _ _ _ _).
  - vm_compute. reflexivity.
  - vm_compute. reflexivity.
  - reflexivity.
  - reflexivity.
  - vm_compute. reflexivity.
Defined.

(** *** The current directory *)

Lemma node_at_with_cwd fs c l : node_at (with_cwd fs c) l = node_at fs l.
Proof. now destruct l. Qed.

Lemma namei_with_cwd fs c cs : forall cur,
  namei (with_cwd fs c) cur cs = namei fs cur cs.
Proof.
  induction cs as [|x cs IH]; intros cur; simpl; [done|].
  rewrite node_at_with_cwd. destruct (node_at fs cur) as [[|d]|]; [|done..].
  now rewrite !IH.
Qed.

Lemma lookup_with_cwd fs c s cs :
  startswith_sep s = true -> lookup (with_cwd fs c) s cs = lookup fs s cs.
Proof. intros Hs. unfold lookup. now rewrite Hs, namei_with_cwd. Qed.

Lemma resolve_with_cwd fs c s :
  startswith_sep s = true -> resolve (with_cwd fs c) s = resolve fs s.
Proof. apply lookup_with_cwd. Qed.

Lemma os_stat_with_cwd fs c s :
  startswith_sep s = true -> os_stat s (with_cwd fs c) = os_stat s fs.
Proof.
  intros Hs. unfold os_stat. rewrite resolve_with_cwd by done.
  destruct (resolve fs s); [|done]. now rewrite node_at_with_cwd.
Qed.

Section CwdFree.
Context {A B : Type}.

Lemma cwd_free_ret (a : A) : cwd_free (ret a).
Proof. now intros fs c. Qed.

Lemma cwd_free_raise (e : exn) : cwd_free (raise (A := A) e).
Proof. now intros fs c. Qed.

Lemma cwd_free_gets (f : fsys -> A) :
  (forall fs c, f (with_cwd fs c) = f fs) -> cwd_free (gets f).
Proof. intros Hf fs c. unfold gets. simpl. now rewrite Hf. Qed.

Lemma cwd_free_bind (m : M fsys A) (k : A -> M fsys B) :
  cwd_free m -> (forall a, cwd_free (k a)) -> cwd_free (bind m k).
Proof.
  intros Hm Hk fs c. unfold bind. rewrite Hm.
  destruct (m fs) as [fs1 [a|e]]; simpl; [apply Hk|done].
Qed.

Lemma cwd_free_try (m : M fsys A) (h : exn -> M fsys A) :
  cwd_free m -> (forall e, cwd_free (h e)) -> cwd_free (try_except m h).
Proof.
  intros Hm Hh fs c. unfold try_except. rewrite Hm.
  destruct (m fs) as [fs1 [a|e]]; simpl; [done|apply Hh].
Qed.
End CwdFree.

Lemma cwd_free_mkdir s : startswith_sep s = true -> cwd_free (os_mkdir s).
Proof.
  intros Hs fs c. unfold os_mkdir. rewrite lookup_with_cwd by done.
  destruct (lookup fs s _) as [loc|e]; [|done]. rewrite node_at_with_cwd.
  destruct (node_at fs loc); [done|]. now destruct (is_name _).
Qed.

Lemma cwd_free_isdir s : startswith_sep s = true -> cwd_free (path_isdir s).
Proof.
  intros Hs. apply cwd_free_gets. intros fs c.
  now rewrite os_stat_with_cwd.
Qed.

Lemma cwd_free_exists s : startswith_sep s = true -> cwd_free (path_exists s).
Proof.
  intros Hs. apply cwd_free_gets. intros fs c.
  now rewrite os_stat_with_cwd.
Qed.

Lemma cwd_free_mkdir_exist_ok s :
  startswith_sep s = true -> cwd_free (mkdir_exist_ok s).
Proof.
  intros Hs. apply cwd_free_try; [now apply cwd_free_mkdir|].
  intros e. destruct e; try apply cwd_free_raise.
  apply cwd_free_bind; [now apply cwd_free_isdir|].
  intros []; [apply cwd_free_ret|apply cwd_free_raise].
Qed.

Lemma cwd_free_makedirs fuel : forall name,
  startswith_sep name = true -> cwd_free (makedirs fuel name).
Proof.
  induction fuel as [|n IH]; intros name Hn; [apply cwd_free_raise|].
  rewrite makedirs_S.
  destruct (posix_split name) as [head0 tail0] eqn:E0.
  destruct (posix_split_spec _ _ _ Hn E0) as (_ & _ & _ & _ & Hh0 & _ & _).
  assert (Hhead : forall head tail,
            (if is_nil tail0 then posix_split head0 else (head0, tail0))
            = (head, tail) -> startswith_sep head = true).
  { intros head tail E. destruct (is_nil tail0).
    - now destruct (posix_split_spec _ _ _ Hh0 E) as (_ & _ & _ & _ & H & _).
    - now injection E as <- _. }
  destruct (if is_nil tail0 then posix_split head0 else (head0, tail0))
    as [head tail] eqn:E1.
  specialize (Hhead _ _ eq_refl).
  apply cwd_free_bind.
  { destruct (negb (is_nil head) && negb (is_nil tail)); [|apply cwd_free_ret].
    apply cwd_free_bind; [now apply cwd_free_exists|].
    intros b. apply cwd_free_ret. }
  intros missing. apply cwd_free_bind.
  { destruct missing; [|apply cwd_free_ret].
    apply cwd_free_bind; [|intros _; apply cwd_free_ret].
    apply cwd_free_try; [now apply IH|].
    intros e. destruct e as [[]| | | | |];
      first [apply cwd_free_ret|apply cwd_free_raise]. }
  intros []; [apply cwd_free_ret|now apply cwd_free_mkdir_exist_ok].
Qed.

Lemma cwd_free_open_wb s : startswith_sep s = true -> cwd_free (open_wb s).
Proof.
  intros Hs fs c. unfold open_wb.
  rewrite resolve_with_cwd, lookup_with_cwd by done.
  destruct (endswith_sep s && is_name _); [now destruct (lookup fs s _)|].
  destruct (resolve fs s) as [loc|e]; [|done]. rewrite node_at_with_cwd.
  destruct (node_at fs loc) as [[|d]|]; [done..|].
  now destruct (names_entry s).
Qed.

Lemma cwd_free_file_write file data : cwd_free (file_write file data).
Proof.
  intros fs c. unfold file_write. rewrite node_at_with_cwd.
  now destruct (node_at fs file) as [[|d]|].
Qed.

Lemma cwd_free_write_arg v : cwd_free (write_arg v).
Proof.
  intros fs c. now rewrite !write_arg_eq.
Qed.

Lemma dirname_absolute f :
  startswith_sep f = true -> startswith_sep (dirname f) = true.
Proof.
  intros Hf. unfold dirname. destruct (posix_split f) as [h t] eqn:E.
  now destruct (posix_split_spec _ _ _ Hf E) as (_ & _ & _ & _ & H & _).
Qed.

Lemma cwd_free_save_to_disk f v :
  startswith_sep f = true -> cwd_free (_save_to_disk f v).
Proof.
  intros Hf. unfold _save_to_disk. apply cwd_free_bind.
  { apply cwd_free_makedirs. now apply dirname_absolute. }
  intros _. apply cwd_free_bind; [now apply cwd_free_open_wb|].
  intros file. apply cwd_free_bind; [apply cwd_free_write_arg|].
  intros data. apply cwd_free_file_write.
Qed.

Lemma cwd_free_guarded (m : M fsys unit) :
  cwd_free m ->
  cwd_free (try_except (m ;;; ret (InfoArtifact (lit "saved successfully")))%py
              (fun e => ret (write_error e))).
Proof.
  intros Hm. apply cwd_free_try; [|intros e; apply cwd_free_ret].
  apply cwd_free_bind; [done|intros _; apply cwd_free_ret].
Qed.

Lemma cwd_free_save_each self d f arts :
  startswith_sep (workdir self) = true -> cwd_free (save_each self d f arts).
Proof.
  intros Hw. induction arts as [|a arts IH]; cbn [save_each];
    [apply cwd_free_ret|].
  apply cwd_free_bind; [|intros _; exact IH].
  apply cwd_free_save_to_disk. now apply os_path_join_absolute.
Qed.

(** X11: the tool was given an absolute [workdir], as [validate_workdir]
    demands; then what [save_content_to_file] and
    [save_memory_artifacts_to_disk] write, and what they answer, is the
    same from every current directory of the process. *)
Theorem saves_ignore_current_directory (self : FileManager.t)
  (fs : fsys) (c : list pystr) :
  is_absolute (Path (workdir self)) = true ->
  (forall params fs' r,
     save_content_to_file self (save_content_params params) fs = (fs', r) ->
     save_content_to_file self (save_content_params params) (with_cwd fs c) = (with_cwd fs' c, r)) /\
  (forall params fs' r,
     save_memory_artifacts_to_disk self (save_memory_params params) fs = (fs', r) ->
     save_memory_artifacts_to_disk self (save_memory_params params) (with_cwd fs c)
     = (with_cwd fs' c, r)).
Proof.
  rewrite is_absolute_Path. intros Hw. split; intros params fs' r Hrun.
  - assert (H : cwd_free (save_content_to_file self (save_content_params params))).
    { rewrite save_content_fun. apply cwd_free_guarded, cwd_free_save_to_disk.
      now apply os_path_join_absolute. }
    rewrite H, Hrun. reflexivity.
  - assert (H : cwd_free (save_memory_artifacts_to_disk self (save_memory_params params))).
    { rewrite save_memory_fun.
      destruct (find_input_memory self (memory_name params)) as [m|];
        [|apply cwd_free_ret].
      apply cwd_free_bind; [now intros fs0 c0|].
      intros [|a [|b arts]]; [apply cwd_free_ret| |].
      + apply cwd_free_guarded, cwd_free_save_to_disk.
        now apply os_path_join_absolute.
      + now apply cwd_free_guarded, cwd_free_save_each. }
    rewrite H, Hrun. reflexivity.
Qed.

Lemma saves_ignore_current_directory_witness :
  let params :=
    save_content_params
      {| path := lit "a/b/c.txt"; content := sample_text |} in
  save_content_to_file fm_work params (with_cwd fs_work [lit "home"])
  = (with_cwd (fst (save_content_to_file fm_work params fs_work))
       [lit "home"],
     snd (save_content_to_file fm_work params fs_work)).
Proof.
  intros params.
  apply (proj1 (saves_ignore_current_directory fm_work fs_work [lit "home"]
                  ltac:(reflexivity))
           {| path := lit "a/b/c.txt"; content := sample_text |}).
  apply pair_fst_snd.
Defined.

(** *** Several artifacts *)

(** What a run of writes leaves alone: every directory, and every regular
    file but those the paths of the run resolve to. *)
Lemma written_in_turn_frame self dir file arts fs fs' :
  written_in_turn self dir file arts fs fs' ->
  keeps_dirs fs fs' /\
  forall l d,
    node_at fs l = Some (File d) ->
    node_at fs' l = Some (File d) \/
    exists b, In b arts /\
      resolve fs'
        (os_path_join (workdir self) [dir; a_name b ++ lit "-" ++ file])
      = Return l.
Proof.
  induction 1 as [fs|a arts fs fs1 fs2 Hs _ [K2 F2]].
  - split; [apply keeps_dirs_refl|]. intros l d Hl. now left.
  - apply save_to_disk_frame in Hs as [K1 F1].
    split; [now apply (keeps_dirs_trans _ fs1)|].
    intros l d Hl. destruct (F1 l d Hl) as [H1|(Hres & d' & H1)].
    + destruct (F2 l d H1) as [H2|(b & Hb & H2)]; [now left|].
      right. exists b. split; [now right|done].
    + destruct (F2 l d' H1) as [H2|(b & Hb & H2)].
      * right. exists a. split; [now left|].
        now apply (resolve_keeps fs1).
      * right. exists b. split; [now right|done].
Qed.

Lemma written_in_turn_read self dir file arts fs fs' :
  written_in_turn self dir file arts fs fs' ->
  List.NoDup (List.map
           (fun a => resolve fs'
                       (os_path_join (workdir self)
                          [dir; a_name a ++ lit "-" ++ file])) arts) ->
  List.Forall
    (fun a => exists data,
       value_bytes (a_value a) = Some data /\
       read_file (os_path_join (workdir self)
                    [dir; a_name a ++ lit "-" ++ file]) fs'
       = Return data) arts.
Proof.
  induction 1 as [fs|a arts fs fs1 fs2 Hs Hrest IH]; intros Hnd;
    [constructor|].
  cbn [List.map] in Hnd. apply List.NoDup_cons_iff in Hnd as [Hnotin Hnd].
  constructor; [|now apply IH].
  apply save_to_disk_inv in Hs
    as (fs0 & loc & data & _ & Hres & Hdir & Hne & Hv & ->).
  exists data. split; [exact Hv|].
  destruct (written_in_turn_frame _ _ _ _ _ _ Hrest) as [K F].
  set (f := os_path_join (workdir self) [dir; a_name a ++ lit "-" ++ file])
    in *.
  assert (Hres2 : resolve fs2 f = Return loc).
  { apply (resolve_keeps (set_node fs0 loc (File data))); [done|].
    apply (resolve_keeps fs0); [now apply keeps_dirs_set|done]. }
  unfold read_file. rewrite Hres2.
  destruct (F loc data (node_at_set_eq _ _ _ Hne)) as [->|(b & Hb & E)];
    [done|].
  exfalso. apply Hnotin. rewrite Hres2, <- E.
  apply (List.in_map
           (fun a0 => resolve fs2
                        (os_path_join (workdir self)
                           [dir; a_name a0 ++ lit "-" ++ file])) arts b Hb).
Qed.

(** X12: with several artifacts that are all written, every artifact is
    on disk when no two of their paths resolve to one file: the file
    [workdir/dir_name/{a.name}-{file_name}] of each artifact [a] holds the
    bytes of its value. *)
Theorem every_artifact_is_on_disk (self : FileManager.t)
  (params : SaveMemoryParams) (memory : Memory)
  (arts : list MemoryArtifact) (fs fs' : fsys) :
  find_input_memory self (memory_name params) = Some memory ->
  load_artifacts memory (artifact_namespace params) = Return arts ->
  (2 <= length arts)%nat ->
  save_memory_artifacts_to_disk self (save_memory_params params) fs
    = (fs', Return (InfoArtifact (lit "saved successfully"))) ->
  List.NoDup (List.map
           (fun a => resolve fs'
                       (os_path_join (workdir self)
                          [dir_name params;
                           a_name a ++ lit "-" ++ file_name params])) arts) ->
  forall a, In a arts ->
    exists data,
      value_bytes (a_value a) = Some data /\
      read_file
        (os_path_join (workdir self)
           [dir_name params; a_name a ++ lit "-" ++ file_name params])
        fs' = Return data.
Proof.
  intros Hm Ha Hlen Hsave Hnd.
  rewrite (save_memory_several self _ params memory _ fs
             (holds_save_memory_params params) Hm Ha Hlen) in Hsave.
  apply try_except_return_inv in Hsave as [H|(s1 & e & _ & H)];
    [|discriminate].
  apply bind_inv in H as (fs1 & [] & Hloop & H). injection H as <-.
  apply save_each_inv in Hloop.
  apply List.Forall_forall.
  now apply (written_in_turn_read self _ _ arts fs).
Qed.

Lemma every_artifact_is_on_disk_witness :
  let params := {| dir_name := lit "out"; file_name := lit "f.txt";
                   memory_name := lit "mem"; artifact_namespace := lit "two" |} in
  let fs' := fst (save_memory_artifacts_to_disk fm_memory (save_memory_params params) fs_work) in
  exists data,
    value_bytes (VStr (lit "hi")) = Some data /\
    read_file
      (os_path_join (workdir fm_memory)
         [lit "out"; lit "x" ++ lit "-" ++ lit "f.txt"]) fs'
    = Return data.
Proof.
  intros params fs'.
  refine (every_artifact_is_on_disk fm_memory params sample_memory
            [ {| a_name := lit "x"; a_value := VStr (lit "hi") |};
              {| a_name := lit "y"; a_value := VBytes [] |} ]
            fs_work fs' _ _ _ _ _
            {| a_name := lit "x"; a_value := VStr (lit "hi") |} _).
  - vm_compute. reflexivity.
  - vm_compute. reflexivity.
  - simpl. lia.
  - vm_compute. reflexivity.
  - repeat constructor; vm_compute; intros H;
      repeat (destruct H as [H|H]; [discriminate|]); exact H.
  - left. reflexivity.
Defined.
